(** * Billiard physics core: [Ball.update], [GamePhysics], pocket capture

    A shallow embedding of the physics functions of [billiard_r.py]:
    - [Ball.update]                           (per-tick integration),
    - [GamePhysics.resolve_ball_collision]    (pairwise collision),
    - [GamePhysics.check_wall_collision]      (cushion reflection),
    - [GameView.check_pocket_collisions]      (pocket capture).

    Python [float]s are modelled by the real numbers [R]: every arithmetic
    step of the source is kept, rounding is not modelled.  A float division
    by zero raises [ZeroDivisionError] in Python; a function that divides
    returns an [option], [None] standing for that exception.  Objects that
    the source mutates in place are threaded explicitly: a function takes
    the ball(s) and returns the ball(s) after the call. *)

From Stdlib Require Import Reals Lra List Bool.
Import ListNotations.
Open Scope R_scope.

(** ** Module constants *)

Definition SCREEN_WIDTH : R := 1200.
Definition SCREEN_HEIGHT : R := 700.
Definition FRICTION : R := 0.985.
Definition ROTATIONAL_FRICTION : R := 0.96.
Definition WALL_BOUNCE : R := 0.78.
Definition BALL_RADIUS : R := 14.
Definition POCKET_RADIUS : R := 32.
Definition SPIN_EFFECT : R := 0.15.

(** ** Comparisons of the source as booleans *)

Definition Rltb (x y : R) : bool := if Rlt_dec x y then true else false.
Definition Rgtb (x y : R) : bool := Rltb y x.
Definition Reqb (x y : R) : bool := if Req_dec_T x y then true else false.

(** ** Data model *)

Record TrailPoint : Type := mkTrailPoint
  { tp_x : R; tp_y : R; tp_time : R; tp_visible : bool }.

(** The attributes of [Ball] the physics reads or writes.  [center_x],
    [center_y], [change_x], [change_y] are inherited sprite attributes;
    the others are set in [Ball.__init__]. *)
Record Ball : Type := mkBall
  { center_x : R;
    center_y : R;
    change_x : R;
    change_y : R;
    angular_velocity : R;
    rotation : R;
    mass : R;
    in_pocket : bool;
    trail : list TrailPoint;
    highlight : bool;
    highlight_time : R;
    last_update_time : R }.

Definition set_center_x (b : Ball) (v : R) : Ball :=
  mkBall v (center_y b) (change_x b) (change_y b) (angular_velocity b)
         (rotation b) (mass b) (in_pocket b) (trail b) (highlight b)
         (highlight_time b) (last_update_time b).

Definition set_center_y (b : Ball) (v : R) : Ball :=
  mkBall (center_x b) v (change_x b) (change_y b) (angular_velocity b)
         (rotation b) (mass b) (in_pocket b) (trail b) (highlight b)
         (highlight_time b) (last_update_time b).

Definition set_change_x (b : Ball) (v : R) : Ball :=
  mkBall (center_x b) (center_y b) v (change_y b) (angular_velocity b)
         (rotation b) (mass b) (in_pocket b) (trail b) (highlight b)
         (highlight_time b) (last_update_time b).

Definition set_change_y (b : Ball) (v : R) : Ball :=
  mkBall (center_x b) (center_y b) (change_x b) v (angular_velocity b)
         (rotation b) (mass b) (in_pocket b) (trail b) (highlight b)
         (highlight_time b) (last_update_time b).

Definition set_angular_velocity (b : Ball) (v : R) : Ball :=
  mkBall (center_x b) (center_y b) (change_x b) (change_y b) v
         (rotation b) (mass b) (in_pocket b) (trail b) (highlight b)
         (highlight_time b) (last_update_time b).

Definition set_rotation (b : Ball) (v : R) : Ball :=
  mkBall (center_x b) (center_y b) (change_x b) (change_y b)
         (angular_velocity b) v (mass b) (in_pocket b) (trail b)
         (highlight b) (highlight_time b) (last_update_time b).

Definition set_trail (b : Ball) (t : list TrailPoint) : Ball :=
  mkBall (center_x b) (center_y b) (change_x b) (change_y b)
         (angular_velocity b) (rotation b) (mass b) (in_pocket b) t
         (highlight b) (highlight_time b) (last_update_time b).

Definition set_highlight (b : Ball) (h : bool) : Ball :=
  mkBall (center_x b) (center_y b) (change_x b) (change_y b)
         (angular_velocity b) (rotation b) (mass b) (in_pocket b) (trail b)
         h (highlight_time b) (last_update_time b).

Definition set_highlight_time (b : Ball) (v : R) : Ball :=
  mkBall (center_x b) (center_y b) (change_x b) (change_y b)
         (angular_velocity b) (rotation b) (mass b) (in_pocket b) (trail b)
         (highlight b) v (last_update_time b).

Definition set_last_update_time (b : Ball) (v : R) : Ball :=
  mkBall (center_x b) (center_y b) (change_x b) (change_y b)
         (angular_velocity b) (rotation b) (mass b) (in_pocket b) (trail b)
         (highlight b) (highlight_time b) v.

(** A ball as [Ball.__init__] leaves it (mass [1.0], no spin), placed at
    [(x, y)] and then given the velocity [(vx, vy)] and spin [w]. *)
Definition ball_at (x y vx vy w : R) : Ball :=
  mkBall x y vx vy w 0 1 false [] false 0 0.

(** The sprite's extent.  [Ball] is an [arcade.SpriteCircle] of radius
    [BALL_RADIUS], never scaled nor turned: its edges lie [BALL_RADIUS]
    away from the centre, and assigning an edge moves the centre by the
    difference. *)
Definition left (b : Ball) : R := center_x b - BALL_RADIUS.
Definition right (b : Ball) : R := center_x b + BALL_RADIUS.
Definition bottom (b : Ball) : R := center_y b - BALL_RADIUS.
Definition top (b : Ball) : R := center_y b + BALL_RADIUS.

Definition set_left (b : Ball) (v : R) : Ball :=
  set_center_x b (center_x b + (v - left b)).
Definition set_right (b : Ball) (v : R) : Ball :=
  set_center_x b (center_x b + (v - right b)).
Definition set_bottom (b : Ball) (v : R) : Ball :=
  set_center_y b (center_y b + (v - bottom b)).
Definition set_top (b : Ball) (v : R) : Ball :=
  set_center_y b (center_y b + (v - top b)).

(** ** [Ball.update] *)

(** [friction = FRICTION - (speed * 0.0005)] *)
Definition friction_of (speed : R) : R := FRICTION - (speed * 0.0005).

(** The two assignments [self.change_x *= friction],
    [self.change_y *= friction]. *)
Definition apply_friction (b : Ball) (speed : R) : Ball :=
  let friction := friction_of speed in
  let b := set_change_x b (change_x b * friction) in
  set_change_y b (change_y b * friction).

(** Rotation, rotational friction and spin drift: the rest of the
    [if speed > 0] block. *)
Definition apply_spin (b : Ball) (delta_time : R) : Ball :=
  let b := set_rotation b (rotation b + angular_velocity b * delta_time * 30) in
  let b := set_angular_velocity b (angular_velocity b * ROTATIONAL_FRICTION) in
  if Rgtb (Rabs (angular_velocity b)) 0.1 then
    let b := set_change_x b
               (change_x b + angular_velocity b * SPIN_EFFECT * delta_time) in
    set_change_y b
      (change_y b - angular_velocity b * SPIN_EFFECT * delta_time)
  else b.

(** The zero snap, one test per component. *)
Definition snap_velocity (b : Ball) : Ball :=
  let b := if Rltb (Rabs (change_x b)) 0.08 then set_change_x b 0 else b in
  if Rltb (Rabs (change_y b)) 0.08 then set_change_y b 0 else b.

(** Trail bookkeeping; [current_time] is the value of [time.time()]. *)
Definition update_trail (b : Ball) (speed current_time : R) : Ball :=
  let b := if Rgtb speed 2.0
           then set_trail b (trail b ++
                  [mkTrailPoint (center_x b) (center_y b) current_time true])
           else b in
  let b := if Nat.ltb 10 (length (trail b))
           then set_trail b (tl (trail b)) else b in
  set_trail b
    (filter (fun p => Rltb (current_time - tp_time p) 0.5) (trail b)).

Definition update_highlight (b : Ball) (delta_time : R) : Ball :=
  if highlight b then
    let b := set_highlight_time b (highlight_time b + delta_time) in
    if Rgtb (highlight_time b) 1.0 then set_highlight b false else b
  else b.

Definition update (current_time : R) (b : Ball) (delta_time : R) : Ball :=
  let b := set_center_x b (center_x b + change_x b) in
  let b := set_center_y b (center_y b + change_y b) in
  let speed := sqrt (change_x b ^ 2 + change_y b ^ 2) in
  let b := if Rgtb speed 0
           then apply_spin (apply_friction b speed) delta_time
           else b in
  let b := snap_velocity b in
  let b := update_trail b speed current_time in
  let b := update_highlight b delta_time in
  set_last_update_time b current_time.

(** ** [GamePhysics.resolve_ball_collision] *)

Definition centre_distance (b1 b2 : Ball) : R :=
  let dx := center_x b2 - center_x b1 in
  let dy := center_y b2 - center_y b1 in
  sqrt (dx * dx + dy * dy).

(** [None] is the [ZeroDivisionError] of
    [2 * speed_along_normal / (ball1.mass + ball2.mass)]; the division by
    [distance] is guarded by the first test and cannot raise. *)
Definition resolve_ball_collision (ball1 ball2 : Ball) : option (Ball * Ball) :=
  let dx := center_x ball2 - center_x ball1 in
  let dy := center_y ball2 - center_y ball1 in
  let distance := sqrt (dx * dx + dy * dy) in
  if Reqb distance 0 || Rgtb distance (BALL_RADIUS * 2) then
    Some (ball1, ball2)
  else
    let nx := dx / distance in
    let ny := dy / distance in
    let overlap := (BALL_RADIUS * 2) - distance in
    let separation := overlap * 0.5 in
    let ball1 := set_center_x ball1 (center_x ball1 - nx * separation) in
    let ball1 := set_center_y ball1 (center_y ball1 - ny * separation) in
    let ball2 := set_center_x ball2 (center_x ball2 + nx * separation) in
    let ball2 := set_center_y ball2 (center_y ball2 + ny * separation) in
    let dvx := change_x ball2 - change_x ball1 in
    let dvy := change_y ball2 - change_y ball1 in
    let speed_along_normal := dvx * nx + dvy * ny in
    if Rgtb speed_along_normal 0 then
      Some (ball1, ball2)
    else
      let restitution := 0.9 in
      if Reqb (mass ball1 + mass ball2) 0 then None
      else
        let impulse := 2 * speed_along_normal / (mass ball1 + mass ball2) in
        let impulse := impulse * restitution in
        let ball1 := set_change_x ball1 (change_x ball1 + impulse * mass ball2 * nx) in
        let ball1 := set_change_y ball1 (change_y ball1 + impulse * mass ball2 * ny) in
        let ball2 := set_change_x ball2 (change_x ball2 - impulse * mass ball1 * nx) in
        let ball2 := set_change_y ball2 (change_y ball2 - impulse * mass ball1 * ny) in
        if Rgtb (Rabs (angular_velocity ball1)) 0.1 then
          let transfer := angular_velocity ball1 * 0.3 in
          let ball1 := set_angular_velocity ball1 (angular_velocity ball1 - transfer) in
          let ball2 := set_angular_velocity ball2 (angular_velocity ball2 + transfer) in
          Some (ball1, ball2)
        else
          Some (ball1, ball2).

(** ** [GamePhysics.check_wall_collision] *)

Definition left_bound : R := 65.
Definition right_bound : R := SCREEN_WIDTH - 65.
Definition bottom_bound : R := 65.
Definition top_bound : R := SCREEN_HEIGHT - 65.

Definition check_wall_collision (ball : Ball) : Ball * bool :=
  if Rltb (left ball) left_bound then
    let ball := set_left ball left_bound in
    let ball := set_change_x ball (Rabs (change_x ball) * WALL_BOUNCE) in
    let ball := set_angular_velocity ball (angular_velocity ball * -0.8) in
    (ball, true)
  else if Rgtb (right ball) right_bound then
    let ball := set_right ball right_bound in
    let ball := set_change_x ball (- Rabs (change_x ball) * WALL_BOUNCE) in
    let ball := set_angular_velocity ball (angular_velocity ball * -0.8) in
    (ball, true)
  else if Rltb (bottom ball) bottom_bound then
    let ball := set_bottom ball bottom_bound in
    let ball := set_change_y ball (Rabs (change_y ball) * WALL_BOUNCE) in
    let ball := set_angular_velocity ball (angular_velocity ball * -0.8) in
    (ball, true)
  else if Rgtb (top ball) top_bound then
    let ball := set_top ball top_bound in
    let ball := set_change_y ball (- Rabs (change_y ball) * WALL_BOUNCE) in
    let ball := set_angular_velocity ball (angular_velocity ball * -0.8) in
    (ball, true)
  else (ball, false).

(** ** [GameView.check_pocket_collisions] *)

(** [BilliardTable.pocket_locations], with [width // 2 = 600]. *)
Definition pocket_locations : list (R * R) :=
  [ (60, 60); (600, 50); (SCREEN_WIDTH - 60, 60);
    (60, SCREEN_HEIGHT - 60); (600, SCREEN_HEIGHT - 50);
    (SCREEN_WIDTH - 60, SCREEN_HEIGHT - 60) ].

Definition pocket_distance (ball : Ball) (p : R * R) : R :=
  sqrt ((center_x ball - fst p) ^ 2 + (center_y ball - snd p) ^ 2).

(** The inner [for px, py in ...] loop: the pocket handed to
    [on_ball_potted], if any; the [break] stops at the first hit. *)
Fixpoint first_pocket (ball : Ball) (pockets : list (R * R)) : option (R * R) :=
  match pockets with
  | [] => None
  | p :: rest =>
      if Rltb (pocket_distance ball p) POCKET_RADIUS then Some p
      else first_pocket ball rest
  end.

(** One iteration of the outer loop: a ball already in a pocket is
    skipped. *)
Definition check_pocket (ball : Ball) (pockets : list (R * R)) : option (R * R) :=
  if in_pocket ball then None else first_pocket ball pockets.


(** ** Quantities and sample states used in the statements *)

Definition speed_of (b : Ball) : R := sqrt (change_x b ^ 2 + change_y b ^ 2).

Definition kinetic_energy (b : Ball) : R :=
  0.5 * mass b * (change_x b ^ 2 + change_y b ^ 2).

Definition pair_energy (b1 b2 : Ball) : R :=
  kinetic_energy b1 + kinetic_energy b2.

Definition momentum_x (b1 b2 : Ball) : R :=
  mass b1 * change_x b1 + mass b2 * change_x b2.

Definition momentum_y (b1 b2 : Ball) : R :=
  mass b1 * change_y b1 + mass b2 * change_y b2.

(** The state the physics claims speak of. *)
Definition same_motion (b b' : Ball) : Prop :=
  center_x b' = center_x b /\ center_y b' = center_y b /\
  change_x b' = change_x b /\ change_y b' = change_y b /\
  angular_velocity b' = angular_velocity b.

(** Two freshly made balls, [20] apart on a horizontal line, the left one
    moving right at speed [5]: the head-on scenario of the specification. *)
Definition striker : Ball := ball_at 100 100 5 0 0.
Definition target : Ball := ball_at 120 100 0 0 0.

(** The attributes a physics step can change. *)
Definition motion (b : Ball) : R * R * R * R * R * R :=
  (center_x b, center_y b, change_x b, change_y b, angular_velocity b,
   rotation b).

(** The ball after the position has been advanced and, if it moves,
    friction and spin have been applied: the state the zero snap sees. *)
Definition before_snap (b : Ball) (delta_time : R) : Ball :=
  let b := set_center_x b (center_x b + change_x b) in
  let b := set_center_y b (center_y b + change_y b) in
  let speed := sqrt (change_x b ^ 2 + change_y b ^ 2) in
  if Rgtb speed 0
  then apply_spin (apply_friction b speed) delta_time
  else b.

(** The cue ball of the specification's wall scenario. *)
Definition cue_shot : Ball := ball_at 300 350 10 0 0.


(** A ball creeping at [0.079] right after a shot of full power put spin
    [2.5] on it. *)
Definition slow_spinner : Ball := ball_at 300 350 0.079 0 2.5.

(** A ball of speed [0.09] whose components are both below [0.08]. *)
Definition slow_diagonal : Ball := ball_at 300 350 0.054 0.072 (-2.5).

Definition inside_x (b : Ball) : Prop :=
  left_bound <= left b /\ right b <= right_bound.

Definition inside_y (b : Ball) : Prop :=
  bottom_bound <= bottom b /\ top b <= top_bound.

Definition inside_table (b : Ball) : Prop := inside_x b /\ inside_y b.

Definition crosses_wall (b : Ball) : Prop :=
  left b < left_bound \/ right b > right_bound \/
  bottom b < bottom_bound \/ top b > top_bound.

Definition x_untouched (b b' : Ball) : Prop :=
  center_x b' = center_x b /\ change_x b' = change_x b.

Definition y_untouched (b b' : Ball) : Prop :=
  center_y b' = center_y b /\ change_y b' = change_y b.

(** A ball pushed into the lower left corner, drifting right and down. *)
Definition corner_ball : Ball := ball_at 70 70 3 (-4) 0.

(** A ball that has run into the left cushion. *)
Definition cushion_ball : Ball := ball_at 70 350 (-3) 0 0.


(** A ball lying still on the centre of the first pocket, and one lying
    [POCKET_RADIUS + 1] to the right of it. *)
Definition ball_on_pocket : Ball := ball_at 60 60 0 0 0.
Definition ball_off_pocket : Ball := ball_at 93 60 0 0 0.

(** ** Further quantities used in the statements *)

(** [speed_along_normal] of [resolve_ball_collision], as a function of the
    two balls. *)
Definition normal_speed (b1 b2 : Ball) : R :=
  let dx := center_x b2 - center_x b1 in
  let dy := center_y b2 - center_y b1 in
  let distance := sqrt (dx * dx + dy * dy) in
  (change_x b2 - change_x b1) * (dx / distance)
  + (change_y b2 - change_y b1) * (dy / distance).

(** The relative velocity across the line of centres. *)
Definition tangent_speed (b1 b2 : Ball) : R :=
  let dx := center_x b2 - center_x b1 in
  let dy := center_y b2 - center_y b1 in
  let distance := sqrt (dx * dx + dy * dy) in
  (change_x b2 - change_x b1) * (- (dy / distance))
  + (change_y b2 - change_y b1) * (dx / distance).

(** The body of the first loop of [GameView.on_update] for one ball:
    integrate, reflect off a cushion, and tell whether the ball still
    moves.  The sound and the sparks of a cushion hit are not modelled. *)
Definition step_ball (current_time : R) (ball : Ball) (delta_time : R)
  : Ball * bool :=
  let ball := update current_time ball delta_time in
  let ball := fst (check_wall_collision ball) in
  (ball, negb (Reqb (change_x ball) 0) || negb (Reqb (change_y ball) 0)).

(** A ball alone on the table over several frames; each frame comes with
    the time read by [update] and its [delta_time]. *)
Fixpoint run_ball (frames : list (R * R)) (ball : Ball) : Ball :=
  match frames with
  | [] => ball
  | (current_time, delta_time) :: rest =>
      run_ball rest (fst (step_ball current_time ball delta_time))
  end.

(** No spin drift can be added to this ball: its angular velocity, once
    damped, does not exceed [0.1]. *)
Definition spin_free (b : Ball) : Prop :=
  Rabs (angular_velocity b * ROTATIONAL_FRICTION) <= 0.1.

(** ** The game around the physics *)

From Stdlib Require Import ZArith Lia.

Definition MAX_POWER : R := 25.
Definition MIN_POWER : R := 3.
Definition MAX_SCORE : Z := 15.
Definition TIME_LIMIT : R := 300.
Definition TURN_TIME_LIMIT : R := 30.

Inductive GameState : Type :=
  MENU | PLAYING | PAUSED | GAME_OVER | AIMING | BALLS_MOVING.

Inductive BallType : Type := CUE | SOLID | STRIPE | EIGHT | SPECIAL.

Inductive GameMode : Type := PRACTICE | TIMED | TURN_BASED | CHALLENGE.

(** The values of the three [Enum] classes; members are compared through
    them. *)
Definition GameState_value (s : GameState) : Z :=
  match s with
  | MENU => 1 | PLAYING => 2 | PAUSED => 3
  | GAME_OVER => 4 | AIMING => 5 | BALLS_MOVING => 6
  end.

Definition BallType_value (t : BallType) : Z :=
  match t with
  | CUE => 1 | SOLID => 2 | STRIPE => 3 | EIGHT => 4 | SPECIAL => 5
  end.

Definition GameMode_value (m : GameMode) : Z :=
  match m with
  | PRACTICE => 1 | TIMED => 2 | TURN_BASED => 3 | CHALLENGE => 4
  end.

Definition GameState_eqb (a b : GameState) : bool :=
  Z.eqb (GameState_value a) (GameState_value b).

Definition BallType_eqb (a b : BallType) : bool :=
  Z.eqb (BallType_value a) (BallType_value b).

Definition GameMode_eqb (a b : GameMode) : bool :=
  Z.eqb (GameMode_value a) (GameMode_value b).

(** [int(x)] for a float [x]: truncation towards zero. *)
Definition py_int (x : R) : Z :=
  if Rle_dec 0 x then Int_part x else (- Int_part (- x))%Z.

(** [math.atan2(y, x)]. *)
Definition atan2 (y x : R) : R :=
  if Rltb 0 x then atan (y / x)
  else if Rltb x 0 then
    (if Rltb y 0 then atan (y / x) - PI else atan (y / x) + PI)
  else if Rltb 0 y then PI / 2
  else if Rltb y 0 then - (PI / 2)
  else 0.

Definition set_in_pocket (b : Ball) (p : bool) : Ball :=
  mkBall (center_x b) (center_y b) (change_x b) (change_y b)
         (angular_velocity b) (rotation b) (mass b) p (trail b)
         (highlight b) (highlight_time b) (last_update_time b).

(** [Ball.apply_force]; [u] is the value of [random.uniform(-1, 1)]. *)
Definition apply_force (b : Ball) (dx dy power u : R) : Ball :=
  let angle := atan2 dy dx in
  let b := set_change_x b (cos angle * power) in
  let b := set_change_y b (sin angle * power) in
  set_angular_velocity b (power * 0.1 * u).

(** A [Ball] object as the game holds it: the attributes of the physics
    ([body]) and those set once in [Ball.__init__] or by the game. *)
Record BallObj : Type := mkBallObj
  { body : Ball;
    ball_type : BallType;
    number : Z;
    initial_x : R;
    initial_y : R;
    pocket_time : R }.

Definition set_body (o : BallObj) (b : Ball) : BallObj :=
  mkBallObj b (ball_type o) (number o) (initial_x o) (initial_y o)
            (pocket_time o).

Definition set_pocket_time (o : BallObj) (t : R) : BallObj :=
  mkBallObj (body o) (ball_type o) (number o) (initial_x o) (initial_y o) t.

(** [Ball.reset] *)
Definition reset (o : BallObj) : BallObj :=
  let b := body o in
  let b := set_center_x b (initial_x o) in
  let b := set_center_y b (initial_y o) in
  let b := set_change_x b 0 in
  let b := set_change_y b 0 in
  let b := set_angular_velocity b 0 in
  let b := set_in_pocket b false in
  let b := set_trail b [] in
  set_body o b.

(** What [show_results_screen] hands to the [ResultsView] it shows. *)
Record ResultsView : Type := mkResultsView
  { rv_score : Z;
    rv_high_score : Z;
    rv_victory : bool;
    rv_game_mode : GameMode;
    rv_accuracy : R;
    rv_max_combo : Z }.

(** The attributes of [GameView] the game logic reads or writes.  The
    [Ball] objects live in [objects], addressed by an identifier;
    [balls] is the sprite list, [cue_ball] the reference to the cue
    ball.  [hit_sound] tells whether the hit sound could be loaded, and
    [results_shown] collects the result screens shown so far. *)
Record GameView : Type := mkGameView
  { game_state : GameState;
    game_mode : GameMode;
    objects : nat -> BallObj;
    balls : list nat;
    cue_ball : option nat;
    score : Z;
    high_score : Z;
    time_remaining : R;
    turn_time : R;
    current_turn : Z;
    balls_potted_this_turn : Z;
    combo : Z;
    max_combo : Z;
    shots_taken : Z;
    accuracy : R;
    aiming_power : R;
    show_volume_indicator : bool;
    hit_sound : bool;
    last_shot_time : R;
    consecutive_pots : Z;
    screen_shake : R;
    slow_motion : bool;
    slow_motion_time : R;
    results_shown : list ResultsView }.

Definition set_game_state (v : GameView) (x : GameState) : GameView :=
  mkGameView x (game_mode v) (objects v) (balls v) (cue_ball v) (score v)
    (high_score v) (time_remaining v) (turn_time v) (current_turn v)
    (balls_potted_this_turn v) (combo v) (max_combo v) (shots_taken v)
    (accuracy v) (aiming_power v) (show_volume_indicator v) (hit_sound v)
    (last_shot_time v) (consecutive_pots v) (screen_shake v) (slow_motion v)
    (slow_motion_time v) (results_shown v).

Definition set_game_mode (v : GameView) (x : GameMode) : GameView :=
  mkGameView (game_state v) x (objects v) (balls v) (cue_ball v) (score v)
    (high_score v) (time_remaining v) (turn_time v) (current_turn v)
    (balls_potted_this_turn v) (combo v) (max_combo v) (shots_taken v)
    (accuracy v) (aiming_power v) (show_volume_indicator v) (hit_sound v)
    (last_shot_time v) (consecutive_pots v) (screen_shake v) (slow_motion v)
    (slow_motion_time v) (results_shown v).

Definition set_objects (v : GameView) (x : nat -> BallObj) : GameView :=
  mkGameView (game_state v) (game_mode v) x (balls v) (cue_ball v) (score v)
    (high_score v) (time_remaining v) (turn_time v) (current_turn v)
    (balls_potted_this_turn v) (combo v) (max_combo v) (shots_taken v)
    (accuracy v) (aiming_power v) (show_volume_indicator v) (hit_sound v)
    (last_shot_time v) (consecutive_pots v) (screen_shake v) (slow_motion v)
    (slow_motion_time v) (results_shown v).

Definition set_balls (v : GameView) (x : list nat) : GameView :=
  mkGameView (game_state v) (game_mode v) (objects v) x (cue_ball v)
    (score v) (high_score v) (time_remaining v) (turn_time v)
    (current_turn v) (balls_potted_this_turn v) (combo v) (max_combo v)
    (shots_taken v) (accuracy v) (aiming_power v) (show_volume_indicator v)
    (hit_sound v) (last_shot_time v) (consecutive_pots v) (screen_shake v)
    (slow_motion v) (slow_motion_time v) (results_shown v).

Definition set_cue_ball (v : GameView) (x : option nat) : GameView :=
  mkGameView (game_state v) (game_mode v) (objects v) (balls v) x (score v)
    (high_score v) (time_remaining v) (turn_time v) (current_turn v)
    (balls_potted_this_turn v) (combo v) (max_combo v) (shots_taken v)
    (accuracy v) (aiming_power v) (show_volume_indicator v) (hit_sound v)
    (last_shot_time v) (consecutive_pots v) (screen_shake v) (slow_motion v)
    (slow_motion_time v) (results_shown v).

Definition set_score (v : GameView) (x : Z) : GameView :=
  mkGameView (game_state v) (game_mode v) (objects v) (balls v) (cue_ball v)
    x (high_score v) (time_remaining v) (turn_time v) (current_turn v)
    (balls_potted_this_turn v) (combo v) (max_combo v) (shots_taken v)
    (accuracy v) (aiming_power v) (show_volume_indicator v) (hit_sound v)
    (last_shot_time v) (consecutive_pots v) (screen_shake v) (slow_motion v)
    (slow_motion_time v) (results_shown v).

Definition set_high_score (v : GameView) (x : Z) : GameView :=
  mkGameView (game_state v) (game_mode v) (objects v) (balls v) (cue_ball v)
    (score v) x (time_remaining v) (turn_time v) (current_turn v)
    (balls_potted_this_turn v) (combo v) (max_combo v) (shots_taken v)
    (accuracy v) (aiming_power v) (show_volume_indicator v) (hit_sound v)
    (last_shot_time v) (consecutive_pots v) (screen_shake v) (slow_motion v)
    (slow_motion_time v) (results_shown v).

Definition set_time_remaining (v : GameView) (x : R) : GameView :=
  mkGameView (game_state v) (game_mode v) (objects v) (balls v) (cue_ball v)
    (score v) (high_score v) x (turn_time v) (current_turn v)
    (balls_potted_this_turn v) (combo v) (max_combo v) (shots_taken v)
    (accuracy v) (aiming_power v) (show_volume_indicator v) (hit_sound v)
    (last_shot_time v) (consecutive_pots v) (screen_shake v) (slow_motion v)
    (slow_motion_time v) (results_shown v).

Definition set_turn_time (v : GameView) (x : R) : GameView :=
  mkGameView (game_state v) (game_mode v) (objects v) (balls v) (cue_ball v)
    (score v) (high_score v) (time_remaining v) x (current_turn v)
    (balls_potted_this_turn v) (combo v) (max_combo v) (shots_taken v)
    (accuracy v) (aiming_power v) (show_volume_indicator v) (hit_sound v)
    (last_shot_time v) (consecutive_pots v) (screen_shake v) (slow_motion v)
    (slow_motion_time v) (results_shown v).

Definition set_current_turn (v : GameView) (x : Z) : GameView :=
  mkGameView (game_state v) (game_mode v) (objects v) (balls v) (cue_ball v)
    (score v) (high_score v) (time_remaining v) (turn_time v) x
    (balls_potted_this_turn v) (combo v) (max_combo v) (shots_taken v)
    (accuracy v) (aiming_power v) (show_volume_indicator v) (hit_sound v)
    (last_shot_time v) (consecutive_pots v) (screen_shake v) (slow_motion v)
    (slow_motion_time v) (results_shown v).

Definition set_balls_potted_this_turn (v : GameView) (x : Z) : GameView :=
  mkGameView (game_state v) (game_mode v) (objects v) (balls v) (cue_ball v)
    (score v) (high_score v) (time_remaining v) (turn_time v)
    (current_turn v) x (combo v) (max_combo v) (shots_taken v) (accuracy v)
    (aiming_power v) (show_volume_indicator v) (hit_sound v)
    (last_shot_time v) (consecutive_pots v) (screen_shake v) (slow_motion v)
    (slow_motion_time v) (results_shown v).

Definition set_combo (v : GameView) (x : Z) : GameView :=
  mkGameView (game_state v) (game_mode v) (objects v) (balls v) (cue_ball v)
    (score v) (high_score v) (time_remaining v) (turn_time v)
    (current_turn v) (balls_potted_this_turn v) x (max_combo v)
    (shots_taken v) (accuracy v) (aiming_power v) (show_volume_indicator v)
    (hit_sound v) (last_shot_time v) (consecutive_pots v) (screen_shake v)
    (slow_motion v) (slow_motion_time v) (results_shown v).

Definition set_max_combo (v : GameView) (x : Z) : GameView :=
  mkGameView (game_state v) (game_mode v) (objects v) (balls v) (cue_ball v)
    (score v) (high_score v) (time_remaining v) (turn_time v)
    (current_turn v) (balls_potted_this_turn v) (combo v) x (shots_taken v)
    (accuracy v) (aiming_power v) (show_volume_indicator v) (hit_sound v)
    (last_shot_time v) (consecutive_pots v) (screen_shake v) (slow_motion v)
    (slow_motion_time v) (results_shown v).

Definition set_shots_taken (v : GameView) (x : Z) : GameView :=
  mkGameView (game_state v) (game_mode v) (objects v) (balls v) (cue_ball v)
    (score v) (high_score v) (time_remaining v) (turn_time v)
    (current_turn v) (balls_potted_this_turn v) (combo v) (max_combo v) x
    (accuracy v) (aiming_power v) (show_volume_indicator v) (hit_sound v)
    (last_shot_time v) (consecutive_pots v) (screen_shake v) (slow_motion v)
    (slow_motion_time v) (results_shown v).

Definition set_accuracy (v : GameView) (x : R) : GameView :=
  mkGameView (game_state v) (game_mode v) (objects v) (balls v) (cue_ball v)
    (score v) (high_score v) (time_remaining v) (turn_time v)
    (current_turn v) (balls_potted_this_turn v) (combo v) (max_combo v)
    (shots_taken v) x (aiming_power v) (show_volume_indicator v)
    (hit_sound v) (last_shot_time v) (consecutive_pots v) (screen_shake v)
    (slow_motion v) (slow_motion_time v) (results_shown v).

Definition set_aiming_power (v : GameView) (x : R) : GameView :=
  mkGameView (game_state v) (game_mode v) (objects v) (balls v) (cue_ball v)
    (score v) (high_score v) (time_remaining v) (turn_time v)
    (current_turn v) (balls_potted_this_turn v) (combo v) (max_combo v)
    (shots_taken v) (accuracy v) x (show_volume_indicator v) (hit_sound v)
    (last_shot_time v) (consecutive_pots v) (screen_shake v) (slow_motion v)
    (slow_motion_time v) (results_shown v).

Definition set_show_volume_indicator (v : GameView) (x : bool) : GameView :=
  mkGameView (game_state v) (game_mode v) (objects v) (balls v) (cue_ball v)
    (score v) (high_score v) (time_remaining v) (turn_time v)
    (current_turn v) (balls_potted_this_turn v) (combo v) (max_combo v)
    (shots_taken v) (accuracy v) (aiming_power v) x (hit_sound v)
    (last_shot_time v) (consecutive_pots v) (screen_shake v) (slow_motion v)
    (slow_motion_time v) (results_shown v).

Definition set_hit_sound (v : GameView) (x : bool) : GameView :=
  mkGameView (game_state v) (game_mode v) (objects v) (balls v) (cue_ball v)
    (score v) (high_score v) (time_remaining v) (turn_time v)
    (current_turn v) (balls_potted_this_turn v) (combo v) (max_combo v)
    (shots_taken v) (accuracy v) (aiming_power v) (show_volume_indicator v)
    x (last_shot_time v) (consecutive_pots v) (screen_shake v)
    (slow_motion v) (slow_motion_time v) (results_shown v).

Definition set_last_shot_time (v : GameView) (x : R) : GameView :=
  mkGameView (game_state v) (game_mode v) (objects v) (balls v) (cue_ball v)
    (score v) (high_score v) (time_remaining v) (turn_time v)
    (current_turn v) (balls_potted_this_turn v) (combo v) (max_combo v)
    (shots_taken v) (accuracy v) (aiming_power v) (show_volume_indicator v)
    (hit_sound v) x (consecutive_pots v) (screen_shake v) (slow_motion v)
    (slow_motion_time v) (results_shown v).

Definition set_consecutive_pots (v : GameView) (x : Z) : GameView :=
  mkGameView (game_state v) (game_mode v) (objects v) (balls v) (cue_ball v)
    (score v) (high_score v) (time_remaining v) (turn_time v)
    (current_turn v) (balls_potted_this_turn v) (combo v) (max_combo v)
    (shots_taken v) (accuracy v) (aiming_power v) (show_volume_indicator v)
    (hit_sound v) (last_shot_time v) x (screen_shake v) (slow_motion v)
    (slow_motion_time v) (results_shown v).

Definition set_screen_shake (v : GameView) (x : R) : GameView :=
  mkGameView (game_state v) (game_mode v) (objects v) (balls v) (cue_ball v)
    (score v) (high_score v) (time_remaining v) (turn_time v)
    (current_turn v) (balls_potted_this_turn v) (combo v) (max_combo v)
    (shots_taken v) (accuracy v) (aiming_power v) (show_volume_indicator v)
    (hit_sound v) (last_shot_time v) (consecutive_pots v) x (slow_motion v)
    (slow_motion_time v) (results_shown v).

Definition set_slow_motion (v : GameView) (x : bool) : GameView :=
  mkGameView (game_state v) (game_mode v) (objects v) (balls v) (cue_ball v)
    (score v) (high_score v) (time_remaining v) (turn_time v)
    (current_turn v) (balls_potted_this_turn v) (combo v) (max_combo v)
    (shots_taken v) (accuracy v) (aiming_power v) (show_volume_indicator v)
    (hit_sound v) (last_shot_time v) (consecutive_pots v) (screen_shake v) x
    (slow_motion_time v) (results_shown v).

Definition set_slow_motion_time (v : GameView) (x : R) : GameView :=
  mkGameView (game_state v) (game_mode v) (objects v) (balls v) (cue_ball v)
    (score v) (high_score v) (time_remaining v) (turn_time v)
    (current_turn v) (balls_potted_this_turn v) (combo v) (max_combo v)
    (shots_taken v) (accuracy v) (aiming_power v) (show_volume_indicator v)
    (hit_sound v) (last_shot_time v) (consecutive_pots v) (screen_shake v)
    (slow_motion v) x (results_shown v).

Definition set_results_shown (v : GameView) (x : list ResultsView) : GameView :=
  mkGameView (game_state v) (game_mode v) (objects v) (balls v) (cue_ball v)
    (score v) (high_score v) (time_remaining v) (turn_time v)
    (current_turn v) (balls_potted_this_turn v) (combo v) (max_combo v)
    (shots_taken v) (accuracy v) (aiming_power v) (show_volume_indicator v)
    (hit_sound v) (last_shot_time v) (consecutive_pots v) (screen_shake v)
    (slow_motion v) (slow_motion_time v) x.

(** Assignment to the attributes of one [Ball] object. *)
Definition store_set (objs : nat -> BallObj) (i : nat) (o : BallObj)
  : nat -> BallObj :=
  fun j => if Nat.eqb j i then o else objs j.

Definition set_ball (v : GameView) (i : nat) (b : Ball) : GameView :=
  set_objects v (store_set (objects v) i (set_body (objects v i) b)).

Definition ball_of (v : GameView) (i : nat) : Ball := body (objects v i).

(** [GameView.adjust_power] *)
Definition adjust_power (v : GameView) (x y : R) : GameView :=
  match cue_ball v with
  | None => v
  | Some c =>
      let max_distance := 300 in
      let distance :=
        Rmin (sqrt ((x - center_x (ball_of v c)) ^ 2
                    + (y - center_y (ball_of v c)) ^ 2))
             max_distance in
      set_aiming_power v (distance / max_distance)
  end.

(** What [GameView.draw_aiming_interface] writes: the aiming power, from
    the distance of the mouse to the cue ball, at least 1 and capped at
    200.  [mouse_x], [mouse_y] are the mouse position the window holds.
    The drawing is not modelled; the method is only called with a cue
    ball. *)
Definition draw_aiming_interface (v : GameView) (mouse_x mouse_y : R)
  : GameView :=
  match cue_ball v with
  | None => v
  | Some c =>
      let dx := mouse_x - center_x (ball_of v c) in
      let dy := mouse_y - center_y (ball_of v c) in
      let distance := Rmax (sqrt (dx * dx + dy * dy)) 1 in
      let max_distance := 200 in
      let distance :=
        if Rgtb distance max_distance then max_distance else distance in
      set_aiming_power v (Rmin (distance / 100) 1.0)
  end.

(** What [GameView.on_draw] does to the aiming power: every frame drawn
    in the state [AIMING] with a cue ball calls
    [draw_aiming_interface].  The drawing and the fading of the volume
    indicator are not modelled. *)
Definition on_draw (v : GameView) (mouse_x mouse_y : R) : GameView :=
  if GameState_eqb (game_state v) AIMING then
    match cue_ball v with
    | Some _ => draw_aiming_interface v mouse_x mouse_y
    | None => v
    end
  else v.

(** [GameView.take_shot]; [now] is the value of [time.time()] and [u]
    that of [random.uniform(-1, 1)] in [apply_force].  The particles and
    the sound of the hit are not modelled. *)
Definition take_shot (v : GameView) (target_x target_y now u : R)
  : GameView :=
  match cue_ball v with
  | None => v
  | Some c =>
      if in_pocket (ball_of v c) then v
      else
        let dx := target_x - center_x (ball_of v c) in
        let dy := target_y - center_y (ball_of v c) in
        let distance := sqrt (dx * dx + dy * dy) in
        if Reqb distance 0 then v
        else
          let power := Rmin (aiming_power v * MAX_POWER) MAX_POWER in
          let power := Rmax power MIN_POWER in
          let v := set_ball v c (apply_force (ball_of v c) dx dy power u) in
          let v := set_last_shot_time v now in
          set_game_state v BALLS_MOVING
  end.

(** [GameView.reset_shot]; [SCREEN_HEIGHT // 2] is [350]. *)
Definition reset_shot (v : GameView) : GameView :=
  match cue_ball v with
  | None => v
  | Some c =>
      if GameState_eqb (game_state v) AIMING then
        let v := set_ball v c (set_center_x (ball_of v c) 300) in
        let v := set_ball v c (set_center_y (ball_of v c) 350) in
        let v := set_ball v c (set_change_x (ball_of v c) 0) in
        set_ball v c (set_change_y (ball_of v c) 0)
      else v
  end.

(** [GameView.toggle_pause] *)
Definition toggle_pause (v : GameView) : GameView :=
  if GameState_eqb (game_state v) PAUSED
  then set_game_state v AIMING
  else set_game_state v PAUSED.

(** [GameView.end_turn] *)
Definition end_turn (v : GameView) : GameView :=
  let v := set_current_turn v (current_turn v + 1)%Z in
  let v := set_balls_potted_this_turn v 0%Z in
  let v := set_turn_time v TURN_TIME_LIMIT in
  let v := set_combo v 0%Z in
  match cue_ball v with
  | None => v
  | Some c =>
      if in_pocket (ball_of v c)
      then set_objects v (store_set (objects v) c (reset (objects v c)))
      else v
  end.

(** [GameView.game_over] with [show_results_screen]; the victory sound is
    not modelled. *)
Definition game_over (v : GameView) (victory : bool) : GameView :=
  let v := set_game_state v GAME_OVER in
  let v := if Z.ltb (high_score v) (score v)
           then set_high_score v (score v) else v in
  set_results_shown v
    (results_shown v ++
       [mkResultsView (score v) (high_score v) victory (game_mode v)
                      (accuracy v) (max_combo v)]).

(** [GameView.on_balls_stopped] *)
Definition on_balls_stopped (v : GameView) : GameView :=
  let v := set_shots_taken v (shots_taken v + 1)%Z in
  let v := if Z.ltb 0 (shots_taken v) then
             let successful_shots := shots_taken v in
             set_accuracy v
               (IZR successful_shots / IZR (shots_taken v) * 100)
           else v in
  let v := if Z.eqb (consecutive_pots v) 0
           then set_combo v 0%Z else v in
  set_consecutive_pots v 0%Z.

(** [GameView.check_win_conditions] *)
Definition balls_remaining (v : GameView) : nat :=
  length (filter (fun i => negb (in_pocket (ball_of v i))
                           && negb (BallType_eqb (ball_type (objects v i)) CUE))
                 (balls v)).

Definition check_win_conditions (v : GameView) : GameView :=
  let v := if GameMode_eqb (game_mode v) TIMED
              && negb (Rltb 0 (time_remaining v))
           then game_over v false else v in
  let remaining := balls_remaining v in
  let v := if Nat.eqb remaining 0 then game_over v true else v in
  if Z.leb (MAX_SCORE * 1000) (score v) then game_over v true else v.

(** [GameView.on_ball_potted], in three parts.  First the ball is flagged
    and the slow motion starts; [now] is the value of [time.time()]. *)
Definition mark_potted (v : GameView) (ball : nat) (now : R) : GameView :=
  let v := set_ball v ball (set_in_pocket (ball_of v ball) true) in
  let v := set_objects v
             (store_set (objects v) ball
                (set_pocket_time (objects v ball) now)) in
  let v := set_slow_motion v true in
  set_slow_motion_time v 1.0.

(** The branch of the cue ball; [SCREEN_HEIGHT // 2] is [350]. *)
Definition respawn_cue (v : GameView) (ball : nat) : GameView :=
  let v := set_ball v ball (set_center_x (ball_of v ball) 300) in
  let v := set_ball v ball (set_center_y (ball_of v ball) 350) in
  let v := set_ball v ball (set_change_x (ball_of v ball) 0) in
  let v := set_ball v ball (set_change_y (ball_of v ball) 0) in
  let v := set_ball v ball (set_in_pocket (ball_of v ball) false) in
  let v := set_combo v 0%Z in
  if GameMode_eqb (game_mode v) TURN_BASED then end_turn v else v.

(** The branch of every other ball. *)
Definition score_ball (v : GameView) (ball : nat) : GameView :=
  let base_points := 100%Z in
  let '(bonus_points, v) :=
    if BallType_eqb (ball_type (objects v ball)) EIGHT then
      (500%Z,
       if GameMode_eqb (game_mode v) TURN_BASED
       then game_over v true else v)
    else if BallType_eqb (ball_type (objects v ball)) SPECIAL then
      (300%Z, v)
    else if Z.eqb (number (objects v ball)) 7
            || Z.eqb (number (objects v ball)) 15 then
      (150%Z, v)
    else (0%Z, v) in
  let combo_multiplier := 1 + IZR (combo v) * 0.2 in
  let points :=
    py_int (IZR (base_points + bonus_points) * combo_multiplier) in
  let v := set_score v (score v + points)%Z in
  let v := set_combo v (combo v + 1)%Z in
  let v := set_max_combo v (Z.max (max_combo v) (combo v)) in
  let v := set_balls_potted_this_turn v
             (balls_potted_this_turn v + 1)%Z in
  let v := set_consecutive_pots v (consecutive_pots v + 1)%Z in
  let v := set_balls v
             (filter (fun i => negb (Nat.eqb i ball)) (balls v)) in
  if Z.leb 3 (combo v)
  then set_screen_shake v (Rmin 15.0 (IZR (combo v * 2)))
  else v.

(** [ball] is the ball object potted.  The sound, the particles and the
    score popup are not modelled. *)
Definition on_ball_potted (v : GameView) (ball : nat)
    (pocket_x pocket_y now : R) : GameView :=
  let v := mark_potted v ball now in
  if BallType_eqb (ball_type (objects v ball)) CUE
  then respawn_cue v ball
  else score_ball v ball.

(** [GameView.check_pocket_collisions]: the loop runs over a copy of the
    sprite list, here [snapshot]; [clock ball] is the value of
    [time.time()] read when [ball] is potted. *)
Fixpoint pot_balls (snapshot : list nat) (v : GameView) (clock : nat -> R)
  : GameView :=
  match snapshot with
  | [] => v
  | ball :: rest =>
      match check_pocket (ball_of v ball) pocket_locations with
      | Some (px, py) =>
          pot_balls rest (on_ball_potted v ball px py (clock ball)) clock
      | None => pot_balls rest v clock
      end
  end.

Definition view_check_pocket_collisions (v : GameView) (clock : nat -> R)
  : GameView :=
  pot_balls (balls v) v clock.

(** The first loop of [GameView.on_update]: every ball of the sprite list
    is stepped; the result tells whether some ball still moves. *)
Fixpoint update_balls (ids : list nat) (v : GameView) (clock : nat -> R)
    (delta_time : R) (balls_moving : bool) : GameView * bool :=
  match ids with
  | [] => (v, balls_moving)
  | ball :: rest =>
      let '(b, moving) := step_ball (clock ball) (ball_of v ball) delta_time in
      update_balls rest (set_ball v ball b) clock delta_time
                   (balls_moving || moving)
  end.

(** The body of the double loop over pairs; [None] is the exception
    [resolve_ball_collision] can raise.  The hit sound and the sparks are
    not modelled, the screen shake they come with is. *)
Definition collide_pair (v : GameView) (i j : nat) : option GameView :=
  let ball1 := ball_of v i in
  let ball2 := ball_of v j in
  if in_pocket ball1 || in_pocket ball2 then Some v
  else
    let dx := center_x ball2 - center_x ball1 in
    let dy := center_y ball2 - center_y ball1 in
    let distance := sqrt (dx * dx + dy * dy) in
    if Rltb distance (BALL_RADIUS * 2.1) then
      match resolve_ball_collision ball1 ball2 with
      | None => None
      | Some (ball1, ball2) =>
          let v := set_ball v i ball1 in
          let v := set_ball v j ball2 in
          let relative_speed :=
            Rabs (change_x ball1 - change_x ball2)
            + Rabs (change_y ball1 - change_y ball2) in
          if Rgtb relative_speed 1.0 && hit_sound v then
            if Rgtb relative_speed 3.0 then
              if Rgtb relative_speed 8.0
              then Some (set_screen_shake v (Rmin 10.0 (relative_speed * 0.8)))
              else Some v
            else Some v
          else Some v
      end
    else Some v.

(** [for j in range(i + 1, len(balls_list))] *)
Fixpoint collide_with (i : nat) (js : list nat) (v : GameView)
  : option GameView :=
  match js with
  | [] => Some v
  | j :: rest =>
      match collide_pair v i j with
      | None => None
      | Some v => collide_with i rest v
      end
  end.

(** [for i in range(len(balls_list))] *)
Fixpoint collide_all (balls_list : list nat) (v : GameView)
  : option GameView :=
  match balls_list with
  | [] => Some v
  | i :: rest =>
      match collide_with i rest v with
      | None => None
      | Some v => collide_all rest v
      end
  end.

(** [GameView.on_update], in parts.  First the timers: the clock of the
    timed mode, the slow motion, which scales [delta_time] for the rest
    of the frame, and the turn clock. *)
Definition run_timers (v : GameView) (delta_time : R) : GameView * R :=
  let v :=
    if GameMode_eqb (game_mode v) TIMED
       && negb (GameState_eqb (game_state v) PAUSED)
    then
      let v := set_time_remaining v (time_remaining v - delta_time) in
      if negb (Rltb 0 (time_remaining v))
      then game_over (set_time_remaining v 0) false
      else v
    else v in
  let '(v, delta_time) :=
    if slow_motion v then
      let delta_time := delta_time * 0.3 in
      let v := set_slow_motion_time v (slow_motion_time v - delta_time) in
      (if negb (Rltb 0 (slow_motion_time v))
       then set_slow_motion v false else v,
       delta_time)
    else (v, delta_time) in
  let v :=
    if GameMode_eqb (game_mode v) TURN_BASED
       && GameState_eqb (game_state v) AIMING
    then
      let v := set_turn_time v (turn_time v - delta_time) in
      if negb (Rltb 0 (turn_time v)) then end_turn v else v
    else v in
  (v, delta_time).

Definition decay_screen_shake (v : GameView) : GameView :=
  if Rgtb (screen_shake v) 0 then
    let v := set_screen_shake v (screen_shake v * 0.9) in
    if Rltb (screen_shake v) 0.1 then set_screen_shake v 0 else v
  else v.

(** The two-state machine at the end of the frame. *)
Definition settle_state (v : GameView) (balls_moving : bool) : GameView :=
  if balls_moving then set_game_state v BALLS_MOVING
  else
    let v := if GameState_eqb (game_state v) BALLS_MOVING
             then on_balls_stopped v else v in
    set_game_state v AIMING.

(** [clock] gives the time read when a ball is updated, [pot_clock] the
    time read when it is potted; [None] is an exception raised by
    [resolve_ball_collision].  The particle system is not modelled. *)
Definition on_update (v : GameView) (delta_time : R)
    (clock pot_clock : nat -> R) : option GameView :=
  if GameState_eqb (game_state v) PAUSED then Some v
  else
    let '(v, delta_time) := run_timers v delta_time in
    let '(v, balls_moving) :=
      update_balls (balls v) v clock delta_time false in
    match collide_all (balls v) v with
    | None => None
    | Some v =>
        let v := decay_screen_shake v in
        let v := view_check_pocket_collisions v pot_clock in
        let v := settle_state v balls_moving in
        Some (check_win_conditions v)
    end.

(** The sum of a quantity over the balls of a list. *)
Definition sum_over (f : Ball -> R) (v : GameView) (ids : list nat) : R :=
  fold_right Rplus 0 (map (fun i => f (ball_of v i)) ids).

Definition momentum_x_of (b : Ball) : R := mass b * change_x b.
Definition momentum_y_of (b : Ball) : R := mass b * change_y b.

Definition sum_list (g : nat -> R) (ids : list nat) : R :=
  fold_right Rplus 0 (map g ids).

(** What a pass over pairs of the balls [ids] keeps: the sprite list,
    every mass and pocket flag, every ball outside [ids], every ball
    flagged as potted, the total momentum of [ids]; and their total
    kinetic energy does not grow. *)
Definition pass_keeps (ids : list nat) (v v' : GameView) : Prop :=
  balls v' = balls v /\
  (forall k, mass (ball_of v' k) = mass (ball_of v k)) /\
  (forall k, in_pocket (ball_of v' k) = in_pocket (ball_of v k)) /\
  (forall k, ~ In k ids -> objects v' k = objects v k) /\
  (forall k, in_pocket (ball_of v k) = true -> objects v' k = objects v k) /\
  sum_over momentum_x_of v' ids = sum_over momentum_x_of v ids /\
  sum_over momentum_y_of v' ids = sum_over momentum_y_of v ids /\
  sum_over kinetic_energy v' ids <= sum_over kinetic_energy v ids.

(** A [GameView] with the scalar attributes of [GameView.__init__] (hit
    sound loaded), holding the given objects. *)
Definition fresh_view (objs : nat -> BallObj) (ids : list nat)
    (cue : option nat) : GameView :=
  mkGameView AIMING PRACTICE objs ids cue 0%Z 0%Z TIME_LIMIT
             TURN_TIME_LIMIT 1%Z 0%Z 0%Z 0%Z 0%Z 0.0 0.0 false true 0 0%Z
             0.0 false 0.0 [].

(** A small table: the cue ball [striker] (object 0) touching the solid
    ball [target] (object 1). *)
Definition two_balls : nat -> BallObj :=
  fun i =>
    match i with
    | O => mkBallObj striker CUE 0%Z 100 100 0
    | _ => mkBallObj target SOLID 1%Z 120 100 0
    end.

Definition small_table : GameView :=
  fresh_view two_balls [0%nat; 1%nat] (Some 0%nat).

(** The bonus [on_ball_potted] grants for a ball that is not the cue
    ball. *)
Definition bonus_of (o : BallObj) : Z :=
  if BallType_eqb (ball_type o) EIGHT then 500%Z
  else if BallType_eqb (ball_type o) SPECIAL then 300%Z
  else if Z.eqb (number o) 7 || Z.eqb (number o) 15 then 150%Z
  else 0%Z.

(** The attributes of [GameView] other than the objects, the timers and
    the visual effects. *)
Definition ledger (v : GameView) :=
  (game_state v, game_mode v, balls v, cue_ball v, score v, high_score v,
   combo v, max_combo v, consecutive_pots v, balls_potted_this_turn v,
   current_turn v, shots_taken v, results_shown v).

(** What is fixed when a [Ball] object is created. *)
Definition identity_of (o : BallObj) :=
  (ball_type o, number o, initial_x o, initial_y o).

(** What potting keeps: no ball joins the sprite list, no ball of type
    [CUE] leaves it, what was fixed at the creation of a ball stays, the
    cue ball reference stays, and neither the score nor the high score
    goes down. *)
Definition pot_keeps (v v' : GameView) : Prop :=
  incl (balls v') (balls v) /\
  (forall k, In k (balls v) -> ball_type (objects v k) = CUE ->
             In k (balls v')) /\
  (forall k, identity_of (objects v' k) = identity_of (objects v k)) /\
  cue_ball v' = cue_ball v /\
  (score v <= score v')%Z /\ (high_score v <= high_score v')%Z.

(** No ball of the sprite list is flagged as potted, and the combo is
    not negative. *)
Definition table_in_play (v : GameView) : Prop :=
  (forall k, In k (balls v) -> in_pocket (ball_of v k) = false) /\
  (0 <= combo v)%Z.

(** The small table in turn-based play, with the eight ball in place of
    the solid ball. *)
Definition eight_balls : nat -> BallObj :=
  fun i =>
    match i with
    | O => mkBallObj striker CUE 0%Z 100 100 0
    | _ => mkBallObj target EIGHT 8%Z 120 100 0
    end.

Definition eight_table : GameView :=
  set_game_mode (fresh_view eight_balls [0%nat; 1%nat] (Some 0%nat))
                TURN_BASED.

(** A table with a ball to pot: the cue ball [striker] (object 0), the
    solid ball 1 lying on the centre of the first pocket (object 1), and
    the solid ball 2 where [target] lies (object 2). *)
Definition pocket_balls : nat -> BallObj :=
  fun i =>
    match i with
    | 0%nat => mkBallObj striker CUE 0%Z 100 100 0
    | 1%nat => mkBallObj ball_on_pocket SOLID 1%Z 60 60 0
    | _ => mkBallObj target SOLID 2%Z 120 100 0
    end.

Definition pocket_table : GameView :=
  fresh_view pocket_balls [0%nat; 1%nat; 2%nat] (Some 0%nat).

Definition at_rest (b : Ball) : Prop := change_x b = 0 /\ change_y b = 0.


(** ** Setting up a game *)

(** [Ball(x, y, color, ball_type, number)]: a new sprite has no
    velocity; [now] is the value of [time.time()] in [Ball.__init__].
    The colour is not modelled. *)
Definition new_ball (x y : R) (t : BallType) (n : Z) (now : R) : BallObj :=
  mkBallObj (mkBall x y 0 0 0.0 0.0 1.0 false [] false 0.0 now) t n x y 0.0.

(** [self.balls.append(ball)] for a new [Ball] object, in a sprite list
    built from empty: the object takes the next identifier. *)
Definition append_ball (v : GameView) (o : BallObj) : GameView :=
  let i := length (balls v) in
  let v := set_objects v (store_set (objects v) i o) in
  set_balls v (balls v ++ [i]).

(** The body of the inner loop of [setup_pyramid]; [row / 2] is a true
    division. *)
Definition pyramid_ball (row col : nat) (ball_index : Z) (now : R)
  : BallObj :=
  let pyramid_x := SCREEN_WIDTH - 300 in
  let pyramid_y := 350 in
  let x := pyramid_x + INR row * 28 in
  let y := pyramid_y + (INR col - INR row / 2) * 28 in
  if Z.ltb ball_index 7
  then new_ball x y SOLID (ball_index + 1) now
  else new_ball x y STRIPE (ball_index + 2) now.

(** [for col in range(row + 1)], with its [break]. *)
Fixpoint pyramid_row (row : nat) (cols : list nat) (v : GameView)
    (ball_index : Z) (clock : nat -> R) : GameView * Z :=
  match cols with
  | [] => (v, ball_index)
  | col :: rest =>
      let ball := pyramid_ball row col ball_index
                    (clock (length (balls v))) in
      let v := append_ball v ball in
      let ball_index := (ball_index + 1)%Z in
      if Z.leb 14 ball_index then (v, ball_index)
      else pyramid_row row rest v ball_index clock
  end.

(** [for row in range(5)] *)
Fixpoint pyramid_rows (rows : list nat) (v : GameView) (ball_index : Z)
    (clock : nat -> R) : GameView :=
  match rows with
  | [] => v
  | row :: rest =>
      let '(v, ball_index) :=
        pyramid_row row (seq 0 (row + 1)) v ball_index clock in
      pyramid_rows rest v ball_index clock
  end.

(** [GameView.setup_pyramid] *)
Definition setup_pyramid (v : GameView) (clock : nat -> R) : GameView :=
  let eight_ball :=
    new_ball (SCREEN_WIDTH - 200) 350 EIGHT 8 (clock (length (balls v))) in
  let v := append_ball v eight_ball in
  pyramid_rows (seq 0 5) v 0%Z clock.

(** [GameView.setup]; [clock] gives [time.time()] at the creation of
    each ball.  The old [Ball] objects are dropped with the sprite
    list; [last_time_update] is not modelled. *)
Definition setup (v : GameView) (clock : nat -> R) : GameView :=
  let v := set_balls v [] in
  let v := set_score v 0%Z in
  let v := set_current_turn v 1%Z in
  let v := set_combo v 0%Z in
  let v := set_shots_taken v 0%Z in
  let v := set_balls_potted_this_turn v 0%Z in
  let v := set_time_remaining v TIME_LIMIT in
  let v := set_turn_time v TURN_TIME_LIMIT in
  let v := set_game_state v AIMING in
  let cue := length (balls v) in
  let v := append_ball v (new_ball 300 350 CUE 0 (clock cue)) in
  let v := set_cue_ball v (Some cue) in
  setup_pyramid v clock.

(** ** The mouse in the game *)

(** The buttons [on_mouse_press] tells apart. *)
Inductive MouseButton : Type :=
  MOUSE_BUTTON_LEFT | MOUSE_BUTTON_MIDDLE | MOUSE_BUTTON_RIGHT.

(** [GameView.on_mouse_press]; [now] and [u] are read by [take_shot]. *)
Definition on_mouse_press (v : GameView) (x y : R) (button : MouseButton)
    (now u : R) : GameView :=
  if negb (GameState_eqb (game_state v) AIMING)
     || GameState_eqb (game_state v) PAUSED
     || show_volume_indicator v
  then v
  else
    match button with
    | MOUSE_BUTTON_LEFT => take_shot v x y now u
    | MOUSE_BUTTON_RIGHT => adjust_power v x y
    | MOUSE_BUTTON_MIDDLE => v
    end.

(** ** The menus *)

(** The keys the menus tell apart; [OTHER_KEY] is any other key. *)
Inductive Key : Type := LEFT | RIGHT | UP | DOWN | ENTER | ESCAPE | OTHER_KEY.

(** The attributes of [MainMenu] its key handlers and the settings menu
    read or write.  [mm_music_player] is the volume of the music player,
    when there is one. *)
Record MainMenu : Type := mkMainMenu
  { selected_mode : Z;
    mm_music_volume : R;
    mm_sound_volume : R;
    mm_music_player : option R }.

Definition set_selected_mode (m : MainMenu) (x : Z) : MainMenu :=
  mkMainMenu x (mm_music_volume m) (mm_sound_volume m) (mm_music_player m).

(** The attributes of [SettingsMenu].  [main_menu] is the menu the
    settings were opened from; [returned] tells that
    [window.show_view(self.main_menu)] has been called. *)
Record SettingsMenu : Type := mkSettingsMenu
  { main_menu : MainMenu;
    selected_option : Z;
    music_volume : R;
    sound_volume : R;
    adjusting : bool;
    current_adjust : Z;
    returned : bool }.

Definition set_main_menu (s : SettingsMenu) (x : MainMenu) : SettingsMenu :=
  mkSettingsMenu x (selected_option s) (music_volume s) (sound_volume s)
                 (adjusting s) (current_adjust s) (returned s).

Definition set_selected_option (s : SettingsMenu) (x : Z) : SettingsMenu :=
  mkSettingsMenu (main_menu s) x (music_volume s) (sound_volume s)
                 (adjusting s) (current_adjust s) (returned s).

Definition set_music_volume (s : SettingsMenu) (x : R) : SettingsMenu :=
  mkSettingsMenu (main_menu s) (selected_option s) x (sound_volume s)
                 (adjusting s) (current_adjust s) (returned s).

Definition set_sound_volume (s : SettingsMenu) (x : R) : SettingsMenu :=
  mkSettingsMenu (main_menu s) (selected_option s) (music_volume s) x
                 (adjusting s) (current_adjust s) (returned s).

Definition set_adjusting (s : SettingsMenu) (x : bool) : SettingsMenu :=
  mkSettingsMenu (main_menu s) (selected_option s) (music_volume s)
                 (sound_volume s) x (current_adjust s) (returned s).

Definition set_current_adjust (s : SettingsMenu) (x : Z) : SettingsMenu :=
  mkSettingsMenu (main_menu s) (selected_option s) (music_volume s)
                 (sound_volume s) (adjusting s) x (returned s).

Definition set_returned (s : SettingsMenu) (x : bool) : SettingsMenu :=
  mkSettingsMenu (main_menu s) (selected_option s) (music_volume s)
                 (sound_volume s) (adjusting s) (current_adjust s) x.

(** [SettingsMenu.__init__] *)
Definition SettingsMenu_init (m : MainMenu) : SettingsMenu :=
  mkSettingsMenu m 0 (mm_music_volume m) (mm_sound_volume m) false 0 false.

(** The two assignments [self.main_menu.music_volume = self.music_volume],
    [self.main_menu.sound_volume = self.sound_volume]. *)
Definition store_volumes (s : SettingsMenu) : SettingsMenu :=
  let m := main_menu s in
  let m := mkMainMenu (selected_mode m) (music_volume s) (mm_sound_volume m)
                      (mm_music_player m) in
  let m := mkMainMenu (selected_mode m) (mm_music_volume m) (sound_volume s)
                      (mm_music_player m) in
  set_main_menu s m.

(** [SettingsMenu.return_to_menu] *)
Definition SettingsMenu_return_to_menu (s : SettingsMenu) : SettingsMenu :=
  set_returned (store_volumes s) true.

(** [SettingsMenu.on_key_press]; the menu has three options. *)
Definition SettingsMenu_on_key_press (s : SettingsMenu) (key : Key)
  : SettingsMenu :=
  if adjusting s then
    match key with
    | LEFT =>
        if Z.eqb (current_adjust s) 0
        then set_music_volume s (Rmax 0 (music_volume s - 0.05))
        else set_sound_volume s (Rmax 0 (sound_volume s - 0.05))
    | RIGHT =>
        if Z.eqb (current_adjust s) 0
        then set_music_volume s (Rmin 1 (music_volume s + 0.05))
        else set_sound_volume s (Rmin 1 (sound_volume s + 0.05))
    | ENTER =>
        let s := store_volumes s in
        let s :=
          match mm_music_player (main_menu s) with
          | Some _ =>
              let m := main_menu s in
              set_main_menu s
                (mkMainMenu (selected_mode m) (mm_music_volume m)
                            (mm_sound_volume m) (Some (music_volume s)))
          | None => s
          end in
        set_adjusting s false
    | ESCAPE =>
        let s := set_music_volume s (mm_music_volume (main_menu s)) in
        let s := set_sound_volume s (mm_sound_volume (main_menu s)) in
        set_adjusting s false
    | _ => s
    end
  else
    match key with
    | UP => set_selected_option s ((selected_option s - 1) mod 3)
    | DOWN => set_selected_option s ((selected_option s + 1) mod 3)
    | ENTER =>
        if Z.eqb (selected_option s) 2 then SettingsMenu_return_to_menu s
        else
          let s := set_adjusting s true in
          set_current_adjust s (selected_option s)
    | ESCAPE => SettingsMenu_return_to_menu s
    | _ => s
    end.

(** What [MainMenu.start_game] and [MainMenu.on_key_press] do to the
    window: nothing, leave the program, show the settings, or show a
    game. *)
Inductive Shown : Type :=
| Stay
| Exit
| ShowSettings (s : SettingsMenu)
| ShowGame (g : GameView).

(** [GameView()]: no ball yet; [sounds] tells whether the sounds could
    be loaded. *)
Definition GameView_init (sounds : bool) : GameView :=
  set_hit_sound
    (fresh_view (fun _ => new_ball 0 0 CUE 0 0) [] None) sounds.

(** [MainMenu.start_game]; [clock] is read at the creation of the
    balls.  The volumes handed to the game are not modelled. *)
Definition start_game (m : MainMenu) (sounds : bool) (clock : nat -> R)
  : Shown :=
  if Z.eqb (selected_mode m) 5 then Exit
  else if Z.eqb (selected_mode m) 4 then ShowSettings (SettingsMenu_init m)
  else
    let game_view := GameView_init sounds in
    let game_view :=
      if Z.eqb (selected_mode m) 0 then set_game_mode game_view PRACTICE
      else if Z.eqb (selected_mode m) 1 then
        set_time_remaining (set_game_mode game_view TIMED) TIME_LIMIT
      else if Z.eqb (selected_mode m) 2
      then set_game_mode game_view TURN_BASED
      else if Z.eqb (selected_mode m) 3
      then set_game_mode game_view CHALLENGE
      else game_view in
    ShowGame (setup game_view clock).

(** [MainMenu.on_key_press]; the menu has six options. *)
Definition MainMenu_on_key_press (m : MainMenu) (key : Key) (sounds : bool)
    (clock : nat -> R) : MainMenu * Shown :=
  match key with
  | UP => (set_selected_mode m ((selected_mode m - 1) mod 6), Stay)
  | DOWN => (set_selected_mode m ((selected_mode m + 1) mod 6), Stay)
  | ENTER => (m, start_game m sounds clock)
  | ESCAPE => (m, Exit)
  | _ => (m, Stay)
  end.

(** [MainMenu.on_mouse_press]: the loop over the six options, which
    stops at the first one hit; [start_y] is [SCREEN_HEIGHT // 2 + 50]
    and [SCREEN_WIDTH // 2] is [600]. *)
Fixpoint menu_click (options : list Z) (m : MainMenu) (x y : R)
    (sounds : bool) (clock : nat -> R) : MainMenu * Shown :=
  match options with
  | [] => (m, Stay)
  | i :: rest =>
      let start_y := 350 + 50 in
      let y_pos := start_y - IZR i * 50 in
      if Rltb (Rabs (x - 600)) 200 && Rltb (Rabs (y - y_pos)) 20 then
        let m := set_selected_mode m i in
        (m, start_game m sounds clock)
      else menu_click rest m x y sounds clock
  end.

Definition MainMenu_on_mouse_press (m : MainMenu) (x y : R) (sounds : bool)
    (clock : nat -> R) : MainMenu * Shown :=
  menu_click [0; 1; 2; 3; 4; 5]%Z m x y sounds clock.

(** ** The particles *)

From Stdlib Require String.

(** The particle type [update] tells apart from the others. *)
Module ParticleKind.
Import String.
Definition SPARK : string := "spark"%string.
End ParticleKind.

(** [Particle], without its colour. *)
Record Particle : Type := mkParticle
  { p_x : R;
    p_y : R;
    p_dx : R;
    p_dy : R;
    p_size : R;
    life : R;
    max_life : R;
    particle_type : String.string }.

Definition GRAVITY_EFFECT : R := 0.2.

(** The body of the loop of [ParticleSystem.update] for one particle:
    [None] when the particle is removed.  The particle removed by
    [self.particles.remove(particle)] is the one at hand: the particles
    kept before it have a positive life, so none of them equals it. *)
Definition update_particle (p : Particle) (delta_time : R)
  : option Particle :=
  let life' := life p - delta_time in
  if negb (Rltb 0 life') then None
  else
    let x := p_x p + p_dx p in
    let y := p_y p + p_dy p in
    let '(dx, dy) :=
      if String.eqb (particle_type p) ParticleKind.SPARK
      then (p_dx p * 0.95, p_dy p - GRAVITY_EFFECT * delta_time * 60)
      else (p_dx p, p_dy p) in
    Some (mkParticle x y dx dy (p_size p * 0.97) life' (max_life p)
                     (particle_type p)).

(** [ParticleSystem.update] on the list of particles. *)
Fixpoint ParticleSystem_update (particles : list Particle) (delta_time : R)
  : list Particle :=
  match particles with
  | [] => []
  | p :: rest =>
      match update_particle p delta_time with
      | None => ParticleSystem_update rest delta_time
      | Some p => p :: ParticleSystem_update rest delta_time
      end
  end.

(** The alpha channel [ParticleSystem.draw] gives a particle; [None] is
    a [ZeroDivisionError]. *)
Definition particle_alpha (p : Particle) : option Z :=
  if Reqb (max_life p) 0 then None
  else Some (py_int (255 * (life p / max_life p))).

(** Several calls of [ParticleSystem.update], one per frame. *)
Fixpoint run_particles (frames : list R) (particles : list Particle)
  : list Particle :=
  match frames with
  | [] => particles
  | delta_time :: rest =>
      run_particles rest (ParticleSystem_update particles delta_time)
  end.

(** ** Predicates used in the statements *)

Definition volumes_ok (music sound : R) : Prop :=
  0 <= music <= 1 /\ 0 <= sound <= 1.

(** The volumes of the settings menu and of the main menu behind it are
    between 0 and 1, the selection is one of the three options, and
    outside the adjusting mode the two menus agree on the volumes. *)
Definition settings_ok (s : SettingsMenu) : Prop :=
  volumes_ok (music_volume s) (sound_volume s) /\
  volumes_ok (mm_music_volume (main_menu s)) (mm_sound_volume (main_menu s)) /\
  (0 <= selected_option s < 3)%Z /\
  (adjusting s = false ->
   music_volume s = mm_music_volume (main_menu s) /\
   sound_volume s = mm_sound_volume (main_menu s)).

(** The keys pressed in a menu, in order. *)
Definition press_keys (s : SettingsMenu) (keys : list Key) : SettingsMenu :=
  fold_left SettingsMenu_on_key_press keys s.

Definition Key_eqb (a b : Key) : bool :=
  match a, b with
  | LEFT, LEFT | RIGHT, RIGHT | UP, UP | DOWN, DOWN | ENTER, ENTER
  | ESCAPE, ESCAPE | OTHER_KEY, OTHER_KEY => true
  | _, _ => false
  end.

(** How often the key [k] occurs in [keys]. *)
Definition count_key (k : Key) (keys : list Key) : Z :=
  Z.of_nat (length (filter (Key_eqb k) keys)).

(** The selection of the main menu after the keys [keys] that do not
    leave the menu. *)
Definition browse (m : MainMenu) (keys : list Key) (sounds : bool)
    (clock : nat -> R) : MainMenu :=
  fold_left (fun m k => fst (MainMenu_on_key_press m k sounds clock)) keys m.

(** The particle is alive and not older than its full life. *)
Definition particle_ok (p : Particle) : Prop :=
  0 < life p <= max_life p.
(** * Properties *)

(** ** Comparisons *)

Lemma Rltb_true (x y : R) : Rltb x y = true <-> x < y.
Proof. unfold Rltb; destruct (Rlt_dec x y); split; intros; congruence || lra. Qed.

Lemma Rltb_false (x y : R) : Rltb x y = false <-> y <= x.
Proof. unfold Rltb; destruct (Rlt_dec x y); split; intros; congruence || lra. Qed.

Lemma Rgtb_true (x y : R) : Rgtb x y = true <-> x > y.
Proof. unfold Rgtb; rewrite Rltb_true; lra. Qed.

Lemma Rgtb_false (x y : R) : Rgtb x y = false <-> x <= y.
Proof. unfold Rgtb; rewrite Rltb_false; lra. Qed.

Lemma Reqb_true (x y : R) : Reqb x y = true <-> x = y.
Proof. unfold Reqb; destruct (Req_dec_T x y); split; intros; congruence. Qed.

Lemma Reqb_false (x y : R) : Reqb x y = false <-> x <> y.
Proof. unfold Reqb; destruct (Req_dec_T x y); split; intros; congruence. Qed.

(** ** Collision resolution *)

Lemma distance_sq (dx dy : R) :
  sqrt (dx * dx + dy * dy) * sqrt (dx * dx + dy * dy) = dx * dx + dy * dy.
Proof. apply sqrt_sqrt. nra. Qed.

Lemma unit_normal (dx dy : R) :
  sqrt (dx * dx + dy * dy) <> 0 ->
  (dx / sqrt (dx * dx + dy * dy)) * (dx / sqrt (dx * dx + dy * dy))
  + (dy / sqrt (dx * dx + dy * dy)) * (dy / sqrt (dx * dx + dy * dy)) = 1.
Proof.
  intros Hnz. pose proof (distance_sq dx dy) as Hsq.
  set (d := sqrt (dx * dx + dy * dy)) in *.
  replace ((dx / d) * (dx / d) + (dy / d) * (dy / d))
    with ((dx * dx + dy * dy) / (d * d)) by (field; exact Hnz).
  rewrite <- Hsq. field. exact Hnz.
Qed.

Lemma normal_times_distance (dx dy : R) :
  sqrt (dx * dx + dy * dy) <> 0 ->
  dx = dx / sqrt (dx * dx + dy * dy) * sqrt (dx * dx + dy * dy) /\
  dy = dy / sqrt (dx * dx + dy * dy) * sqrt (dx * dx + dy * dy).
Proof. intros Hnz. split; field; exact Hnz. Qed.

Lemma energy_after_impulse (m1 m2 ux uy wx wy nx ny J s : R) :
  nx * nx + ny * ny = 1 ->
  s = (wx - ux) * nx + (wy - uy) * ny ->
  J * (m1 + m2) = 1.8 * s ->
  0.5 * m1 * ((ux + J * m2 * nx) ^ 2 + (uy + J * m2 * ny) ^ 2)
  + 0.5 * m2 * ((wx - J * m1 * nx) ^ 2 + (wy - J * m1 * ny) ^ 2)
  = 0.5 * m1 * (ux ^ 2 + uy ^ 2) + 0.5 * m2 * (wx ^ 2 + wy ^ 2)
    - 0.1 * m1 * m2 * (J * s).
Proof.
  intros Hn Hs HJ.
  assert (HJJ : J * J * (m1 + m2) = 1.8 * (J * s)).
  { replace (J * J * (m1 + m2)) with (J * (J * (m1 + m2))) by ring.
    rewrite HJ. lra. }
  replace (0.5 * m1 * ((ux + J * m2 * nx) ^ 2 + (uy + J * m2 * ny) ^ 2)
           + 0.5 * m2 * ((wx - J * m1 * nx) ^ 2 + (wy - J * m1 * ny) ^ 2))
    with (0.5 * m1 * (ux ^ 2 + uy ^ 2) + 0.5 * m2 * (wx ^ 2 + wy ^ 2)
          - m1 * m2 * (J * ((wx - ux) * nx + (wy - uy) * ny))
          + 0.5 * m1 * m2 * (J * J * (m1 + m2)) * (nx * nx + ny * ny))
    by lra.
  rewrite Hn, HJJ, <- Hs. lra.
Qed.

(** The three ways [resolve_ball_collision] returns, by its tests. *)
Lemma resolve_far (b1 b2 : Ball) :
  centre_distance b1 b2 = 0 \/ centre_distance b1 b2 > BALL_RADIUS * 2 ->
  resolve_ball_collision b1 b2 = Some (b1, b2).
Proof.
  unfold centre_distance, resolve_ball_collision. cbv zeta.
  intros [H | H].
  - apply Reqb_true in H. rewrite H. reflexivity.
  - apply Rgtb_true in H. rewrite H. rewrite orb_true_r. reflexivity.
Qed.

(** What the call leaves behind when the balls touch: the centres are
    moved along the normal, and the velocities either stay (the balls
    separate already) or receive the impulse. *)
Lemma resolve_contact (b1 b2 : Ball) :
  let dx := center_x b2 - center_x b1 in
  let dy := center_y b2 - center_y b1 in
  let d := centre_distance b1 b2 in
  let nx := dx / d in
  let ny := dy / d in
  let sep := (BALL_RADIUS * 2 - d) * 0.5 in
  let s := (change_x b2 - change_x b1) * nx + (change_y b2 - change_y b1) * ny in
  let J := 2 * s / (mass b1 + mass b2) * 0.9 in
  d <> 0 -> d <= BALL_RADIUS * 2 -> mass b1 + mass b2 <> 0 ->
  exists b1' b2',
    resolve_ball_collision b1 b2 = Some (b1', b2') /\
    center_x b1' = center_x b1 - nx * sep /\
    center_y b1' = center_y b1 - ny * sep /\
    center_x b2' = center_x b2 + nx * sep /\
    center_y b2' = center_y b2 + ny * sep /\
    mass b1' = mass b1 /\ mass b2' = mass b2 /\
    ((s > 0 /\
      change_x b1' = change_x b1 /\ change_y b1' = change_y b1 /\
      change_x b2' = change_x b2 /\ change_y b2' = change_y b2)
     \/
     (s <= 0 /\
      change_x b1' = change_x b1 + J * mass b2 * nx /\
      change_y b1' = change_y b1 + J * mass b2 * ny /\
      change_x b2' = change_x b2 - J * mass b1 * nx /\
      change_y b2' = change_y b2 - J * mass b1 * ny)).
Proof.
  intros dx dy d nx ny sep s J Hnz Hle Hm.
  unfold resolve_ball_collision. cbv zeta.
  fold dx dy. change (sqrt (dx * dx + dy * dy)) with d.
  apply Reqb_false in Hnz. apply Rgtb_false in Hle. rewrite Hnz, Hle.
  cbn [orb set_center_x set_center_y change_x change_y mass
       center_x center_y angular_velocity].
  fold nx ny s.
  apply Reqb_false in Hm. rewrite Hm.
  destruct (Rgtb s 0) eqn:Hs.
  - apply Rgtb_true in Hs.
    do 2 eexists. split; [reflexivity |].
    cbn. repeat split; try reflexivity. left. repeat split; try reflexivity. exact Hs.
  - apply Rgtb_false in Hs.
    cbn [set_change_x set_change_y set_center_x set_center_y
         angular_velocity].
    destruct (Rgtb (Rabs (angular_velocity b1)) 0.1);
      do 2 eexists; (split; [reflexivity |]);
      cbn; repeat split; try reflexivity;
      right; repeat split; try reflexivity; exact Hs.
Qed.

Lemma contact_or_far (b1 b2 : Ball) :
  (centre_distance b1 b2 = 0 \/ centre_distance b1 b2 > BALL_RADIUS * 2)
  \/ (centre_distance b1 b2 <> 0 /\ centre_distance b1 b2 <= BALL_RADIUS * 2).
Proof.
  destruct (Req_dec_T (centre_distance b1 b2) 0) as [E | N]; [left; left; exact E |].
  destruct (Rle_dec (centre_distance b1 b2) (BALL_RADIUS * 2)) as [L | G].
  - right. split; assumption.
  - left. right. lra.
Qed.

Lemma impulse_scaled (s M : R) :
  M <> 0 -> 2 * s / M * 0.9 * M = 1.8 * s.
Proof. intros HM. field_simplify; [lra | exact HM]. Qed.

Lemma striker_target_distance : centre_distance striker target = 20.
Proof.
  unfold centre_distance, striker, target, ball_at. cbn.
  replace ((120 - 100) * (120 - 100) + (100 - 100) * (100 - 100))
    with (20 * 20) by lra.
  apply sqrt_square. lra.
Qed.

Lemma coincident_distance (b : Ball) : centre_distance b b = 0.
Proof.
  unfold centre_distance. cbv zeta.
  replace ((center_x b - center_x b) * (center_x b - center_x b)
           + (center_y b - center_y b) * (center_y b - center_y b))
    with 0 by lra.
  apply sqrt_0.
Qed.

(** C9: when the centres of the two balls coincide (distance exactly 0) or
    are more than [2 * BALL_RADIUS] apart, [resolve_ball_collision]
    returns normally (no division by zero is raised) and both balls come
    back exactly as they were: positions, velocities, angular velocities
    and every other attribute. *)
Theorem resolve_ball_collision_skips (b1 b2 : Ball) :
  centre_distance b1 b2 = 0 \/ centre_distance b1 b2 > BALL_RADIUS * 2 ->
  resolve_ball_collision b1 b2 = Some (b1, b2).
Proof. apply resolve_far. Qed.

Lemma resolve_ball_collision_skips_witness :
  resolve_ball_collision striker striker = Some (striker, striker).
Proof.
  apply (resolve_ball_collision_skips striker striker).
  left. apply coincident_distance.
Defined.

(** C4: if the centre distance [d] satisfies [0 < d <= 2 * BALL_RADIUS]
    before the call, then [resolve_ball_collision] returns, each ball has
    been pushed along the normal by half the overlap, and the distance
    between the centres afterwards is [2 * BALL_RADIUS], hence at least
    [2 * BALL_RADIUS - epsilon] for every [epsilon >= 0]. *)
Theorem resolve_ball_collision_separates (b1 b2 : Ball) (epsilon : R) :
  0 < centre_distance b1 b2 <= BALL_RADIUS * 2 ->
  mass b1 + mass b2 <> 0 ->
  0 <= epsilon ->
  exists b1' b2',
    resolve_ball_collision b1 b2 = Some (b1', b2') /\
    (let d := centre_distance b1 b2 in
     let nx := (center_x b2 - center_x b1) / d in
     let ny := (center_y b2 - center_y b1) / d in
     let half_overlap := (BALL_RADIUS * 2 - d) * 0.5 in
     center_x b1' = center_x b1 - nx * half_overlap /\
     center_y b1' = center_y b1 - ny * half_overlap /\
     center_x b2' = center_x b2 + nx * half_overlap /\
     center_y b2' = center_y b2 + ny * half_overlap) /\
    centre_distance b1' b2' = BALL_RADIUS * 2 /\
    centre_distance b1' b2' >= BALL_RADIUS * 2 - epsilon.
Proof.
  intros [Hpos Hle] Hm Heps.
  assert (Hnz : centre_distance b1 b2 <> 0) by lra.
  destruct (resolve_contact b1 b2 Hnz Hle Hm)
    as (b1' & b2' & Hres & Hx1 & Hy1 & Hx2 & Hy2 & _).
  exists b1', b2'. split; [exact Hres |].
  split; [cbv zeta; repeat split; assumption |].
  assert (Hd : centre_distance b1' b2' = BALL_RADIUS * 2).
  { unfold centre_distance at 1. cbv zeta.
    rewrite Hx1, Hy1, Hx2, Hy2.
    pose proof (unit_normal (center_x b2 - center_x b1)
                  (center_y b2 - center_y b1)) as Hn.
    pose proof (normal_times_distance (center_x b2 - center_x b1)
                  (center_y b2 - center_y b1)) as Hnd.
    fold (centre_distance b1 b2) in Hn, Hnd.
    specialize (Hn Hnz). specialize (Hnd Hnz). destruct Hnd as [Hdx Hdy].
    set (d := centre_distance b1 b2) in *.
    set (nx := (center_x b2 - center_x b1) / d) in *.
    set (ny := (center_y b2 - center_y b1) / d) in *.
    assert (Ex : center_x b2 + nx * ((BALL_RADIUS * 2 - d) * 0.5)
                 - (center_x b1 - nx * ((BALL_RADIUS * 2 - d) * 0.5))
                 = nx * (BALL_RADIUS * 2)) by lra.
    assert (Ey : center_y b2 + ny * ((BALL_RADIUS * 2 - d) * 0.5)
                 - (center_y b1 - ny * ((BALL_RADIUS * 2 - d) * 0.5))
                 = ny * (BALL_RADIUS * 2)) by lra.
    rewrite Ex, Ey.
    replace (nx * (BALL_RADIUS * 2) * (nx * (BALL_RADIUS * 2))
             + ny * (BALL_RADIUS * 2) * (ny * (BALL_RADIUS * 2)))
      with ((nx * nx + ny * ny) * ((BALL_RADIUS * 2) * (BALL_RADIUS * 2)))
      by lra.
    rewrite Hn, Rmult_1_l. apply sqrt_square. unfold BALL_RADIUS. lra. }
  split; [exact Hd | lra].
Qed.

Lemma resolve_ball_collision_separates_witness :
  exists b1' b2',
    resolve_ball_collision striker target = Some (b1', b2') /\
    (let d := centre_distance striker target in
     let nx := (center_x target - center_x striker) / d in
     let ny := (center_y target - center_y striker) / d in
     let half_overlap := (BALL_RADIUS * 2 - d) * 0.5 in
     center_x b1' = center_x striker - nx * half_overlap /\
     center_y b1' = center_y striker - ny * half_overlap /\
     center_x b2' = center_x target + nx * half_overlap /\
     center_y b2' = center_y target + ny * half_overlap) /\
    centre_distance b1' b2' = BALL_RADIUS * 2 /\
    centre_distance b1' b2' >= BALL_RADIUS * 2 - 0.001.
Proof.
  apply (resolve_ball_collision_separates striker target 0.001).
  - rewrite striker_target_distance. unfold BALL_RADIUS. lra.
  - cbn. lra.
  - lra.
Defined.

(** C5: [resolve_ball_collision] conserves the linear momentum of the
    pair.  Whenever the two masses do not cancel, the call returns and
    [m1 * v1 + m2 * v2] is the same vector before and after, so its
    component along any direction [(ux, uy)], the collision normal
    included, is the same too.  This holds for the restitution [0.9] of
    the source, not only for restitution 1. *)
Theorem resolve_ball_collision_conserves_momentum (b1 b2 : Ball) :
  mass b1 + mass b2 <> 0 ->
  exists b1' b2',
    resolve_ball_collision b1 b2 = Some (b1', b2') /\
    momentum_x b1' b2' = momentum_x b1 b2 /\
    momentum_y b1' b2' = momentum_y b1 b2 /\
    forall ux uy : R,
      momentum_x b1' b2' * ux + momentum_y b1' b2' * uy
      = momentum_x b1 b2 * ux + momentum_y b1 b2 * uy.
Proof.
  intros Hm.
  destruct (contact_or_far b1 b2) as [Hfar | [Hnz Hle]].
  - exists b1, b2. rewrite (resolve_far _ _ Hfar). repeat split; reflexivity.
  - destruct (resolve_contact b1 b2 Hnz Hle Hm)
      as (b1' & b2' & Hres & _ & _ & _ & _ & Hm1 & Hm2 & Hv).
    exists b1', b2'. split; [exact Hres |].
    assert (Hp : momentum_x b1' b2' = momentum_x b1 b2
                 /\ momentum_y b1' b2' = momentum_y b1 b2).
    { unfold momentum_x, momentum_y. rewrite Hm1, Hm2.
      destruct Hv as [(_ & E1 & E2 & E3 & E4) | (_ & E1 & E2 & E3 & E4)];
        rewrite E1, E2, E3, E4; split; lra. }
    destruct Hp as [Hx Hy]. repeat split; try assumption.
    intros ux uy. rewrite Hx, Hy. reflexivity.
Qed.

Lemma resolve_ball_collision_conserves_momentum_witness :
  exists b1' b2',
    resolve_ball_collision striker target = Some (b1', b2') /\
    momentum_x b1' b2' = momentum_x striker target /\
    momentum_y b1' b2' = momentum_y striker target /\
    forall ux uy : R,
      momentum_x b1' b2' * ux + momentum_y b1' b2' * uy
      = momentum_x striker target * ux + momentum_y striker target * uy.
Proof.
  apply (resolve_ball_collision_conserves_momentum striker target).
  cbn. lra.
Defined.

(** C1: for two balls of positive mass whose centres are within
    [2 * BALL_RADIUS], whatever their velocities, [resolve_ball_collision]
    returns and the kinetic energy of the pair,
    [0.5 * m1 * |v1|^2 + 0.5 * m2 * |v2|^2], is not larger after the call
    than before. *)
Theorem resolve_ball_collision_energy (b1 b2 : Ball) :
  0 < mass b1 -> 0 < mass b2 ->
  centre_distance b1 b2 <= BALL_RADIUS * 2 ->
  exists b1' b2',
    resolve_ball_collision b1 b2 = Some (b1', b2') /\
    pair_energy b1' b2' <= pair_energy b1 b2.
Proof.
  intros Hm1 Hm2 Hle.
  destruct (Req_dec_T (centre_distance b1 b2) 0) as [Hz | Hnz].
  - exists b1, b2. rewrite (resolve_far b1 b2 (or_introl Hz)).
    split; [reflexivity | lra].
  - assert (Hm : mass b1 + mass b2 <> 0) by lra.
    destruct (resolve_contact b1 b2 Hnz Hle Hm)
      as (b1' & b2' & Hres & _ & _ & _ & _ & E1 & E2 & Hv).
    exists b1', b2'. split; [exact Hres |].
    unfold pair_energy, kinetic_energy. rewrite E1, E2.
    destruct Hv as [(_ & V1 & V2 & V3 & V4) | (Hs & V1 & V2 & V3 & V4)];
      rewrite V1, V2, V3, V4; [lra |].
    pose proof (unit_normal (center_x b2 - center_x b1)
                  (center_y b2 - center_y b1)) as Hn.
    fold (centre_distance b1 b2) in Hn. specialize (Hn Hnz).
    set (nx := (center_x b2 - center_x b1) / centre_distance b1 b2) in *.
    set (ny := (center_y b2 - center_y b1) / centre_distance b1 b2) in *.
    set (s := (change_x b2 - change_x b1) * nx
              + (change_y b2 - change_y b1) * ny) in *.
    set (J := 2 * s / (mass b1 + mass b2) * 0.9) in *.
    assert (HJ : J * (mass b1 + mass b2) = 1.8 * s)
      by (apply impulse_scaled, Hm).
    rewrite (energy_after_impulse (mass b1) (mass b2) (change_x b1)
               (change_y b1) (change_x b2) (change_y b2) nx ny J s
               Hn eq_refl HJ).
    assert (HJs : 0 <= J * s).
    { assert (H0 : 0 <= J * J * (mass b1 + mass b2))
        by (apply Rmult_le_pos; [nra | lra]).
      replace (J * J * (mass b1 + mass b2))
        with (J * (J * (mass b1 + mass b2))) in H0 by lra.
      rewrite HJ in H0. lra. }
    assert (Hmm : 0 <= mass b1 * mass b2 * (J * s)).
    { apply Rmult_le_pos; [apply Rmult_le_pos; lra | exact HJs]. }
    lra.
Qed.

Lemma resolve_ball_collision_energy_witness :
  exists b1' b2',
    resolve_ball_collision striker target = Some (b1', b2') /\
    pair_energy b1' b2' <= pair_energy striker target.
Proof.
  apply (resolve_ball_collision_energy striker target).
  - cbn. lra.
  - cbn. lra.
  - rewrite striker_target_distance. unfold BALL_RADIUS. lra.
Defined.

(** The head-on scenario: the striker keeps a tenth of its speed, the
    target leaves with [5 * 0.9]. *)
Example head_on_velocities :
  exists b1' b2',
    resolve_ball_collision striker target = Some (b1', b2') /\
    change_x b1' = 0.5 /\ change_y b1' = 0 /\
    change_x b2' = 4.5 /\ change_y b2' = 0.
Proof.
  assert (Hnz : centre_distance striker target <> 0)
    by (rewrite striker_target_distance; lra).
  assert (Hle : centre_distance striker target <= BALL_RADIUS * 2)
    by (rewrite striker_target_distance; unfold BALL_RADIUS; lra).
  assert (Hm : mass striker + mass target <> 0) by (cbn; lra).
  destruct (resolve_contact striker target Hnz Hle Hm)
    as (b1' & b2' & Hres & _ & _ & _ & _ & _ & _ & Hv).
  exists b1', b2'. split; [exact Hres |].
  rewrite striker_target_distance in Hv. cbn in Hv.
  destruct Hv as [(Hs & _) | (_ & V1 & V2 & V3 & V4)]; [lra |].
  rewrite V1, V2, V3, V4. repeat split; lra.
Qed.

(** ** Integration step *)

Lemma motion_update_trail (b : Ball) (speed t : R) :
  motion (update_trail b speed t) = motion b.
Proof.
  unfold update_trail. cbv zeta.
  destruct (Rgtb speed 2.0); cbn [trail set_trail];
    match goal with
    | |- context [Nat.ltb ?a ?n] => destruct (Nat.ltb a n)
    end; reflexivity.
Qed.

Lemma motion_update_highlight (b : Ball) (dt : R) :
  motion (update_highlight b dt) = motion b.
Proof.
  unfold update_highlight.
  destruct (highlight b); [| reflexivity]. cbv zeta.
  match goal with
  | |- context [Rgtb ?a ?n] => destruct (Rgtb a n)
  end; reflexivity.
Qed.

Lemma motion_update (t : R) (b : Ball) (dt : R) :
  motion (update t b dt) = motion (snap_velocity (before_snap b dt)).
Proof.
  unfold update. cbv zeta.
  match goal with
  | |- motion (set_last_update_time ?x t) = _ =>
      change (motion (set_last_update_time x t)) with (motion x)
  end.
  rewrite motion_update_highlight, motion_update_trail.
  reflexivity.
Qed.

Lemma motion_fields (b b' : Ball) :
  motion b' = motion b ->
  center_x b' = center_x b /\ center_y b' = center_y b /\
  change_x b' = change_x b /\ change_y b' = change_y b /\
  angular_velocity b' = angular_velocity b /\ rotation b' = rotation b.
Proof. unfold motion. intros H. inversion H. repeat split; reflexivity. Qed.

Lemma snap_velocity_change_x (b : Ball) :
  change_x (snap_velocity b)
  = if Rltb (Rabs (change_x b)) 0.08 then 0 else change_x b.
Proof.
  unfold snap_velocity. cbv zeta.
  destruct (Rltb (Rabs (change_x b)) 0.08); cbn [change_y set_change_x];
    destruct (Rltb (Rabs (change_y b)) 0.08); reflexivity.
Qed.

Lemma snap_velocity_change_y (b : Ball) :
  change_y (snap_velocity b)
  = if Rltb (Rabs (change_y b)) 0.08 then 0 else change_y b.
Proof.
  unfold snap_velocity. cbv zeta.
  destruct (Rltb (Rabs (change_x b)) 0.08); cbn [change_y set_change_x];
    destruct (Rltb (Rabs (change_y b)) 0.08); reflexivity.
Qed.

Lemma snap_velocity_frame (b : Ball) :
  center_x (snap_velocity b) = center_x b /\
  center_y (snap_velocity b) = center_y b /\
  angular_velocity (snap_velocity b) = angular_velocity b /\
  rotation (snap_velocity b) = rotation b.
Proof.
  unfold snap_velocity. cbv zeta.
  destruct (Rltb (Rabs (change_x b)) 0.08); cbn [change_y set_change_x];
    destruct (Rltb (Rabs (change_y b)) 0.08); repeat split; reflexivity.
Qed.

Lemma snapped_zero_or_large (v : R) :
  let v' := if Rltb (Rabs v) 0.08 then 0 else v in
  v' = 0 \/ Rabs v' >= 0.08.
Proof.
  cbv zeta. destruct (Rltb (Rabs v) 0.08) eqn:E.
  - left. reflexivity.
  - right. apply Rltb_false in E. lra.
Qed.

Lemma before_snap_centre (b : Ball) (dt : R) :
  center_x (before_snap b dt) = center_x b + change_x b /\
  center_y (before_snap b dt) = center_y b + change_y b.
Proof.
  unfold before_snap. cbv zeta.
  match goal with
  | |- context [Rgtb ?a 0] => destruct (Rgtb a 0)
  end.
  - unfold apply_spin, apply_friction. cbv zeta.
    match goal with
    | |- context [Rgtb ?a 0.1] => destruct (Rgtb a 0.1)
    end; split; reflexivity.
  - split; reflexivity.
Qed.

(** A ball that does not move ([speed > 0] fails) only has its position
    advanced, by a zero velocity. *)
Lemma before_snap_still (b : Ball) (dt : R) :
  speed_of b <= 0 ->
  change_x (before_snap b dt) = change_x b /\
  change_y (before_snap b dt) = change_y b /\
  angular_velocity (before_snap b dt) = angular_velocity b /\
  rotation (before_snap b dt) = rotation b.
Proof.
  intros H. unfold before_snap. cbv zeta.
  cbn [change_x change_y set_center_x set_center_y].
  fold (speed_of b). apply Rgtb_false in H. rewrite H.
  repeat split; reflexivity.
Qed.

(** A moving ball: friction, rotation, rotational friction, and the spin
    drift when the damped angular velocity exceeds [0.1]. *)
Lemma before_snap_moving (b : Ball) (dt : R) :
  speed_of b > 0 ->
  let k := friction_of (speed_of b) in
  let w := angular_velocity b * ROTATIONAL_FRICTION in
  change_x (before_snap b dt)
  = (if Rgtb (Rabs w) 0.1
     then change_x b * k + w * SPIN_EFFECT * dt else change_x b * k) /\
  change_y (before_snap b dt)
  = (if Rgtb (Rabs w) 0.1
     then change_y b * k - w * SPIN_EFFECT * dt else change_y b * k) /\
  angular_velocity (before_snap b dt) = w /\
  rotation (before_snap b dt) = rotation b + angular_velocity b * dt * 30.
Proof.
  intros H. cbv zeta. unfold before_snap. cbv zeta.
  cbn [change_x change_y set_center_x set_center_y].
  fold (speed_of b). apply Rgtb_true in H. rewrite H.
  unfold apply_spin, apply_friction. cbv zeta.
  cbn [angular_velocity set_rotation set_angular_velocity set_change_x
       set_change_y set_center_x set_center_y change_x change_y rotation].
  destruct (Rgtb (Rabs (angular_velocity b * ROTATIONAL_FRICTION)) 0.1);
    repeat split; reflexivity.
Qed.

Lemma speed_of_nonneg (b : Ball) : 0 <= speed_of b.
Proof. apply sqrt_pos. Qed.

Lemma component_le_speed (b : Ball) :
  Rabs (change_x b) <= speed_of b /\ Rabs (change_y b) <= speed_of b.
Proof.
  unfold speed_of. split.
  - rewrite <- (sqrt_Rsqr_abs (change_x b)). apply sqrt_le_1_alt.
    unfold Rsqr. nra.
  - rewrite <- (sqrt_Rsqr_abs (change_y b)). apply sqrt_le_1_alt.
    unfold Rsqr. nra.
Qed.

Lemma speed_of_rest (b : Ball) :
  change_x b = 0 -> change_y b = 0 -> speed_of b = 0.
Proof.
  intros Hx Hy. unfold speed_of. rewrite Hx, Hy.
  replace (0 ^ 2 + 0 ^ 2) with 0 by lra. apply sqrt_0.
Qed.

Lemma update_fields (t : R) (b : Ball) (dt : R) :
  center_x (update t b dt) = center_x b + change_x b /\
  center_y (update t b dt) = center_y b + change_y b /\
  change_x (update t b dt)
  = (if Rltb (Rabs (change_x (before_snap b dt))) 0.08
     then 0 else change_x (before_snap b dt)) /\
  change_y (update t b dt)
  = (if Rltb (Rabs (change_y (before_snap b dt))) 0.08
     then 0 else change_y (before_snap b dt)) /\
  angular_velocity (update t b dt) = angular_velocity (before_snap b dt) /\
  rotation (update t b dt) = rotation (before_snap b dt).
Proof.
  destruct (motion_fields _ _ (motion_update t b dt))
    as (Hx & Hy & Hvx & Hvy & Hw & Hr).
  destruct (snap_velocity_frame (before_snap b dt)) as (Fx & Fy & Fw & Fr).
  destruct (before_snap_centre b dt) as (Cx & Cy).
  rewrite Hx, Hy, Hvx, Hvy, Hw, Hr, Fx, Fy, Fw, Fr, Cx, Cy,
    snap_velocity_change_x, snap_velocity_change_y.
  repeat split; reflexivity.
Qed.

Lemma speed_dichotomy (b : Ball) : speed_of b > 0 \/ speed_of b <= 0.
Proof. destruct (Rlt_dec 0 (speed_of b)); [left | right]; lra. Qed.

Lemma Rabs_zero_small : Rltb (Rabs 0) 0.08 = true.
Proof. apply Rltb_true. rewrite Rabs_R0. lra. Qed.

(** A ball at rest is left as it is, whatever the elapsed time. *)
Lemma update_at_rest (t : R) (b : Ball) (dt : R) :
  change_x b = 0 -> change_y b = 0 ->
  same_motion b (update t b dt) /\ rotation (update t b dt) = rotation b.
Proof.
  intros Hx Hy.
  destruct (update_fields t b dt) as (Cx & Cy & Vx & Vy & W & Rt).
  assert (Hs : speed_of b <= 0) by (rewrite (speed_of_rest b Hx Hy); lra).
  destruct (before_snap_still b dt Hs) as (Ex & Ey & Ew & Er).
  unfold same_motion.
  rewrite Cx, Cy, Vx, Vy, W, Rt.
  rewrite Ex, Ey, Ew, Er, Hx, Hy, Rabs_zero_small.
  repeat split; lra.
Qed.

Lemma speed_of_horizontal (b : Ball) :
  change_y b = 0 -> 0 <= change_x b -> speed_of b = change_x b.
Proof.
  intros Hy Hx. unfold speed_of. rewrite Hy.
  replace (change_x b ^ 2 + 0 ^ 2) with (change_x b * change_x b) by lra.
  apply sqrt_square, Hx.
Qed.

(** C2, as stated, fails: with [delta_time = 0] the cue ball at
    [(300, 350)] with velocity [(10, 0)] is moved to [x = 310]. *)
Lemma update_zero_dt_moves_ball :
  center_x (update 0 cue_shot 0) = 310 /\
  ~ same_motion cue_shot (update 0 cue_shot 0).
Proof.
  destruct (update_fields 0 cue_shot 0) as (Cx & _).
  assert (E : center_x (update 0 cue_shot 0) = 310)
    by (rewrite Cx; cbn; lra).
  split; [exact E |].
  intros (H & _). rewrite E in H. cbn in H. lra.
Qed.

(** With [delta_time = 0] the spin drift of a moving ball is zero: the
    velocity the zero snap sees is the velocity scaled by the friction
    factor. *)
Lemma before_snap_zero_dt (b : Ball) :
  speed_of b > 0 ->
  change_x (before_snap b 0) = change_x b * friction_of (speed_of b) /\
  change_y (before_snap b 0) = change_y b * friction_of (speed_of b) /\
  angular_velocity (before_snap b 0)
  = angular_velocity b * ROTATIONAL_FRICTION /\
  rotation (before_snap b 0) = rotation b.
Proof.
  intros Hs.
  destruct (before_snap_moving b 0 Hs) as (Bx & By & Bw & Br).
  rewrite Bx, By, Bw, Br.
  destruct (Rgtb (Rabs (angular_velocity b * ROTATIONAL_FRICTION)) 0.1);
    repeat split; lra.
Qed.

(** C2 (amended): with [delta_time = 0], [Ball.update] still advances
    the position by the velocity, and for a moving ball it still
    applies friction (each velocity component is scaled by
    [FRICTION - speed * 0.0005]), the zero snap (a scaled component
    below [0.08] in magnitude becomes 0) and the rotational friction;
    only the rotation angle is left unchanged, and no spin drift is
    added.  Position, velocity and angular velocity are all unchanged
    exactly when the ball is at rest. *)
Theorem update_zero_dt (t : R) (b : Ball) :
  center_x (update t b 0) = center_x b + change_x b /\
  center_y (update t b 0) = center_y b + change_y b /\
  rotation (update t b 0) = rotation b /\
  (speed_of b > 0 ->
   let k := friction_of (speed_of b) in
   change_x (update t b 0)
   = (if Rltb (Rabs (change_x b * k)) 0.08 then 0 else change_x b * k) /\
   change_y (update t b 0)
   = (if Rltb (Rabs (change_y b * k)) 0.08 then 0 else change_y b * k) /\
   angular_velocity (update t b 0)
   = angular_velocity b * ROTATIONAL_FRICTION) /\
  (same_motion b (update t b 0) <-> change_x b = 0 /\ change_y b = 0).
Proof.
  destruct (update_fields t b 0) as (Cx & Cy & Vx & Vy & W & Rt).
  split; [exact Cx |]. split; [exact Cy |].
  split.
  { rewrite Rt. destruct (speed_dichotomy b) as [Hs | Hs].
    - apply (before_snap_zero_dt b Hs).
    - apply (before_snap_still b 0 Hs). }
  split.
  { intros Hs. cbv zeta.
    destruct (before_snap_zero_dt b Hs) as (Bx & By & Bw & _).
    rewrite Vx, Vy, W, Bx, By, Bw. repeat split; reflexivity. }
  split.
  - intros (Hx & Hy & _). rewrite Cx in Hx. rewrite Cy in Hy. split; lra.
  - intros (Hx & Hy). apply (update_at_rest t b 0 Hx Hy).
Qed.

(** The cue ball at [(300, 350)] with velocity [(10, 0)], stepped with
    [delta_time = 0]: it is moved to [x = 310] and slowed down to
    [9.8]; the ball [target], at rest, is left as it is. *)
Lemma update_zero_dt_witness :
  (center_x (update 0 cue_shot 0) = 310 /\
   change_x (update 0 cue_shot 0) = 9.8 /\
   change_y (update 0 cue_shot 0) = 0) /\
  same_motion target (update 0 target 0).
Proof.
  assert (Hs : speed_of cue_shot = 10)
    by (rewrite speed_of_horizontal; cbn; lra).
  destruct (update_zero_dt 0 cue_shot) as (Cx & _ & _ & Hm & _).
  destruct Hm as (Vx & Vy & _); [rewrite Hs; lra |].
  rewrite Hs in Vx, Vy. unfold friction_of, FRICTION in Vx, Vy.
  cbn [change_x change_y cue_shot ball_at] in Vx, Vy.
  assert (Hx : Rltb (Rabs (10 * (0.985 - 10 * 0.0005))) 0.08 = false).
  { apply Rltb_false. rewrite Rabs_right; lra. }
  assert (Hy : Rltb (Rabs (0 * (0.985 - 10 * 0.0005))) 0.08 = true).
  { apply Rltb_true. rewrite Rmult_0_l, Rabs_R0. lra. }
  rewrite Hx in Vx. rewrite Hy in Vy.
  split.
  - split; [rewrite Cx; cbn; lra |]. split; [rewrite Vx; lra | exact Vy].
  - apply (proj2 (proj2 (proj2 (proj2 (update_zero_dt 0 target))))).
    cbn. split; reflexivity.
Defined.








Lemma small_components_speed (b : Ball) :
  Rabs (change_x b) < 0.08 -> Rabs (change_y b) < 0.08 -> speed_of b < 1.
Proof.
  intros Hx Hy. apply Rabs_def2 in Hx. apply Rabs_def2 in Hy.
  unfold speed_of. rewrite <- sqrt_1. apply sqrt_lt_1_alt. nra.
Qed.

Lemma scaled_small (v k : R) :
  Rabs v < 0.08 -> 0 <= k <= 1 -> Rltb (Rabs (v * k)) 0.08 = true.
Proof.
  intros Hv Hk. apply Rltb_true. apply Rabs_def2 in Hv.
  apply Rabs_def1; nra.
Qed.

(** The snap stops a ball whose two velocity components are below [0.08]
    in magnitude, as long as the step adds no spin drift. *)
Lemma update_stops_small_components (t : R) (b : Ball) (dt : R) :
  Rabs (change_x b) < 0.08 -> Rabs (change_y b) < 0.08 ->
  Rabs (angular_velocity b * ROTATIONAL_FRICTION) <= 0.1 \/ dt = 0 ->
  change_x (update t b dt) = 0 /\ change_y (update t b dt) = 0.
Proof.
  intros Hx Hy Hspin.
  destruct (update_fields t b dt) as (_ & _ & Vx & Vy & _).
  rewrite Vx, Vy.
  destruct (speed_dichotomy b) as [Hs | Hs].
  - destruct (before_snap_moving b dt Hs) as (Bx & By & _).
    pose proof (small_components_speed b Hx Hy) as H1.
    assert (Hk : 0 <= friction_of (speed_of b) <= 1)
      by (unfold friction_of, FRICTION; lra).
    assert (Ex : change_x (before_snap b dt)
                 = change_x b * friction_of (speed_of b)).
    { rewrite Bx. destruct Hspin as [Hw | Hdt].
      - apply Rgtb_false in Hw. rewrite Hw. reflexivity.
      - rewrite Hdt.
        destruct (Rgtb (Rabs (angular_velocity b * ROTATIONAL_FRICTION)) 0.1);
          lra. }
    assert (Ey : change_y (before_snap b dt)
                 = change_y b * friction_of (speed_of b)).
    { rewrite By. destruct Hspin as [Hw | Hdt].
      - apply Rgtb_false in Hw. rewrite Hw. reflexivity.
      - rewrite Hdt.
        destruct (Rgtb (Rabs (angular_velocity b * ROTATIONAL_FRICTION)) 0.1);
          lra. }
    rewrite Ex, Ey, (scaled_small _ _ Hx Hk), (scaled_small _ _ Hy Hk).
    split; reflexivity.
  - destruct (before_snap_still b dt Hs) as (Ex & Ey & _).
    rewrite Ex, Ey.
    apply Rltb_true in Hx. apply Rltb_true in Hy. rewrite Hx, Hy.
    split; reflexivity.
Qed.

(** C7, as stated, fails: at speed [0.079], below the threshold, one
    step at the default [delta_time = 1 / 60] leaves the velocity
    [x]-component at [0.0838118795], because the spin drift is added
    after the friction and before the snap. *)
Lemma update_slow_spinner_keeps_moving :
  speed_of slow_spinner < 0.08 /\
  change_x (update 0 slow_spinner (1 / 60)) = 0.0838118795 /\
  change_x (update 0 slow_spinner (1 / 60)) <> 0.
Proof.
  assert (Hsp : speed_of slow_spinner = 0.079)
    by (rewrite speed_of_horizontal; cbn; lra).
  assert (Hs : speed_of slow_spinner > 0) by lra.
  destruct (update_fields 0 slow_spinner (1 / 60)) as (_ & _ & Vx & _).
  destruct (before_snap_moving slow_spinner (1 / 60) Hs) as (Bx & _).
  rewrite Hsp in Bx. unfold friction_of, FRICTION in Bx.
  cbn [angular_velocity slow_spinner ball_at change_x] in Bx.
  assert (Hw : Rgtb (Rabs (2.5 * ROTATIONAL_FRICTION)) 0.1 = true).
  { apply Rgtb_true. unfold ROTATIONAL_FRICTION. rewrite Rabs_right; lra. }
  rewrite Hw in Bx. unfold ROTATIONAL_FRICTION, SPIN_EFFECT in Bx.
  assert (Bx' : change_x (before_snap slow_spinner (1 / 60)) = 0.0838118795)
    by lra.
  assert (Hn : Rltb (Rabs 0.0838118795) 0.08 = false).
  { apply Rltb_false. rewrite Rabs_right; lra. }
  rewrite Bx', Hn in Vx.
  split; [lra |]. split; [exact Vx | lra].
Qed.

(** C7 (amended): if the speed before the step is below [0.08] and the
    step adds no spin drift (the angular velocity after rotational
    friction is at most [0.1] in magnitude, or [delta_time = 0]), then
    after [update] both velocity components are exactly [0]. *)
Theorem update_snaps_slow_ball (t : R) (b : Ball) (dt : R) :
  speed_of b < 0.08 ->
  Rabs (angular_velocity b * ROTATIONAL_FRICTION) <= 0.1 \/ dt = 0 ->
  change_x (update t b dt) = 0 /\ change_y (update t b dt) = 0.
Proof.
  intros Hs Hspin.
  destruct (component_le_speed b) as [Hx Hy].
  apply update_stops_small_components; [lra | lra | exact Hspin].
Qed.

Lemma update_snaps_slow_ball_witness :
  change_x (update 0 (ball_at 300 350 0.05 0 0) (1 / 60)) = 0 /\
  change_y (update 0 (ball_at 300 350 0.05 0 0) (1 / 60)) = 0.
Proof.
  apply (update_snaps_slow_ball 0 (ball_at 300 350 0.05 0 0) (1 / 60)).
  - rewrite speed_of_horizontal; cbn; lra.
  - left. cbn. rewrite Rmult_0_l, Rabs_R0. lra.
Defined.

(** C10, as stated, fails in its consequence: both components of
    [(0.054, 0.072)] are below [0.08], yet after one step at
    [delta_time = 1 / 30] with spin [-2.5] the ball still moves, with
    velocity [(0, 0.08291676)]. *)
Lemma update_slow_diagonal_keeps_moving :
  Rabs (change_x slow_diagonal) < 0.08 /\
  Rabs (change_y slow_diagonal) < 0.08 /\
  change_x (update 0 slow_diagonal (1 / 30)) = 0 /\
  change_y (update 0 slow_diagonal (1 / 30)) = 0.08291676.
Proof.
  assert (Hsp : speed_of slow_diagonal = 0.09).
  { unfold speed_of. cbn.
    replace (0.054 * (0.054 * 1) + 0.072 * (0.072 * 1)) with (0.09 * 0.09)
      by lra.
    apply sqrt_square. lra. }
  assert (Hs : speed_of slow_diagonal > 0) by lra.
  destruct (update_fields 0 slow_diagonal (1 / 30)) as (_ & _ & Vx & Vy & _).
  destruct (before_snap_moving slow_diagonal (1 / 30) Hs) as (Bx & By & _).
  rewrite Hsp in Bx, By. unfold friction_of, FRICTION in Bx, By.
  cbn [angular_velocity slow_diagonal ball_at change_x change_y] in Bx, By.
  assert (Hw : Rgtb (Rabs (-2.5 * ROTATIONAL_FRICTION)) 0.1 = true).
  { apply Rgtb_true. unfold ROTATIONAL_FRICTION. rewrite Rabs_left; lra. }
  rewrite Hw in Bx, By. unfold ROTATIONAL_FRICTION, SPIN_EFFECT in Bx, By.
  assert (Bx' : change_x (before_snap slow_diagonal (1 / 30)) = 0.04118757)
    by lra.
  assert (By' : change_y (before_snap slow_diagonal (1 / 30)) = 0.08291676)
    by lra.
  assert (Hx : Rltb (Rabs 0.04118757) 0.08 = true).
  { apply Rltb_true. rewrite Rabs_right; lra. }
  assert (Hy : Rltb (Rabs 0.08291676) 0.08 = false).
  { apply Rltb_false. rewrite Rabs_right; lra. }
  rewrite Bx', Hx in Vx. rewrite By', Hy in Vy.
  cbn [slow_diagonal ball_at change_x change_y].
  split; [rewrite Rabs_right; lra |].
  split; [rewrite Rabs_right; lra |].
  split; assumption.
Qed.

(** C10 (amended): the snap is applied to each component on its own, so
    after every [update] each of [change_x], [change_y] is exactly [0]
    or at least [0.08] in magnitude; and a ball whose components are
    both below [0.08] in magnitude is stopped in one step whenever the
    step adds no spin drift (damped angular velocity at most [0.1] in
    magnitude, or [delta_time = 0]). *)
Theorem update_snaps_each_component (t : R) (b : Ball) (dt : R) :
  (change_x (update t b dt) = 0 \/ Rabs (change_x (update t b dt)) >= 0.08) /\
  (change_y (update t b dt) = 0 \/ Rabs (change_y (update t b dt)) >= 0.08) /\
  (Rabs (change_x b) < 0.08 -> Rabs (change_y b) < 0.08 ->
   Rabs (angular_velocity b * ROTATIONAL_FRICTION) <= 0.1 \/ dt = 0 ->
   change_x (update t b dt) = 0 /\ change_y (update t b dt) = 0).
Proof.
  destruct (update_fields t b dt) as (_ & _ & Vx & Vy & _).
  split; [| split].
  - rewrite Vx. apply snapped_zero_or_large.
  - rewrite Vy. apply snapped_zero_or_large.
  - apply update_stops_small_components.
Qed.

Lemma update_snaps_each_component_witness :
  change_x (update 0 (ball_at 300 350 0.07 0.07 0) (1 / 60)) = 0 /\
  change_y (update 0 (ball_at 300 350 0.07 0.07 0) (1 / 60)) = 0.
Proof.
  apply (proj2 (proj2 (update_snaps_each_component 0
                         (ball_at 300 350 0.07 0.07 0) (1 / 60)))).
  - cbn. rewrite Rabs_right; lra.
  - cbn. rewrite Rabs_right; lra.
  - left. cbn. rewrite Rmult_0_l, Rabs_R0. lra.
Defined.

(** ** Wall collision *)

(** C6, as stated, fails: the ball in the corner crosses the left and
    the bottom bound; the call returns [True] after treating the left
    wall only.  The ball still sticks out at the bottom ([bottom = 56]),
    its [change_y] still points outwards, and its [change_x], which was
    positive, has kept its sign. *)
Lemma check_wall_collision_corner :
  crosses_wall corner_ball /\
  snd (check_wall_collision corner_ball) = true /\
  center_x (fst (check_wall_collision corner_ball)) = 79 /\
  bottom (fst (check_wall_collision corner_ball)) = 56 /\
  ~ inside_table (fst (check_wall_collision corner_ball)) /\
  change_y (fst (check_wall_collision corner_ball)) = -4 /\
  change_x corner_ball = 3 /\
  change_x (fst (check_wall_collision corner_ball)) = 2.34.
Proof.
  assert (Hl : Rltb (left corner_ball) left_bound = true).
  { apply Rltb_true. unfold left, left_bound, BALL_RADIUS. cbn. lra. }
  unfold check_wall_collision. rewrite Hl. cbv zeta.
  cbn [fst snd]. unfold crosses_wall, inside_table, inside_y, bottom, left,
    set_left, left, left_bound, bottom_bound, BALL_RADIUS, WALL_BOUNCE.
  cbn [corner_ball ball_at center_x center_y change_x change_y
       set_center_x set_change_x set_angular_velocity angular_velocity].
  split; [left; lra |].
  split; [reflexivity |].
  split; [lra |].
  split; [lra |].
  split; [intros (_ & Hb & _); lra |].
  split; [reflexivity |].
  split; [reflexivity |].
  rewrite Rabs_right; lra.
Qed.

Ltac wall_unfold :=
  unfold inside_table, inside_x, inside_y, crosses_wall, x_untouched,
    y_untouched, set_left, set_right, set_bottom, set_top,
    left, right, bottom, top, left_bound, right_bound, bottom_bound,
    top_bound, SCREEN_WIDTH, SCREEN_HEIGHT, BALL_RADIUS in *;
  cbn [fst snd center_x center_y change_x change_y angular_velocity
       set_center_x set_center_y set_change_x set_change_y
       set_angular_velocity] in *.

Lemma check_wall_collision_left (b : Ball) :
  left b < left_bound ->
  check_wall_collision b
  = (set_angular_velocity
       (set_change_x (set_left b left_bound)
          (Rabs (change_x b) * WALL_BOUNCE))
       (angular_velocity b * -0.8), true).
Proof.
  intros H. apply Rltb_true in H. unfold check_wall_collision.
  rewrite H. reflexivity.
Qed.

Lemma check_wall_collision_right (b : Ball) :
  left_bound <= left b -> right b > right_bound ->
  check_wall_collision b
  = (set_angular_velocity
       (set_change_x (set_right b right_bound)
          (- Rabs (change_x b) * WALL_BOUNCE))
       (angular_velocity b * -0.8), true).
Proof.
  intros H1 H2. apply Rltb_false in H1. apply Rgtb_true in H2.
  unfold check_wall_collision. rewrite H1, H2. reflexivity.
Qed.

Lemma check_wall_collision_bottom (b : Ball) :
  inside_x b -> bottom b < bottom_bound ->
  check_wall_collision b
  = (set_angular_velocity
       (set_change_y (set_bottom b bottom_bound)
          (Rabs (change_y b) * WALL_BOUNCE))
       (angular_velocity b * -0.8), true).
Proof.
  intros [H1 H2] H3. apply Rltb_false in H1. apply Rgtb_false in H2.
  apply Rltb_true in H3.
  unfold check_wall_collision. rewrite H1, H2, H3. reflexivity.
Qed.

Lemma check_wall_collision_top (b : Ball) :
  inside_x b -> bottom_bound <= bottom b -> top b > top_bound ->
  check_wall_collision b
  = (set_angular_velocity
       (set_change_y (set_top b top_bound)
          (- Rabs (change_y b) * WALL_BOUNCE))
       (angular_velocity b * -0.8), true).
Proof.
  intros [H1 H2] H3 H4. apply Rltb_false in H1. apply Rgtb_false in H2.
  apply Rltb_false in H3. apply Rgtb_true in H4.
  unfold check_wall_collision. rewrite H1, H2, H3, H4. reflexivity.
Qed.

Lemma check_wall_collision_none (b : Ball) :
  ~ crosses_wall b -> check_wall_collision b = (b, false).
Proof.
  intros H. unfold crosses_wall in H.
  assert (H1 : Rltb (left b) left_bound = false) by (apply Rltb_false; lra).
  assert (H2 : Rgtb (right b) right_bound = false) by (apply Rgtb_false; lra).
  assert (H3 : Rltb (bottom b) bottom_bound = false) by (apply Rltb_false; lra).
  assert (H4 : Rgtb (top b) top_bound = false) by (apply Rgtb_false; lra).
  unfold check_wall_collision. rewrite H1, H2, H3, H4. reflexivity.
Qed.

(** C6 (amended): [check_wall_collision] treats one wall per call, the
    first one crossed in the order left, right, bottom, top.  It moves
    the ball so that the crossing edge lies on the bound, which puts the
    ball inside along that axis; it sets the velocity component normal
    to that wall to [|v| * WALL_BOUNCE] pointing into the table, which
    reverses and scales the component when the ball was moving towards
    the wall; it multiplies the angular velocity by [-0.8], leaves the
    other axis untouched and returns [True].  The ball is then fully
    inside the rectangle when it was inside along the other axis.  If no
    wall is crossed the call returns [False] and the ball is
    unchanged. *)
Theorem check_wall_collision_one_wall (b : Ball) :
  let b' := fst (check_wall_collision b) in
  let hit := snd (check_wall_collision b) in
  (left b < left_bound ->
     hit = true /\ left b' = left_bound /\ inside_x b' /\
     change_x b' = Rabs (change_x b) * WALL_BOUNCE /\
     (change_x b <= 0 -> change_x b' = - change_x b * WALL_BOUNCE) /\
     y_untouched b b' /\
     angular_velocity b' = angular_velocity b * -0.8 /\
     (inside_y b -> inside_table b')) /\
  (left_bound <= left b -> right b > right_bound ->
     hit = true /\ right b' = right_bound /\ inside_x b' /\
     change_x b' = - Rabs (change_x b) * WALL_BOUNCE /\
     (0 <= change_x b -> change_x b' = - change_x b * WALL_BOUNCE) /\
     y_untouched b b' /\
     angular_velocity b' = angular_velocity b * -0.8 /\
     (inside_y b -> inside_table b')) /\
  (inside_x b -> bottom b < bottom_bound ->
     hit = true /\ bottom b' = bottom_bound /\ inside_table b' /\
     change_y b' = Rabs (change_y b) * WALL_BOUNCE /\
     (change_y b <= 0 -> change_y b' = - change_y b * WALL_BOUNCE) /\
     x_untouched b b' /\
     angular_velocity b' = angular_velocity b * -0.8) /\
  (inside_x b -> bottom_bound <= bottom b -> top b > top_bound ->
     hit = true /\ top b' = top_bound /\ inside_table b' /\
     change_y b' = - Rabs (change_y b) * WALL_BOUNCE /\
     (0 <= change_y b -> change_y b' = - change_y b * WALL_BOUNCE) /\
     x_untouched b b' /\
     angular_velocity b' = angular_velocity b * -0.8) /\
  (~ crosses_wall b -> hit = false /\ b' = b).
Proof.
  cbv zeta. split; [| split; [| split; [| split]]].
  - intros H. rewrite (check_wall_collision_left b H). wall_unfold.
    repeat split; try reflexivity; try lra.
    intros Hv. rewrite (Rabs_left1 _ Hv). lra.
  - intros H1 H2. rewrite (check_wall_collision_right b H1 H2). wall_unfold.
    repeat split; try reflexivity; try lra.
    intros Hv. rewrite (Rabs_right _ (Rle_ge _ _ Hv)). lra.
  - intros H1 H2. rewrite (check_wall_collision_bottom b H1 H2). wall_unfold.
    repeat split; try reflexivity; try lra.
    intros Hv. rewrite (Rabs_left1 _ Hv). lra.
  - intros H1 H2 H3. rewrite (check_wall_collision_top b H1 H2 H3). wall_unfold.
    repeat split; try reflexivity; try lra.
    intros Hv. rewrite (Rabs_right _ (Rle_ge _ _ Hv)). lra.
  - intros H. rewrite (check_wall_collision_none b H). split; reflexivity.
Qed.

Lemma check_wall_collision_one_wall_witness :
  let b' := fst (check_wall_collision cushion_ball) in
  let hit := snd (check_wall_collision cushion_ball) in
  hit = true /\ left b' = left_bound /\ inside_x b' /\
  change_x b' = Rabs (change_x cushion_ball) * WALL_BOUNCE /\
  (change_x cushion_ball <= 0 ->
   change_x b' = - change_x cushion_ball * WALL_BOUNCE) /\
  y_untouched cushion_ball b' /\
  angular_velocity b' = angular_velocity cushion_ball * -0.8 /\
  (inside_y cushion_ball -> inside_table b').
Proof.
  apply (proj1 (check_wall_collision_one_wall cushion_ball)).
  unfold left, left_bound, BALL_RADIUS. cbn. lra.
Defined.

(** ** Pocket capture *)


Lemma first_pocket_none (ball : Ball) (pockets : list (R * R)) :
  first_pocket ball pockets = None <->
  forall p, In p pockets -> POCKET_RADIUS <= pocket_distance ball p.
Proof.
  induction pockets as [| q rest IH]; cbn [first_pocket].
  - split; [intros _ p [] | reflexivity].
  - destruct (Rltb (pocket_distance ball q) POCKET_RADIUS) eqn:Hq.
    + apply Rltb_true in Hq. split; [discriminate |].
      intros H. specialize (H q (or_introl eq_refl)). lra.
    + apply Rltb_false in Hq. rewrite IH. split.
      * intros H p [<- | Hp]; [exact Hq | apply H, Hp].
      * intros H p Hp. apply H. right. exact Hp.
Qed.


Lemma sqrt_lower_bound (r a : R) : 0 <= r -> r * r <= a -> r <= sqrt a.
Proof.
  intros Hr Ha. rewrite <- (sqrt_square r Hr). apply sqrt_le_1_alt, Ha.
Qed.

(** The test [distance < POCKET_RADIUS] of the source, on the
    coordinates. *)
Lemma pocket_distance_lt (ball : Ball) (px py r : R) :
  0 < r ->
  pocket_distance ball (px, py) < r <->
  (center_x ball - px) ^ 2 + (center_y ball - py) ^ 2 < r ^ 2.
Proof.
  intros Hr. unfold pocket_distance. cbn [fst snd].
  set (a := (center_x ball - px) ^ 2 + (center_y ball - py) ^ 2).
  assert (Ha : 0 <= a)
    by (unfold a; apply Rplus_le_le_0_compat; apply pow2_ge_0).
  clearbody a. split.
  - intros H. pose proof (sqrt_pos a) as Hp.
    rewrite <- (sqrt_sqrt a Ha). nra.
  - intros H. rewrite <- (sqrt_square r) by lra.
    apply sqrt_lt_1_alt. lra.
Qed.

Lemma first_pocket_none_coordinates (ball : Ball) (pockets : list (R * R)) :
  first_pocket ball pockets = None <->
  forall px py, In (px, py) pockets ->
    POCKET_RADIUS ^ 2
    <= (center_x ball - px) ^ 2 + (center_y ball - py) ^ 2.
Proof.
  assert (Hr : 0 < POCKET_RADIUS) by (unfold POCKET_RADIUS; lra).
  rewrite first_pocket_none. split.
  - intros H px py Hin. specialize (H (px, py) Hin).
    pose proof (pocket_distance_lt ball px py POCKET_RADIUS Hr) as E.
    destruct (Rlt_dec ((center_x ball - px) ^ 2 + (center_y ball - py) ^ 2)
                      (POCKET_RADIUS ^ 2)) as [L | L]; [| lra].
    apply E in L. lra.
  - intros H [px py] Hin. specialize (H px py Hin).
    pose proof (pocket_distance_lt ball px py POCKET_RADIUS Hr) as E.
    destruct (Rlt_dec (pocket_distance ball (px, py)) POCKET_RADIUS)
      as [L | L]; [| lra].
    apply E in L. lra.
Qed.



Example ball_on_pocket_captured :
  check_pocket ball_on_pocket pocket_locations = Some (60, 60).
Proof.
  assert (H : Rltb (pocket_distance ball_on_pocket (60, 60)) POCKET_RADIUS = true).
  { apply Rltb_true. unfold pocket_distance, POCKET_RADIUS. cbn.
    replace ((60 - 60) * ((60 - 60) * 1) + (60 - 60) * ((60 - 60) * 1))
      with 0 by lra.
    rewrite sqrt_0. lra. }
  unfold check_pocket. change (in_pocket ball_on_pocket) with false.
  unfold pocket_locations. cbn [first_pocket]. rewrite H. reflexivity.
Qed.

Example ball_off_pocket_not_captured :
  pocket_distance ball_off_pocket (60, 60) = POCKET_RADIUS + 1 /\
  check_pocket ball_off_pocket pocket_locations = None.
Proof.
  split.
  - unfold pocket_distance, POCKET_RADIUS. cbn.
    replace ((93 - 60) * ((93 - 60) * 1) + (60 - 60) * ((60 - 60) * 1))
      with (33 * 33) by lra.
    replace (32 + 1) with 33 by lra. apply sqrt_square. lra.
  - unfold check_pocket. change (in_pocket ball_off_pocket) with false.
    apply first_pocket_none. intros p Hin.
    unfold pocket_distance, POCKET_RADIUS.
    apply sqrt_lower_bound; [lra |].
    unfold pocket_locations, SCREEN_WIDTH, SCREEN_HEIGHT in Hin.
    cbn [In] in Hin.
    repeat (destruct Hin as [<- | Hin]; [cbn; lra |]).
    contradiction.
Qed.

(** * Further properties of the physics core *)

(** ** Collision resolution: restitution, spin, repeated calls *)


(** After the positional correction the centres are [2 * BALL_RADIUS]
    apart and the unit normal is the one the call computed. *)
Lemma contact_geometry (b1 b2 b1' b2' : Ball) :
  let d := centre_distance b1 b2 in
  let nx := (center_x b2 - center_x b1) / d in
  let ny := (center_y b2 - center_y b1) / d in
  let sep := (BALL_RADIUS * 2 - d) * 0.5 in
  d <> 0 ->
  center_x b1' = center_x b1 - nx * sep ->
  center_y b1' = center_y b1 - ny * sep ->
  center_x b2' = center_x b2 + nx * sep ->
  center_y b2' = center_y b2 + ny * sep ->
  centre_distance b1' b2' = BALL_RADIUS * 2 /\
  (center_x b2' - center_x b1') / centre_distance b1' b2' = nx /\
  (center_y b2' - center_y b1') / centre_distance b1' b2' = ny.
Proof.
  intros d nx ny sep Hnz Hx1 Hy1 Hx2 Hy2.
  pose proof (unit_normal (center_x b2 - center_x b1)
                (center_y b2 - center_y b1)) as Hn.
  pose proof (normal_times_distance (center_x b2 - center_x b1)
                (center_y b2 - center_y b1)) as Hnd.
  fold (centre_distance b1 b2) in Hn, Hnd. fold d in Hn, Hnd.
  specialize (Hn Hnz). specialize (Hnd Hnz). destruct Hnd as [Hdx Hdy].
  fold nx in Hn, Hdx. fold ny in Hn, Hdy.
  assert (Ex : center_x b2' - center_x b1' = nx * (BALL_RADIUS * 2))
    by (rewrite Hx1, Hx2; unfold sep; lra).
  assert (Ey : center_y b2' - center_y b1' = ny * (BALL_RADIUS * 2))
    by (rewrite Hy1, Hy2; unfold sep; lra).
  assert (Hd : centre_distance b1' b2' = BALL_RADIUS * 2).
  { unfold centre_distance. cbv zeta. rewrite Ex, Ey.
    replace (nx * (BALL_RADIUS * 2) * (nx * (BALL_RADIUS * 2))
             + ny * (BALL_RADIUS * 2) * (ny * (BALL_RADIUS * 2)))
      with ((nx * nx + ny * ny) * ((BALL_RADIUS * 2) * (BALL_RADIUS * 2)))
      by lra.
    rewrite Hn, Rmult_1_l. apply sqrt_square. unfold BALL_RADIUS. lra. }
  rewrite Hd, Ex, Ey. unfold BALL_RADIUS.
  split; [reflexivity |]. split; field.
Qed.

(** The normal and tangential relative velocity after a call on a pair
    in contact, with the positions and masses the call leaves. *)
Lemma resolve_contact_normal_speed (b1 b2 : Ball) :
  centre_distance b1 b2 <> 0 ->
  centre_distance b1 b2 <= BALL_RADIUS * 2 ->
  mass b1 + mass b2 <> 0 ->
  exists b1' b2',
    resolve_ball_collision b1 b2 = Some (b1', b2') /\
    (normal_speed b1 b2 <= 0 ->
     normal_speed b1' b2' = -0.8 * normal_speed b1 b2) /\
    (normal_speed b1 b2 > 0 ->
     normal_speed b1' b2' = normal_speed b1 b2) /\
    0 <= normal_speed b1' b2' /\
    tangent_speed b1' b2' = tangent_speed b1 b2.
Proof.
  intros Hnz Hle Hm.
  destruct (resolve_contact b1 b2 Hnz Hle Hm)
    as (b1' & b2' & Hres & Hx1 & Hy1 & Hx2 & Hy2 & _ & _ & Hv).
  exists b1', b2'. split; [exact Hres |].
  destruct (contact_geometry b1 b2 b1' b2' Hnz Hx1 Hy1 Hx2 Hy2)
    as (_ & Hnx & Hny).
  pose proof (unit_normal (center_x b2 - center_x b1)
                (center_y b2 - center_y b1)) as Hn.
  fold (centre_distance b1 b2) in Hn. specialize (Hn Hnz).
  unfold normal_speed, tangent_speed. cbv zeta.
  fold (centre_distance b1' b2'). fold (centre_distance b1 b2).
  rewrite Hnx, Hny.
  set (nx := (center_x b2 - center_x b1) / centre_distance b1 b2) in *.
  set (ny := (center_y b2 - center_y b1) / centre_distance b1 b2) in *.
  set (s := (change_x b2 - change_x b1) * nx
            + (change_y b2 - change_y b1) * ny) in *.
  set (J := 2 * s / (mass b1 + mass b2) * 0.9) in *.
  assert (HJ : J * (mass b1 + mass b2) = 1.8 * s)
    by (apply impulse_scaled, Hm).
  destruct Hv as [(Hs & V1 & V2 & V3 & V4) | (Hs & V1 & V2 & V3 & V4)];
    rewrite V1, V2, V3, V4.
  - fold s. repeat split; intros; lra.
  - assert (En : (change_x b2 - J * mass b1 * nx
                  - (change_x b1 + J * mass b2 * nx)) * nx
                 + (change_y b2 - J * mass b1 * ny
                    - (change_y b1 + J * mass b2 * ny)) * ny
                 = -0.8 * s).
    { replace ((change_x b2 - J * mass b1 * nx
                - (change_x b1 + J * mass b2 * nx)) * nx
               + (change_y b2 - J * mass b1 * ny
                  - (change_y b1 + J * mass b2 * ny)) * ny)
        with (s - J * (mass b1 + mass b2) * (nx * nx + ny * ny))
        by (unfold s; lra).
      rewrite Hn, HJ. lra. }
    rewrite En. repeat split; intros; try lra.
Qed.

(** X1: for two touching or overlapping balls whose masses do not cancel,
    the call returns and leaves the balls not approaching: an approach
    speed [s <= 0] along the normal becomes the separation speed
    [-0.8 * s] (the factor [2 * 0.9] of the impulse gives an effective
    restitution of [0.8], whatever the masses), a pair already separating
    keeps its normal speed, and the relative velocity across the line of
    centres is never changed. *)
Theorem resolve_ball_collision_restitution (b1 b2 : Ball) :
  centre_distance b1 b2 <> 0 ->
  centre_distance b1 b2 <= BALL_RADIUS * 2 ->
  mass b1 + mass b2 <> 0 ->
  exists b1' b2',
    resolve_ball_collision b1 b2 = Some (b1', b2') /\
    (normal_speed b1 b2 <= 0 ->
     normal_speed b1' b2' = -0.8 * normal_speed b1 b2) /\
    (normal_speed b1 b2 > 0 ->
     normal_speed b1' b2' = normal_speed b1 b2) /\
    0 <= normal_speed b1' b2' /\
    tangent_speed b1' b2' = tangent_speed b1 b2.
Proof. apply resolve_contact_normal_speed. Qed.

Lemma striker_target_contact :
  centre_distance striker target <> 0 /\
  centre_distance striker target <= BALL_RADIUS * 2 /\
  mass striker + mass target <> 0.
Proof.
  rewrite striker_target_distance. unfold BALL_RADIUS. cbn.
  repeat split; lra.
Qed.

Lemma resolve_ball_collision_restitution_witness :
  exists b1' b2',
    resolve_ball_collision striker target = Some (b1', b2') /\
    (normal_speed striker target <= 0 ->
     normal_speed b1' b2' = -0.8 * normal_speed striker target) /\
    (normal_speed striker target > 0 ->
     normal_speed b1' b2' = normal_speed striker target) /\
    0 <= normal_speed b1' b2' /\
    tangent_speed b1' b2' = tangent_speed striker target.
Proof.
  apply (resolve_ball_collision_restitution striker target);
    apply striker_target_contact.
Defined.

(** X2: a second call right after the first changes neither the
    positions nor the velocities: the centres are already
    [2 * BALL_RADIUS] apart and the balls no longer approach. *)
Theorem resolve_ball_collision_twice (b1 b2 : Ball) :
  centre_distance b1 b2 <> 0 ->
  centre_distance b1 b2 <= BALL_RADIUS * 2 ->
  mass b1 + mass b2 <> 0 ->
  exists b1' b2' b1'' b2'',
    resolve_ball_collision b1 b2 = Some (b1', b2') /\
    resolve_ball_collision b1' b2' = Some (b1'', b2'') /\
    center_x b1'' = center_x b1' /\ center_y b1'' = center_y b1' /\
    center_x b2'' = center_x b2' /\ center_y b2'' = center_y b2' /\
    change_x b1'' = change_x b1' /\ change_y b1'' = change_y b1' /\
    change_x b2'' = change_x b2' /\ change_y b2'' = change_y b2'.
Proof.
  intros Hnz Hle Hm.
  destruct (resolve_contact b1 b2 Hnz Hle Hm)
    as (b1' & b2' & Hres & Hx1 & Hy1 & Hx2 & Hy2 & M1 & M2 & _).
  destruct (resolve_contact_normal_speed b1 b2 Hnz Hle Hm)
    as (c1 & c2 & Hres' & _ & _ & Hpos & _).
  rewrite Hres in Hres'. injection Hres' as <- <-.
  destruct (contact_geometry b1 b2 b1' b2' Hnz Hx1 Hy1 Hx2 Hy2)
    as (Hd & _ & _).
  assert (Hnz' : centre_distance b1' b2' <> 0)
    by (rewrite Hd; unfold BALL_RADIUS; lra).
  assert (Hle' : centre_distance b1' b2' <= BALL_RADIUS * 2) by lra.
  assert (Hm' : mass b1' + mass b2' <> 0) by (rewrite M1, M2; exact Hm).
  destruct (resolve_contact b1' b2' Hnz' Hle' Hm')
    as (b1'' & b2'' & Hres2 & Px1 & Py1 & Px2 & Py2 & _ & _ & Hv).
  exists b1', b2', b1'', b2''.
  split; [exact Hres |]. split; [exact Hres2 |].
  rewrite Hd in Px1, Py1, Px2, Py2.
  split; [rewrite Px1; lra |]. split; [rewrite Py1; lra |].
  split; [rewrite Px2; lra |]. split; [rewrite Py2; lra |].
  destruct Hv as [(_ & V1 & V2 & V3 & V4) | (Hs & V1 & V2 & V3 & V4)].
  - repeat split; assumption.
  - match type of Hs with
    | ?e <= 0 =>
        assert (Hz : e = 0)
          by (change e with (normal_speed b1' b2') in *; lra);
        rewrite Hz in V1, V2, V3, V4
    end.
    rewrite V1, V2, V3, V4. unfold Rdiv. repeat split; lra.
Qed.

Lemma resolve_ball_collision_twice_witness :
  exists b1' b2' b1'' b2'',
    resolve_ball_collision striker target = Some (b1', b2') /\
    resolve_ball_collision b1' b2' = Some (b1'', b2'') /\
    center_x b1'' = center_x b1' /\ center_y b1'' = center_y b1' /\
    center_x b2'' = center_x b2' /\ center_y b2'' = center_y b2' /\
    change_x b1'' = change_x b1' /\ change_y b1'' = change_y b1' /\
    change_x b2'' = change_x b2' /\ change_y b2'' = change_y b2'.
Proof.
  apply (resolve_ball_collision_twice striker target);
    apply striker_target_contact.
Defined.



(** ** Wall collision: no gain of speed *)

Lemma wall_cases (b : Ball) :
  left b < left_bound \/
  (left_bound <= left b /\ right b > right_bound) \/
  (inside_x b /\ bottom b < bottom_bound) \/
  (inside_x b /\ bottom_bound <= bottom b /\ top b > top_bound) \/
  ~ crosses_wall b.
Proof.
  unfold inside_x, crosses_wall.
  destruct (Rlt_dec (left b) left_bound); [left; assumption |].
  destruct (Rlt_dec right_bound (right b)); [right; left; lra |].
  destruct (Rlt_dec (bottom b) bottom_bound);
    [right; right; left; lra |].
  destruct (Rlt_dec top_bound (top b));
    [right; right; right; left; lra |].
  right; right; right; right. lra.
Qed.

Lemma check_wall_collision_shrinks (b : Ball) :
  let b' := fst (check_wall_collision b) in
  Rabs (change_x b') <= Rabs (change_x b) /\
  Rabs (change_y b') <= Rabs (change_y b) /\
  Rabs (angular_velocity b') <= Rabs (angular_velocity b) /\
  (0 <= mass b -> kinetic_energy b' <= kinetic_energy b).
Proof.
  cbv zeta.
  assert (Hsc : forall v : R, Rabs (Rabs v * WALL_BOUNCE) <= Rabs v).
  { intros v. pose proof (Rabs_pos v). unfold WALL_BOUNCE.
    rewrite Rabs_right; lra. }
  assert (Hsc' : forall v : R, Rabs (- Rabs v * WALL_BOUNCE) <= Rabs v).
  { intros v. pose proof (Rabs_pos v). unfold WALL_BOUNCE.
    rewrite Rabs_left1; lra. }
  assert (Hw : forall w : R, Rabs (w * -0.8) <= Rabs w).
  { intros w. rewrite Rabs_mult. pose proof (Rabs_pos w).
    rewrite (Rabs_left (-0.8)); lra. }
  assert (Hsq : forall u v : R, Rabs u <= Rabs v -> u ^ 2 <= v ^ 2).
  { intros u v H. apply Rsqr_le_abs_1 in H. unfold Rsqr in H. lra. }
  assert (Hke : forall m x y x' y' : R,
             0 <= m -> Rabs x' <= Rabs x -> Rabs y' <= Rabs y ->
             0.5 * m * (x' ^ 2 + y' ^ 2) <= 0.5 * m * (x ^ 2 + y ^ 2)).
  { intros m x y x' y' Hm Hx Hy. apply Hsq in Hx. apply Hsq in Hy.
    apply Rmult_le_compat_l; [lra | lra]. }
  destruct (wall_cases b) as [H | [[H1 H2] | [[H1 H2] | [(H1 & H2 & H3) | H]]]].
  - rewrite (check_wall_collision_left b H). unfold kinetic_energy.
    cbn. pose proof (Hsc (change_x b)). pose proof (Hw (angular_velocity b)).
    repeat split; try lra. intros Hm. apply Hke; lra.
  - rewrite (check_wall_collision_right b H1 H2). unfold kinetic_energy.
    cbn. pose proof (Hsc' (change_x b)). pose proof (Hw (angular_velocity b)).
    repeat split; try lra. intros Hm. apply Hke; lra.
  - rewrite (check_wall_collision_bottom b H1 H2). unfold kinetic_energy.
    cbn. pose proof (Hsc (change_y b)). pose proof (Hw (angular_velocity b)).
    repeat split; try lra. intros Hm. apply Hke; lra.
  - rewrite (check_wall_collision_top b H1 H2 H3). unfold kinetic_energy.
    cbn. pose proof (Hsc' (change_y b)). pose proof (Hw (angular_velocity b)).
    repeat split; try lra. intros Hm. apply Hke; lra.
  - rewrite (check_wall_collision_none b H). cbn.
    repeat split; lra.
Qed.

(** X5: a wall never speeds a ball up.  After [check_wall_collision]
    neither velocity component is larger in magnitude than before, the
    angular velocity is not larger in magnitude either, and for a ball of
    nonnegative mass the kinetic energy has not grown. *)
Theorem check_wall_collision_no_gain (b : Ball) :
  let b' := fst (check_wall_collision b) in
  Rabs (change_x b') <= Rabs (change_x b) /\
  Rabs (change_y b') <= Rabs (change_y b) /\
  Rabs (angular_velocity b') <= Rabs (angular_velocity b) /\
  (0 <= mass b -> kinetic_energy b' <= kinetic_energy b).
Proof. apply check_wall_collision_shrinks. Qed.

Lemma check_wall_collision_no_gain_witness :
  kinetic_energy (fst (check_wall_collision cushion_ball))
  <= kinetic_energy cushion_ball.
Proof.
  apply (proj2 (proj2 (proj2 (check_wall_collision_no_gain cushion_ball)))).
  cbn. lra.
Defined.

(** ** Integration: no gain of speed without spin, and coming to rest *)

Lemma snapped_not_larger (v : R) :
  Rabs (if Rltb (Rabs v) 0.08 then 0 else v) <= Rabs v.
Proof.
  destruct (Rltb (Rabs v) 0.08); [rewrite Rabs_R0; apply Rabs_pos | lra].
Qed.

Lemma friction_range (speed : R) :
  0 <= speed <= 1970 -> 0 <= friction_of speed <= FRICTION.
Proof. unfold friction_of, FRICTION. lra. Qed.

Lemma scaled_abs (v k : R) : 0 <= k -> Rabs (v * k) = k * Rabs v.
Proof.
  intros Hk. rewrite Rabs_mult, (Rabs_right k); [lra | lra].
Qed.

Lemma snapped_scaled (v k F : R) :
  0 <= k <= F ->
  Rabs (if Rltb (Rabs (v * k)) 0.08 then 0 else v * k) <= F * Rabs v.
Proof.
  intros Hk. pose proof (snapped_not_larger (v * k)) as H.
  pose proof (Rabs_pos v) as Hv.
  rewrite (scaled_abs v k) in H at 2 by lra.
  assert (k * Rabs v <= F * Rabs v) by (apply Rmult_le_compat_r; lra).
  lra.
Qed.

(** Without spin drift, one [update] shrinks each velocity component by
    the friction factor at least, and the spin does not grow. *)
Lemma update_contracts (t : R) (b : Ball) (dt : R) :
  speed_of b <= 1970 ->
  spin_free b \/ dt = 0 ->
  Rabs (change_x (update t b dt)) <= FRICTION * Rabs (change_x b) /\
  Rabs (change_y (update t b dt)) <= FRICTION * Rabs (change_y b) /\
  Rabs (angular_velocity (update t b dt)) <= Rabs (angular_velocity b).
Proof.
  intros Hsp Hspin. unfold spin_free in Hspin.
  destruct (update_fields t b dt) as (_ & _ & Vx & Vy & W & _).
  rewrite Vx, Vy, W.
  pose proof (snapped_not_larger (change_x (before_snap b dt))) as Sx.
  pose proof (snapped_not_larger (change_y (before_snap b dt))) as Sy.
  pose proof (Rabs_pos (change_x b)) as Px.
  pose proof (Rabs_pos (change_y b)) as Py.
  destruct (speed_dichotomy b) as [Hs | Hs].
  - destruct (before_snap_moving b dt Hs) as (Bx & By & Bw & _).
    assert (Hk : 0 <= friction_of (speed_of b) <= FRICTION)
      by (apply friction_range; lra).
    assert (Ex : change_x (before_snap b dt)
                 = change_x b * friction_of (speed_of b)).
    { rewrite Bx. destruct Hspin as [Hw | Hdt].
      - apply Rgtb_false in Hw. rewrite Hw. reflexivity.
      - rewrite Hdt.
        destruct (Rgtb (Rabs (angular_velocity b * ROTATIONAL_FRICTION)) 0.1);
          lra. }
    assert (Ey : change_y (before_snap b dt)
                 = change_y b * friction_of (speed_of b)).
    { rewrite By. destruct Hspin as [Hw | Hdt].
      - apply Rgtb_false in Hw. rewrite Hw. reflexivity.
      - rewrite Hdt.
        destruct (Rgtb (Rabs (angular_velocity b * ROTATIONAL_FRICTION)) 0.1);
          lra. }
    rewrite Ex, Ey, Bw.
    split; [apply snapped_scaled, Hk |].
    split; [apply snapped_scaled, Hk |].
    unfold ROTATIONAL_FRICTION. rewrite scaled_abs by lra.
    pose proof (Rabs_pos (angular_velocity b)). lra.
  - destruct (before_snap_still b dt Hs) as (Ex & Ey & Ew & _).
    rewrite Ex in *. rewrite Ey in *. rewrite Ew.
    destruct (component_le_speed b) as [Cx Cy].
    assert (Zx : Rabs (change_x b) = 0) by lra.
    assert (Zy : Rabs (change_y b) = 0) by lra.
    rewrite Zx in *. rewrite Zy in *. split; [lra |]. split; lra.
Qed.

Lemma speed_of_monotone (b b' : Ball) :
  Rabs (change_x b') <= Rabs (change_x b) ->
  Rabs (change_y b') <= Rabs (change_y b) ->
  speed_of b' <= speed_of b.
Proof.
  intros Hx Hy. unfold speed_of. apply sqrt_le_1_alt.
  apply Rsqr_le_abs_1 in Hx. apply Rsqr_le_abs_1 in Hy.
  unfold Rsqr in *. lra.
Qed.

(** X6: without spin drift [Ball.update] never speeds a ball up.  For a
    ball of speed at most [1970] that is spin free, or with
    [delta_time = 0], each velocity component after the step is at most
    [FRICTION] times its magnitude before, and the angular velocity has
    not grown in magnitude. *)
Theorem update_no_gain (t : R) (b : Ball) (dt : R) :
  speed_of b <= 1970 ->
  spin_free b \/ dt = 0 ->
  Rabs (change_x (update t b dt)) <= FRICTION * Rabs (change_x b) /\
  Rabs (change_y (update t b dt)) <= FRICTION * Rabs (change_y b) /\
  Rabs (angular_velocity (update t b dt)) <= Rabs (angular_velocity b).
Proof. apply update_contracts. Qed.

Lemma cue_shot_calm : speed_of cue_shot <= 1970 /\ spin_free cue_shot.
Proof.
  split.
  - rewrite speed_of_horizontal; cbn; lra.
  - unfold spin_free. cbn. rewrite Rmult_0_l, Rabs_R0. lra.
Qed.

Lemma update_no_gain_witness :
  Rabs (change_x (update 0 cue_shot (1 / 60)))
  <= FRICTION * Rabs (change_x cue_shot) /\
  Rabs (change_y (update 0 cue_shot (1 / 60)))
  <= FRICTION * Rabs (change_y cue_shot) /\
  Rabs (angular_velocity (update 0 cue_shot (1 / 60)))
  <= Rabs (angular_velocity cue_shot).
Proof.
  apply (update_no_gain 0 cue_shot (1 / 60)).
  - apply cue_shot_calm.
  - left. apply cue_shot_calm.
Defined.

Lemma spin_free_shrinks (b b' : Ball) :
  spin_free b ->
  Rabs (angular_velocity b') <= Rabs (angular_velocity b) ->
  spin_free b'.
Proof.
  unfold spin_free, ROTATIONAL_FRICTION. intros H Hw.
  rewrite scaled_abs in * by lra. lra.
Qed.

(** One frame of a spin-free ball: both components shrink, and the ball
    stays spin free and slow enough for the friction factor to be
    nonnegative. *)
Lemma step_ball_contracts (t : R) (b : Ball) (dt : R) :
  spin_free b -> speed_of b <= 1970 ->
  let b' := fst (step_ball t b dt) in
  Rabs (change_x b') <= FRICTION * Rabs (change_x b) /\
  Rabs (change_y b') <= FRICTION * Rabs (change_y b) /\
  spin_free b' /\ speed_of b' <= 1970.
Proof.
  intros Hspin Hsp. cbv zeta. unfold step_ball. cbv zeta. cbn [fst].
  destruct (update_contracts t b dt Hsp (or_introl Hspin)) as (Ux & Uy & Uw).
  destruct (check_wall_collision_shrinks (update t b dt)) as (Wx & Wy & Ww & _).
  cbv zeta in Wx, Wy, Ww.
  set (b' := fst (check_wall_collision (update t b dt))) in *.
  assert (Hx : Rabs (change_x b') <= FRICTION * Rabs (change_x b)) by lra.
  assert (Hy : Rabs (change_y b') <= FRICTION * Rabs (change_y b)) by lra.
  split; [exact Hx |]. split; [exact Hy |]. split.
  - apply (spin_free_shrinks b b' Hspin). lra.
  - pose proof (Rabs_pos (change_x b)). pose proof (Rabs_pos (change_y b)).
    unfold FRICTION in *.
    assert (speed_of b' <= speed_of b)
      by (apply speed_of_monotone; lra).
    lra.
Qed.

Lemma step_ball_stops (t : R) (b : Ball) (dt : R) :
  spin_free b ->
  Rabs (change_x b) < 0.08 -> Rabs (change_y b) < 0.08 ->
  let b' := fst (step_ball t b dt) in
  change_x b' = 0 /\ change_y b' = 0.
Proof.
  intros Hspin Hx Hy. cbv zeta. unfold step_ball. cbv zeta. cbn [fst].
  destruct (update_stops_small_components t b dt Hx Hy (or_introl Hspin))
    as (Zx & Zy).
  destruct (check_wall_collision_shrinks (update t b dt)) as (Wx & Wy & _).
  cbv zeta in Wx, Wy. rewrite Zx in Wx. rewrite Zy in Wy.
  rewrite Rabs_R0 in Wx, Wy.
  set (b' := fst (check_wall_collision (update t b dt))) in *.
  pose proof (Rabs_pos (change_x b')). pose proof (Rabs_pos (change_y b')).
  split.
  - destruct (Req_dec_T (change_x b') 0) as [E | N]; [exact E |].
    apply Rabs_pos_lt in N. lra.
  - destruct (Req_dec_T (change_y b') 0) as [E | N]; [exact E |].
    apply Rabs_pos_lt in N. lra.
Qed.

Lemma run_ball_stays_at_rest (frames : list (R * R)) (b : Ball) :
  spin_free b -> speed_of b <= 1970 ->
  change_x b = 0 -> change_y b = 0 ->
  change_x (run_ball frames b) = 0 /\ change_y (run_ball frames b) = 0.
Proof.
  revert b. induction frames as [| [t dt] rest IH]; intros b Hspin Hsp Hx Hy.
  - cbn. split; assumption.
  - cbn [run_ball].
    destruct (step_ball_contracts t b dt Hspin Hsp) as (_ & _ & Hspin' & Hsp').
    assert (Sx : Rabs (change_x b) < 0.08) by (rewrite Hx, Rabs_R0; lra).
    assert (Sy : Rabs (change_y b) < 0.08) by (rewrite Hy, Rabs_R0; lra).
    destruct (step_ball_stops t b dt Hspin Sx Sy) as (Zx & Zy).
    apply IH; assumption.
Qed.

Lemma run_ball_comes_to_rest (frames : list (R * R)) :
  forall (b : Ball) (n : nat),
    spin_free b -> speed_of b <= 1970 ->
    (n < length frames)%nat ->
    FRICTION ^ n * Rabs (change_x b) < 0.08 ->
    FRICTION ^ n * Rabs (change_y b) < 0.08 ->
    change_x (run_ball frames b) = 0 /\ change_y (run_ball frames b) = 0.
Proof.
  induction frames as [| [t dt] rest IH]; intros b n Hspin Hsp Hn Hx Hy.
  - cbn in Hn. inversion Hn.
  - cbn [run_ball].
    destruct (step_ball_contracts t b dt Hspin Hsp)
      as (Cx & Cy & Hspin' & Hsp').
    destruct n as [| m].
    + cbn in Hx, Hy. rewrite Rmult_1_l in Hx, Hy.
      destruct (step_ball_stops t b dt Hspin Hx Hy) as (Zx & Zy).
      apply run_ball_stays_at_rest; assumption.
    + cbn [length] in Hn. apply (IH _ m Hspin' Hsp').
      * apply PeanoNat.lt_S_n, Hn.
      * assert (Hp : 0 <= FRICTION ^ m)
          by (apply pow_le; unfold FRICTION; lra).
        cbn [pow] in Hx.
        assert (FRICTION ^ m * Rabs (change_x (fst (step_ball t b dt)))
                <= FRICTION ^ m * (FRICTION * Rabs (change_x b)))
          by (apply Rmult_le_compat_l; assumption).
        lra.
      * assert (Hp : 0 <= FRICTION ^ m)
          by (apply pow_le; unfold FRICTION; lra).
        cbn [pow] in Hy.
        assert (FRICTION ^ m * Rabs (change_y (fst (step_ball t b dt)))
                <= FRICTION ^ m * (FRICTION * Rabs (change_y b)))
          by (apply Rmult_le_compat_l; assumption).
        lra.
Qed.

(** X7: a spin-free ball alone on the table comes to rest.  If its speed
    is at most [1970], there is a number of frames [N] after which it has
    zero velocity, whatever the frame times; [N] can be any number with
    [FRICTION ^ (N - 1) * speed < 0.08]. *)
Theorem lone_ball_comes_to_rest (b : Ball) :
  spin_free b -> speed_of b <= 1970 ->
  (forall (n : nat) (frames : list (R * R)),
      FRICTION ^ n * speed_of b < 0.08 ->
      (n < length frames)%nat ->
      change_x (run_ball frames b) = 0 /\ change_y (run_ball frames b) = 0) /\
  exists N : nat,
    forall frames : list (R * R),
      (N <= length frames)%nat ->
      change_x (run_ball frames b) = 0 /\ change_y (run_ball frames b) = 0.
Proof.
  intros Hspin Hsp.
  assert (Hmain : forall (n : nat) (frames : list (R * R)),
             FRICTION ^ n * speed_of b < 0.08 ->
             (n < length frames)%nat ->
             change_x (run_ball frames b) = 0 /\
             change_y (run_ball frames b) = 0).
  { intros n frames Hn Hlen.
    destruct (component_le_speed b) as [Cx Cy].
    assert (Hp : 0 <= FRICTION ^ n) by (apply pow_le; unfold FRICTION; lra).
    apply (run_ball_comes_to_rest frames b n Hspin Hsp Hlen).
    - assert (FRICTION ^ n * Rabs (change_x b) <= FRICTION ^ n * speed_of b)
        by (apply Rmult_le_compat_l; assumption).
      lra.
    - assert (FRICTION ^ n * Rabs (change_y b) <= FRICTION ^ n * speed_of b)
        by (apply Rmult_le_compat_l; assumption).
      lra. }
  split; [exact Hmain |].
  pose proof (speed_of_nonneg b) as H0.
  assert (HF : Rabs FRICTION < 1)
    by (unfold FRICTION; rewrite Rabs_right; lra).
  assert (Hy : 0 < 0.08 / (speed_of b + 1))
    by (apply Rdiv_lt_0_compat; lra).
  destruct (pow_lt_1_zero FRICTION HF (0.08 / (speed_of b + 1)) Hy)
    as [N HN].
  exists (S N). intros frames Hlen.
  apply (Hmain N frames); [| exact Hlen].
  specialize (HN N (Nat.le_refl N)).
  assert (Hp : 0 <= FRICTION ^ N) by (apply pow_le; unfold FRICTION; lra).
  rewrite Rabs_right in HN by lra.
  apply (Rmult_lt_compat_r (speed_of b + 1)) in HN; [| lra].
  unfold Rdiv in HN. rewrite Rmult_assoc, Rinv_l, Rmult_1_r in HN by lra.
  nra.
Qed.

Lemma lone_ball_comes_to_rest_witness :
  exists N : nat,
    forall frames : list (R * R),
      (N <= length frames)%nat ->
      change_x (run_ball frames cue_shot) = 0 /\
      change_y (run_ball frames cue_shot) = 0.
Proof.
  apply (proj2 (lone_ball_comes_to_rest cue_shot
                  (proj2 cue_shot_calm) (proj1 cue_shot_calm))).
Defined.

(** * The game loop *)

(** ** The pass over all pairs *)

(** What [resolve_ball_collision] never touches. *)
Lemma resolve_frame (b1 b2 b1' b2' : Ball) :
  resolve_ball_collision b1 b2 = Some (b1', b2') ->
  mass b1' = mass b1 /\ mass b2' = mass b2 /\
  in_pocket b1' = in_pocket b1 /\ in_pocket b2' = in_pocket b2.
Proof.
  unfold resolve_ball_collision. cbv zeta.
  repeat match goal with
         | |- context [if ?c then _ else _] => destruct c
         end;
    intros H; try discriminate; injection H as <- <-;
    repeat split; reflexivity.
Qed.

(** For two balls of positive mass the call returns, and the pair keeps
    its momentum and does not gain kinetic energy. *)
Lemma resolve_pair_balance (b1 b2 : Ball) :
  0 < mass b1 -> 0 < mass b2 ->
  exists b1' b2',
    resolve_ball_collision b1 b2 = Some (b1', b2') /\
    momentum_x_of b1' + momentum_x_of b2'
    = momentum_x_of b1 + momentum_x_of b2 /\
    momentum_y_of b1' + momentum_y_of b2'
    = momentum_y_of b1 + momentum_y_of b2 /\
    kinetic_energy b1' + kinetic_energy b2'
    <= kinetic_energy b1 + kinetic_energy b2.
Proof.
  intros Hm1 Hm2.
  destruct (contact_or_far b1 b2) as [Hfar | [Hnz Hle]].
  - exists b1, b2. rewrite (resolve_far _ _ Hfar).
    split; [reflexivity |]. split; [reflexivity |].
    split; [reflexivity | lra].
  - assert (Hm : mass b1 + mass b2 <> 0) by lra.
    destruct (resolve_contact b1 b2 Hnz Hle Hm)
      as (b1' & b2' & Hres & _ & _ & _ & _ & E1 & E2 & Hv).
    exists b1', b2'. split; [exact Hres |].
    unfold momentum_x_of, momentum_y_of, kinetic_energy. rewrite E1, E2.
    destruct Hv as [(_ & V1 & V2 & V3 & V4) | (Hs & V1 & V2 & V3 & V4)];
      rewrite V1, V2, V3, V4; [repeat split; lra |].
    split; [lra |]. split; [lra |].
    pose proof (unit_normal (center_x b2 - center_x b1)
                  (center_y b2 - center_y b1)) as Hn.
    fold (centre_distance b1 b2) in Hn. specialize (Hn Hnz).
    set (nx := (center_x b2 - center_x b1) / centre_distance b1 b2) in *.
    set (ny := (center_y b2 - center_y b1) / centre_distance b1 b2) in *.
    set (s := (change_x b2 - change_x b1) * nx
              + (change_y b2 - change_y b1) * ny) in *.
    set (J := 2 * s / (mass b1 + mass b2) * 0.9) in *.
    assert (HJ : J * (mass b1 + mass b2) = 1.8 * s)
      by (apply impulse_scaled, Hm).
    rewrite (energy_after_impulse (mass b1) (mass b2) (change_x b1)
               (change_y b1) (change_x b2) (change_y b2) nx ny J s
               Hn eq_refl HJ).
    assert (HJs : 0 <= J * s).
    { assert (H0 : 0 <= J * J * (mass b1 + mass b2))
        by (apply Rmult_le_pos; [nra | lra]).
      replace (J * J * (mass b1 + mass b2))
        with (J * (J * (mass b1 + mass b2))) in H0 by lra.
      rewrite HJ in H0. lra. }
    assert (Hmm : 0 <= mass b1 * mass b2 * (J * s)).
    { apply Rmult_le_pos; [apply Rmult_le_pos; lra | exact HJs]. }
    lra.
Qed.

Lemma ball_of_set_ball (v : GameView) (i k : nat) (b : Ball) :
  ball_of (set_ball v i b) k = if Nat.eqb k i then b else ball_of v k.
Proof.
  unfold ball_of, set_ball, store_set. cbn.
  destruct (Nat.eqb k i); reflexivity.
Qed.

Lemma objects_set_ball_other (v : GameView) (i k : nat) (b : Ball) :
  k <> i -> objects (set_ball v i b) k = objects v k.
Proof.
  intros H. unfold set_ball, store_set. cbn.
  apply Nat.eqb_neq in H. rewrite H. reflexivity.
Qed.

Lemma sum_list_cons (g : nat -> R) (a : nat) (l : list nat) :
  sum_list g (a :: l) = g a + sum_list g l.
Proof. reflexivity. Qed.

Lemma sum_list_zero (g : nat -> R) (ids : list nat) :
  (forall k, In k ids -> g k = 0) -> sum_list g ids = 0.
Proof.
  induction ids as [| a l IH]; intros H.
  - reflexivity.
  - rewrite sum_list_cons, (H a (or_introl eq_refl)), IH; [lra |].
    intros k Hk. apply H. right. exact Hk.
Qed.

Lemma sum_list_one (g : nat -> R) (ids : list nat) (i : nat) :
  NoDup ids -> In i ids ->
  (forall k, In k ids -> k <> i -> g k = 0) ->
  sum_list g ids = g i.
Proof.
  induction ids as [| a l IH]; intros Hnd Hin H.
  - destruct Hin.
  - inversion Hnd as [| a' l' Ha Hl]; subst. rewrite sum_list_cons.
    destruct Hin as [-> | Hin].
    + rewrite sum_list_zero; [lra |].
      intros k Hk. apply H; [right; exact Hk |].
      intros ->. contradiction.
    + rewrite (H a); [| left; reflexivity | intros ->; contradiction].
      rewrite IH; [lra | exact Hl | exact Hin |].
      intros k Hk Hne. apply H; [right; exact Hk | exact Hne].
Qed.

Lemma sum_list_two (g : nat -> R) (ids : list nat) (i j : nat) :
  NoDup ids -> In i ids -> In j ids -> i <> j ->
  (forall k, In k ids -> k <> i -> k <> j -> g k = 0) ->
  sum_list g ids = g i + g j.
Proof.
  induction ids as [| a l IH]; intros Hnd Hi Hj Hij H.
  - destruct Hi.
  - inversion Hnd as [| a' l' Ha Hl]; subst. rewrite sum_list_cons.
    destruct Hi as [-> | Hi]; [| destruct Hj as [-> | Hj]].
    + destruct Hj as [-> | Hj]; [contradiction |].
      rewrite (sum_list_one g l j Hl Hj); [lra |].
      intros k Hk Hne. apply H; [right; exact Hk | | exact Hne].
      intros ->. contradiction.
    + rewrite (sum_list_one g l i Hl Hi); [lra |].
      intros k Hk Hne. apply H; [right; exact Hk | exact Hne |].
      intros ->. contradiction.
    + rewrite (H a); [| left; reflexivity
                      | intros ->; contradiction
                      | intros ->; contradiction].
      rewrite IH; [lra | assumption .. |].
      intros k Hk. apply H. right. exact Hk.
Qed.

Lemma sum_over_difference (f : Ball -> R) (v v' : GameView) (ids : list nat) :
  sum_over f v' ids - sum_over f v ids
  = sum_list (fun k => f (ball_of v' k) - f (ball_of v k)) ids.
Proof.
  unfold sum_over, sum_list. induction ids as [| a l IH]; cbn; [lra |].
  lra.
Qed.

Lemma pass_keeps_refl (ids : list nat) (v : GameView) : pass_keeps ids v v.
Proof. unfold pass_keeps. repeat split; reflexivity. Qed.

Lemma pass_keeps_trans (ids : list nat) (v1 v2 v3 : GameView) :
  pass_keeps ids v1 v2 -> pass_keeps ids v2 v3 -> pass_keeps ids v1 v3.
Proof.
  intros (B1 & M1 & P1 & O1 & Q1 & X1 & Y1 & K1)
         (B2 & M2 & P2 & O2 & Q2 & X2 & Y2 & K2).
  unfold pass_keeps.
  split; [congruence |].
  split; [intros k; rewrite M2; apply M1 |].
  split; [intros k; rewrite P2; apply P1 |].
  split; [intros k Hk; rewrite (O2 k Hk); apply (O1 k Hk) |].
  split.
  { intros k Hk. rewrite Q2; [apply Q1, Hk |]. rewrite P1. exact Hk. }
  split; [congruence |]. split; [congruence | lra].
Qed.

Lemma sum_over_pair (f : Ball -> R) (v v' : GameView) (ids : list nat)
    (i j : nat) :
  NoDup ids -> In i ids -> In j ids -> i <> j ->
  (forall k, k <> i -> k <> j -> ball_of v' k = ball_of v k) ->
  sum_over f v' ids - sum_over f v ids
  = (f (ball_of v' i) - f (ball_of v i))
    + (f (ball_of v' j) - f (ball_of v j)).
Proof.
  intros Hnd Hi Hj Hij H. rewrite sum_over_difference.
  apply (sum_list_two (fun k => f (ball_of v' k) - f (ball_of v k))
           ids i j Hnd Hi Hj Hij).
  intros k _ Hki Hkj. rewrite (H k Hki Hkj). lra.
Qed.

(** One pair of distinct balls of positive mass. *)
Lemma collide_pair_keeps (ids : list nat) (v : GameView) (i j : nat) :
  NoDup ids -> In i ids -> In j ids -> i <> j ->
  0 < mass (ball_of v i) -> 0 < mass (ball_of v j) ->
  exists v', collide_pair v i j = Some v' /\ pass_keeps ids v v'.
Proof.
  intros Hnd Hi Hj Hij Hmi Hmj. unfold collide_pair. cbv zeta.
  destruct (in_pocket (ball_of v i) || in_pocket (ball_of v j)) eqn:Hpot;
    [exists v; split; [reflexivity | apply pass_keeps_refl] |].
  apply orb_false_elim in Hpot. destruct Hpot as [Hpi Hpj].
  match goal with
  | |- context [Rltb ?a ?b] => destruct (Rltb a b)
  end; [| exists v; split; [reflexivity | apply pass_keeps_refl]].
  destruct (resolve_pair_balance (ball_of v i) (ball_of v j) Hmi Hmj)
    as (b1 & b2 & Hres & Hpx & Hpy & Hke).
  destruct (resolve_frame _ _ _ _ Hres) as (M1 & M2 & P1 & P2).
  rewrite Hres.
  set (v2 := set_ball (set_ball v i b1) j b2).
  assert (Hv2 : pass_keeps ids v v2).
  { assert (Bi : ball_of v2 i = b1).
    { unfold v2. rewrite !ball_of_set_ball.
      apply Nat.eqb_neq in Hij. rewrite Hij, Nat.eqb_refl. reflexivity. }
    assert (Bj : ball_of v2 j = b2).
    { unfold v2. rewrite ball_of_set_ball, Nat.eqb_refl. reflexivity. }
    assert (Bk : forall k, k <> i -> k <> j -> ball_of v2 k = ball_of v k).
    { intros k Hki Hkj. unfold v2. rewrite !ball_of_set_ball.
      apply Nat.eqb_neq in Hki. apply Nat.eqb_neq in Hkj.
      rewrite Hki, Hkj. reflexivity. }
    assert (Hall : forall (g : Ball -> bool),
               g b1 = g (ball_of v i) -> g b2 = g (ball_of v j) ->
               forall k, g (ball_of v2 k) = g (ball_of v k)).
    { intros g G1 G2 k.
      destruct (Nat.eq_dec k i) as [-> | Hki]; [rewrite Bi; exact G1 |].
      destruct (Nat.eq_dec k j) as [-> | Hkj]; [rewrite Bj; exact G2 |].
      rewrite (Bk k Hki Hkj). reflexivity. }
    unfold pass_keeps. split; [reflexivity |]. split.
    { intros k.
      destruct (Nat.eq_dec k i) as [-> | Hki]; [rewrite Bi; exact M1 |].
      destruct (Nat.eq_dec k j) as [-> | Hkj]; [rewrite Bj; exact M2 |].
      rewrite (Bk k Hki Hkj). reflexivity. }
    split; [apply (Hall in_pocket P1 P2) |].
    split.
    { intros k Hk. unfold v2.
      rewrite !objects_set_ball_other; [reflexivity | |];
        intros ->; contradiction. }
    split.
    { intros k Hk. unfold v2.
      rewrite !objects_set_ball_other; [reflexivity | |];
        intros ->; congruence. }
    pose proof (sum_over_pair momentum_x_of v v2 ids i j Hnd Hi Hj Hij Bk) as Sx.
    pose proof (sum_over_pair momentum_y_of v v2 ids i j Hnd Hi Hj Hij Bk) as Sy.
    pose proof (sum_over_pair kinetic_energy v v2 ids i j Hnd Hi Hj Hij Bk) as Sk.
    rewrite Bi, Bj in Sx, Sy, Sk.
    split; [lra |]. split; lra. }
  assert (Hshake : forall x, pass_keeps ids v (set_screen_shake v2 x)).
  { intros x. apply (pass_keeps_trans ids v v2); [exact Hv2 |].
    unfold pass_keeps. repeat split; reflexivity. }
  fold v2.
  repeat match goal with
         | |- context [if ?c then _ else _] => destruct c
         end;
    eexists; (split; [reflexivity |]); first [apply Hshake | exact Hv2].
Qed.

Lemma collide_with_keeps (ids js : list nat) :
  forall (v : GameView) (i : nat),
    NoDup ids -> In i ids -> incl js ids -> ~ In i js ->
    (forall k, In k ids -> 0 < mass (ball_of v k)) ->
    exists v', collide_with i js v = Some v' /\ pass_keeps ids v v'.
Proof.
  induction js as [| j rest IH]; intros v i Hnd Hi Hjs Hnot Hm.
  - exists v. split; [reflexivity | apply pass_keeps_refl].
  - cbn [collide_with].
    assert (Hj : In j ids) by (apply Hjs; left; reflexivity).
    assert (Hij : i <> j) by (intros ->; apply Hnot; left; reflexivity).
    destruct (collide_pair_keeps ids v i j Hnd Hi Hj Hij (Hm i Hi) (Hm j Hj))
      as (v1 & E1 & K1).
    rewrite E1.
    destruct (IH v1 i Hnd Hi) as (v2 & E2 & K2).
    + intros k Hk. apply Hjs. right. exact Hk.
    + intros Hin. apply Hnot. right. exact Hin.
    + intros k Hk. destruct K1 as (_ & M & _). rewrite M. apply Hm, Hk.
    + exists v2. split; [exact E2 |].
      apply (pass_keeps_trans ids v v1 v2 K1 K2).
Qed.

Lemma collide_all_keeps (ids l : list nat) :
  forall v : GameView,
    NoDup ids -> NoDup l -> incl l ids ->
    (forall k, In k ids -> 0 < mass (ball_of v k)) ->
    exists v', collide_all l v = Some v' /\ pass_keeps ids v v'.
Proof.
  induction l as [| i rest IH]; intros v Hnd Hl Hincl Hm.
  - exists v. split; [reflexivity | apply pass_keeps_refl].
  - cbn [collide_all]. inversion Hl as [| i' rest' Hi Hrest]; subst.
    assert (Hin : In i ids) by (apply Hincl; left; reflexivity).
    assert (Hsub : incl rest ids)
      by (intros k Hk; apply Hincl; right; exact Hk).
    destruct (collide_with_keeps ids rest v i Hnd Hin Hsub Hi Hm)
      as (v1 & E1 & K1).
    rewrite E1.
    destruct (IH v1 Hnd Hrest Hsub) as (v2 & E2 & K2).
    + intros k Hk. destruct K1 as (_ & M & _). rewrite M. apply Hm, Hk.
    + exists v2. split; [exact E2 |].
      apply (pass_keeps_trans ids v v1 v2 K1 K2).
Qed.

(** X8: the pass over all pairs of [on_update] conserves momentum.  For
    a sprite list without repetition whose balls have positive mass, the
    pass returns (no division by zero), the sum of [mass * velocity]
    over the balls is the same vector afterwards, and the pass leaves
    alone the sprite list, every mass and pocket flag, every ball not in
    the list and every ball flagged as potted. *)
Theorem collide_all_conserves_momentum (v : GameView) :
  NoDup (balls v) ->
  (forall k, In k (balls v) -> 0 < mass (ball_of v k)) ->
  exists v',
    collide_all (balls v) v = Some v' /\
    sum_over momentum_x_of v' (balls v)
    = sum_over momentum_x_of v (balls v) /\
    sum_over momentum_y_of v' (balls v)
    = sum_over momentum_y_of v (balls v) /\
    balls v' = balls v /\
    (forall k, mass (ball_of v' k) = mass (ball_of v k)) /\
    (forall k, in_pocket (ball_of v' k) = in_pocket (ball_of v k)) /\
    (forall k, ~ In k (balls v) -> objects v' k = objects v k) /\
    (forall k, in_pocket (ball_of v k) = true ->
               objects v' k = objects v k).
Proof.
  intros Hnd Hm.
  destruct (collide_all_keeps (balls v) (balls v) v Hnd Hnd
              (incl_refl _) Hm)
    as (v' & E & B & M & P & O & Q & X & Y & _).
  exists v'. repeat split; assumption.
Qed.

(** X9: the pass over all pairs never adds kinetic energy: under the
    same conditions the sum of [0.5 * mass * |velocity|^2] over the
    balls of the sprite list is not larger after the pass than
    before. *)
Theorem collide_all_energy (v : GameView) :
  NoDup (balls v) ->
  (forall k, In k (balls v) -> 0 < mass (ball_of v k)) ->
  exists v',
    collide_all (balls v) v = Some v' /\
    sum_over kinetic_energy v' (balls v)
    <= sum_over kinetic_energy v (balls v).
Proof.
  intros Hnd Hm.
  destruct (collide_all_keeps (balls v) (balls v) v Hnd Hnd
              (incl_refl _) Hm)
    as (v' & E & _ & _ & _ & _ & _ & _ & _ & K).
  exists v'. split; assumption.
Qed.

Lemma small_table_ok :
  NoDup (balls small_table) /\
  (forall k, In k (balls small_table) -> 0 < mass (ball_of small_table k)).
Proof.
  split.
  - cbn. repeat constructor; cbn; intuition discriminate.
  - cbn. intros k [<- | [<- | []]]; cbn; lra.
Qed.

Lemma collide_all_conserves_momentum_witness :
  exists v',
    collide_all (balls small_table) small_table = Some v' /\
    sum_over momentum_x_of v' (balls small_table)
    = sum_over momentum_x_of small_table (balls small_table) /\
    sum_over momentum_y_of v' (balls small_table)
    = sum_over momentum_y_of small_table (balls small_table) /\
    balls v' = balls small_table /\
    (forall k, mass (ball_of v' k) = mass (ball_of small_table k)) /\
    (forall k, in_pocket (ball_of v' k) = in_pocket (ball_of small_table k)) /\
    (forall k, ~ In k (balls small_table) ->
               objects v' k = objects small_table k) /\
    (forall k, in_pocket (ball_of small_table k) = true ->
               objects v' k = objects small_table k).
Proof.
  apply (collide_all_conserves_momentum small_table);
    apply small_table_ok.
Defined.

Lemma collide_all_energy_witness :
  exists v',
    collide_all (balls small_table) small_table = Some v' /\
    sum_over kinetic_energy v' (balls small_table)
    <= sum_over kinetic_energy small_table (balls small_table).
Proof.
  apply (collide_all_energy small_table); apply small_table_ok.
Defined.

(** ** Shots *)

Lemma sqrt_one_plus_ratio (x y : R) :
  x <> 0 ->
  sqrt (1 + (y / x)²) = sqrt (x * x + y * y) / Rabs x.
Proof.
  intros Hx.
  assert (Hxx : 0 < x * x) by nra.
  replace (1 + (y / x)²) with ((x * x + y * y) / (x * x))
    by (unfold Rsqr; field; exact Hx).
  rewrite sqrt_div_alt by exact Hxx.
  rewrite <- (sqrt_Rsqr_abs x). unfold Rsqr. reflexivity.
Qed.

Lemma hypot_pos (x y : R) : x <> 0 \/ y <> 0 -> 0 < sqrt (x * x + y * y).
Proof. intros H. apply sqrt_lt_R0. destruct H; nra. Qed.

(** The angle of [atan2] points along [(x, y)]. *)
Lemma atan2_direction (y x : R) :
  x <> 0 \/ y <> 0 ->
  cos (atan2 y x) = x / sqrt (x * x + y * y) /\
  sin (atan2 y x) = y / sqrt (x * x + y * y).
Proof.
  intros Hxy. pose proof (hypot_pos x y Hxy) as Hh.
  unfold atan2.
  destruct (Rltb 0 x) eqn:Hpos.
  - apply Rltb_true in Hpos.
    rewrite cos_atan, sin_atan, sqrt_one_plus_ratio by lra.
    rewrite Rabs_right by lra. split; field; lra.
  - apply Rltb_false in Hpos.
    destruct (Rltb x 0) eqn:Hneg.
    + apply Rltb_true in Hneg.
      assert (Hc : cos (atan (y / x)) = - x / sqrt (x * x + y * y)).
      { rewrite cos_atan, sqrt_one_plus_ratio by lra.
        rewrite Rabs_left by lra. field; lra. }
      assert (Hs : sin (atan (y / x)) = - y / sqrt (x * x + y * y)).
      { rewrite sin_atan, sqrt_one_plus_ratio by lra.
        rewrite Rabs_left by lra. field; lra. }
      destruct (Rltb y 0).
      * unfold Rminus. rewrite cos_plus, sin_plus, cos_neg, sin_neg.
        rewrite cos_PI, sin_PI, Hc, Hs. split; field; lra.
      * rewrite neg_cos, neg_sin, Hc, Hs. split; field; lra.
    + apply Rltb_false in Hneg.
      assert (Hx0 : x = 0) by lra. subst x.
      assert (Hy : y <> 0) by (destruct Hxy; [lra | assumption]).
      replace (0 * 0 + y * y) with (Rsqr y) by (unfold Rsqr; lra).
      rewrite sqrt_Rsqr_abs.
      destruct (Rltb 0 y) eqn:Hy1.
      * apply Rltb_true in Hy1. rewrite cos_PI2, sin_PI2.
        rewrite Rabs_right by lra. split; field; lra.
      * apply Rltb_false in Hy1.
        assert (Hy2 : Rltb y 0 = true) by (apply Rltb_true; lra).
        rewrite Hy2, cos_neg, sin_neg, cos_PI2, sin_PI2.
        rewrite Rabs_left by lra. split; field; lra.
Qed.

Lemma shot_power_range (a : R) :
  MIN_POWER <= Rmax (Rmin (a * MAX_POWER) MAX_POWER) MIN_POWER <= MAX_POWER.
Proof.
  split; [apply Rmax_r |].
  apply Rmax_lub; [apply Rmin_r | unfold MIN_POWER, MAX_POWER; lra].
Qed.

Lemma speed_along (p x y : R) :
  0 <= p -> x <> 0 \/ y <> 0 ->
  sqrt ((x / sqrt (x * x + y * y) * p) ^ 2
        + (y / sqrt (x * x + y * y) * p) ^ 2) = p.
Proof.
  intros Hp Hxy. pose proof (hypot_pos x y Hxy) as Hh.
  pose proof (distance_sq x y) as Hsq.
  set (d := sqrt (x * x + y * y)) in *.
  replace ((x / d * p) ^ 2 + (y / d * p) ^ 2)
    with (p * p * ((x * x + y * y) / (d * d))) by (field; lra).
  rewrite <- Hsq.
  replace (p * p * (d * d / (d * d))) with (p * p) by (field; lra).
  apply sqrt_square, Hp.
Qed.

Lemma ball_of_after_shot (v : GameView) (c : nat) (b : Ball) (now : R) :
  ball_of (set_game_state (set_last_shot_time (set_ball v c b) now)
             BALLS_MOVING) c = b.
Proof.
  change (ball_of (set_ball v c b) c = b).
  rewrite ball_of_set_ball, Nat.eqb_refl. reflexivity.
Qed.

Lemma take_shot_taken (v : GameView) (tx ty now u : R) (c : nat) :
  cue_ball v = Some c ->
  in_pocket (ball_of v c) = false ->
  tx <> center_x (ball_of v c) \/ ty <> center_y (ball_of v c) ->
  take_shot v tx ty now u
  = set_game_state
      (set_last_shot_time
         (set_ball v c
            (apply_force (ball_of v c)
               (tx - center_x (ball_of v c)) (ty - center_y (ball_of v c))
               (Rmax (Rmin (aiming_power v * MAX_POWER) MAX_POWER) MIN_POWER)
               u))
         now)
      BALLS_MOVING.
Proof.
  intros Hc Hp Hxy. unfold take_shot. rewrite Hc, Hp. cbv zeta.
  assert (Hd : Reqb (sqrt ((tx - center_x (ball_of v c))
                           * (tx - center_x (ball_of v c))
                           + (ty - center_y (ball_of v c))
                             * (ty - center_y (ball_of v c)))) 0 = false).
  { apply Reqb_false.
    assert (H : tx - center_x (ball_of v c) <> 0
                \/ ty - center_y (ball_of v c) <> 0)
      by (destruct Hxy; [left | right]; lra).
    pose proof (hypot_pos _ _ H). lra. }
  rewrite Hd. reflexivity.
Qed.

Lemma take_shot_facts (v : GameView) (tx ty now u : R) (c : nat) :
  cue_ball v = Some c ->
  in_pocket (ball_of v c) = false ->
  tx <> center_x (ball_of v c) \/ ty <> center_y (ball_of v c) ->
  -1 <= u <= 1 ->
  let dx := tx - center_x (ball_of v c) in
  let dy := ty - center_y (ball_of v c) in
  let distance := sqrt (dx * dx + dy * dy) in
  let power := Rmax (Rmin (aiming_power v * MAX_POWER) MAX_POWER) MIN_POWER in
  let cue := ball_of (take_shot v tx ty now u) c in
  MIN_POWER <= power <= MAX_POWER /\
  change_x cue = power * (dx / distance) /\
  change_y cue = power * (dy / distance) /\
  speed_of cue = power /\
  Rabs (angular_velocity cue) <= 0.1 * power /\
  center_x cue = center_x (ball_of v c) /\
  center_y cue = center_y (ball_of v c) /\
  game_state (take_shot v tx ty now u) = BALLS_MOVING.
Proof.
  intros Hc Hp Hxy Hu. cbv zeta.
  rewrite (take_shot_taken v tx ty now u c Hc Hp Hxy).
  rewrite ball_of_after_shot.
  set (dx := tx - center_x (ball_of v c)).
  set (dy := ty - center_y (ball_of v c)).
  set (power := Rmax (Rmin (aiming_power v * MAX_POWER) MAX_POWER) MIN_POWER).
  pose proof (shot_power_range (aiming_power v)) as Hpow. fold power in Hpow.
  assert (Hdir : dx <> 0 \/ dy <> 0)
    by (unfold dx, dy; destruct Hxy; [left | right]; lra).
  destruct (atan2_direction dy dx Hdir) as [Hcos Hsin].
  assert (Hpos : 0 <= power) by (unfold MIN_POWER in Hpow; lra).
  split; [exact Hpow |].
  unfold apply_force, speed_of. cbv zeta.
  cbn [change_x change_y center_x center_y angular_velocity
       set_change_x set_change_y set_angular_velocity].
  rewrite Hcos, Hsin.
  split; [lra |]. split; [lra |].
  split; [apply speed_along; assumption |].
  split.
  - replace (power * 0.1 * u) with (u * (0.1 * power)) by lra.
    rewrite scaled_abs by lra.
    assert (Rabs u <= 1) by (apply Rabs_le; lra).
    nra.
  - repeat split; reflexivity.
Qed.

(** X10: a shot launches the cue ball straight at the target with a
    clamped power.  If the cue ball is in play and the target is not its
    centre, then after [take_shot] the velocity of the cue ball is
    [power] times the unit vector towards the target, where
    [power = max(min(aiming_power * MAX_POWER, MAX_POWER), MIN_POWER)]
    lies in [[MIN_POWER, MAX_POWER]] and is the new speed; the spin is at
    most [0.1 * power] in magnitude, the position is unchanged and the
    game state is [BALLS_MOVING]. *)
Theorem take_shot_launch (v : GameView) (tx ty now u : R) (c : nat) :
  cue_ball v = Some c ->
  in_pocket (ball_of v c) = false ->
  tx <> center_x (ball_of v c) \/ ty <> center_y (ball_of v c) ->
  -1 <= u <= 1 ->
  let dx := tx - center_x (ball_of v c) in
  let dy := ty - center_y (ball_of v c) in
  let distance := sqrt (dx * dx + dy * dy) in
  let power := Rmax (Rmin (aiming_power v * MAX_POWER) MAX_POWER) MIN_POWER in
  let cue := ball_of (take_shot v tx ty now u) c in
  MIN_POWER <= power <= MAX_POWER /\
  change_x cue = power * (dx / distance) /\
  change_y cue = power * (dy / distance) /\
  speed_of cue = power /\
  Rabs (angular_velocity cue) <= 0.1 * power /\
  center_x cue = center_x (ball_of v c) /\
  center_y cue = center_y (ball_of v c) /\
  game_state (take_shot v tx ty now u) = BALLS_MOVING.
Proof. apply take_shot_facts. Qed.

Lemma small_table_cue :
  cue_ball small_table = Some 0%nat /\
  in_pocket (ball_of small_table 0) = false.
Proof. split; reflexivity. Qed.

Lemma take_shot_launch_witness :
  game_state (take_shot small_table 400 100 0 0.5) = BALLS_MOVING.
Proof.
  apply (take_shot_launch small_table 400 100 0 0.5 0
           (proj1 small_table_cue) (proj2 small_table_cue)).
  - left. cbn. lra.
  - lra.
Defined.

(** X11: a shot that cannot be taken changes nothing.  [take_shot] is a
    no-op when there is no cue ball, when the cue ball is flagged as
    potted, or when the target is exactly the centre of the cue
    ball. *)
Theorem take_shot_rejected (v : GameView) (tx ty now u : R) :
  cue_ball v = None \/
  (exists c, cue_ball v = Some c /\
             (in_pocket (ball_of v c) = true \/
              (tx = center_x (ball_of v c) /\
               ty = center_y (ball_of v c)))) ->
  take_shot v tx ty now u = v.
Proof.
  intros [Hn | (c & Hc & [Hp | [Hx Hy]])]; unfold take_shot.
  - rewrite Hn. reflexivity.
  - rewrite Hc, Hp. reflexivity.
  - rewrite Hc. destruct (in_pocket (ball_of v c)); [reflexivity |].
    cbv zeta. rewrite Hx, Hy.
    assert (Hd : Reqb (sqrt ((center_x (ball_of v c) - center_x (ball_of v c))
                             * (center_x (ball_of v c) - center_x (ball_of v c))
                             + (center_y (ball_of v c) - center_y (ball_of v c))
                               * (center_y (ball_of v c)
                                  - center_y (ball_of v c)))) 0 = true).
    { apply Reqb_true.
      replace ((center_x (ball_of v c) - center_x (ball_of v c))
               * (center_x (ball_of v c) - center_x (ball_of v c))
               + (center_y (ball_of v c) - center_y (ball_of v c))
                 * (center_y (ball_of v c) - center_y (ball_of v c)))
        with 0 by lra.
      apply sqrt_0. }
    rewrite Hd. reflexivity.
Qed.

Lemma take_shot_rejected_witness :
  take_shot small_table 100 100 0 0.5 = small_table.
Proof.
  apply (take_shot_rejected small_table 100 100 0 0.5).
  right. exists 0%nat. split; [reflexivity |].
  right. split; reflexivity.
Defined.

(** ** Scoring *)

Lemma py_int_lower (x : R) (n : Z) :
  0 <= x -> IZR n <= x -> (n <= py_int x)%Z.
Proof.
  intros H0 Hn. unfold py_int. destruct (Rle_dec 0 x) as [_ | N]; [| lra].
  unfold Int_part. destruct (archimed x) as [Hup _].
  assert (H : IZR n < IZR (up x)) by lra.
  apply lt_IZR in H. lia.
Qed.

(** X12: when the balls have stopped, [on_balls_stopped] counts the shot
    and records an accuracy of exactly 100, whatever happened (the
    number of successful shots is taken to be the number of shots); the
    combo survives only if a ball was potted since the last stop, and
    the count of consecutive pots starts again at 0. *)
Theorem on_balls_stopped_accuracy (v : GameView) :
  (0 <= shots_taken v)%Z ->
  let v' := on_balls_stopped v in
  accuracy v' = 100 /\
  shots_taken v' = (shots_taken v + 1)%Z /\
  consecutive_pots v' = 0%Z /\
  (consecutive_pots v = 0%Z -> combo v' = 0%Z) /\
  (consecutive_pots v <> 0%Z -> combo v' = combo v) /\
  score v' = score v.
Proof.
  intros Hs. cbv zeta. unfold on_balls_stopped. cbv zeta.
  cbn [shots_taken set_shots_taken].
  assert (Hpos : (0 <? shots_taken v + 1)%Z = true)
    by (apply Z.ltb_lt; lia).
  rewrite Hpos. cbn [consecutive_pots set_accuracy shots_taken].
  assert (Hnz : IZR (shots_taken v + 1) <> 0).
  { apply not_0_IZR. lia. }
  assert (Hacc : IZR (shots_taken v + 1) / IZR (shots_taken v + 1) * 100
                 = 100) by (field; exact Hnz).
  destruct (Z.eqb (consecutive_pots v) 0) eqn:Hc; cbn; rewrite ?Hc; cbn.
  - apply Z.eqb_eq in Hc.
    split; [exact Hacc |]. split; [reflexivity |]. split; [reflexivity |].
    split; [reflexivity |]. split; [intros; contradiction | reflexivity].
  - apply Z.eqb_neq in Hc.
    split; [exact Hacc |]. split; [reflexivity |]. split; [reflexivity |].
    split; [intros; contradiction |]. split; reflexivity.
Qed.

Lemma on_balls_stopped_accuracy_witness :
  accuracy (on_balls_stopped small_table) = 100.
Proof.
  apply (on_balls_stopped_accuracy small_table). cbn. lia.
Defined.

(** ** Potting *)

Lemma store_set_same (objs : nat -> BallObj) (i : nat) (o : BallObj) :
  store_set objs i o i = o.
Proof. unfold store_set. rewrite Nat.eqb_refl. reflexivity. Qed.

Lemma store_set_other (objs : nat -> BallObj) (i k : nat) (o : BallObj) :
  k <> i -> store_set objs i o k = objs k.
Proof.
  intros H. unfold store_set. apply Nat.eqb_neq in H. rewrite H. reflexivity.
Qed.

Lemma mark_potted_fields (v : GameView) (ball : nat) (now : R) :
  let v' := mark_potted v ball now in
  ledger v' = ledger v /\
  time_remaining v' = time_remaining v /\
  ball_of v' ball = set_in_pocket (ball_of v ball) true /\
  (forall k, k <> ball -> objects v' k = objects v k) /\
  (forall k, identity_of (objects v' k) = identity_of (objects v k)).
Proof.
  cbv zeta. unfold mark_potted. cbv zeta.
  split; [reflexivity |]. split; [reflexivity |].
  split.
  - unfold ball_of, set_ball. cbn. rewrite !store_set_same. reflexivity.
  - split.
    + intros k Hk. cbn. rewrite !store_set_other by exact Hk. reflexivity.
    + intros k. cbn. destruct (Nat.eq_dec k ball) as [-> | Hk].
      * rewrite !store_set_same. reflexivity.
      * rewrite !store_set_other by exact Hk. reflexivity.
Qed.

Lemma end_turn_fields (v : GameView) :
  let v' := end_turn v in
  score v' = score v /\ high_score v' = high_score v /\
  balls v' = balls v /\ cue_ball v' = cue_ball v /\
  game_state v' = game_state v /\ game_mode v' = game_mode v /\
  results_shown v' = results_shown v /\
  time_remaining v' = time_remaining v /\
  max_combo v' = max_combo v /\
  combo v' = 0%Z /\ current_turn v' = (current_turn v + 1)%Z /\
  turn_time v' = TURN_TIME_LIMIT /\
  (forall k, identity_of (objects v' k) = identity_of (objects v k)) /\
  (forall k,
      objects v' k = objects v k \/
      (cue_ball v = Some k /\ in_pocket (ball_of v k) = true /\
       objects v' k = reset (objects v k))).
Proof.
  cbv zeta. unfold end_turn. cbv zeta. cbn [cue_ball set_combo
    set_turn_time set_balls_potted_this_turn set_current_turn].
  destruct (cue_ball v) as [c |] eqn:Hc.
  - match goal with
    | |- context [if ?t then _ else _] => destruct t eqn:Hp
    end.
    + cbn. repeat (split; [first [reflexivity | assumption] |]). split.
      * intros k. destruct (Nat.eq_dec k c) as [-> | Hk].
        -- rewrite store_set_same. reflexivity.
        -- rewrite store_set_other by exact Hk. reflexivity.
      * intros k. destruct (Nat.eq_dec k c) as [-> | Hk].
        -- right. rewrite store_set_same.
           split; [reflexivity |]. split; [exact Hp | reflexivity].
        -- left. rewrite store_set_other by exact Hk. reflexivity.
    + cbn. repeat (split; [first [reflexivity | assumption] |]).
      intros k. left. reflexivity.
  - cbn. repeat (split; [first [reflexivity | assumption] |]).
    intros k. left. reflexivity.
Qed.

Lemma game_over_fields (v : GameView) (victory : bool) :
  let v' := game_over v victory in
  game_state v' = GAME_OVER /\
  high_score v' = Z.max (high_score v) (score v) /\
  score v' = score v /\ balls v' = balls v /\ cue_ball v' = cue_ball v /\
  objects v' = objects v /\ game_mode v' = game_mode v /\
  combo v' = combo v /\ max_combo v' = max_combo v /\
  time_remaining v' = time_remaining v /\
  consecutive_pots v' = consecutive_pots v /\
  balls_potted_this_turn v' = balls_potted_this_turn v /\
  results_shown v'
  = results_shown v ++
      [mkResultsView (score v) (Z.max (high_score v) (score v)) victory
                     (game_mode v) (accuracy v) (max_combo v)].
Proof.
  cbv zeta. unfold game_over. cbv zeta. cbn [high_score score set_game_state].
  destruct (Z.ltb (high_score v) (score v)) eqn:H.
  - apply Z.ltb_lt in H. cbn. rewrite Z.max_r by lia.
    repeat split; reflexivity.
  - apply Z.ltb_ge in H. cbn. rewrite Z.max_l by lia.
    repeat split; reflexivity.
Qed.

Lemma respawn_cue_fields (v : GameView) (ball : nat) :
  let v' := respawn_cue v ball in
  score v' = score v /\ high_score v' = high_score v /\
  balls v' = balls v /\ cue_ball v' = cue_ball v /\
  game_state v' = game_state v /\ game_mode v' = game_mode v /\
  results_shown v' = results_shown v /\
  time_remaining v' = time_remaining v /\
  max_combo v' = max_combo v /\ combo v' = 0%Z /\
  (forall k, identity_of (objects v' k) = identity_of (objects v k)) /\
  ball_of v' ball
  = set_in_pocket
      (set_change_y
         (set_change_x
            (set_center_y (set_center_x (ball_of v ball) 300) 350) 0) 0)
      false /\
  (forall k, k <> ball ->
             objects v' k = objects v k \/
             (in_pocket (ball_of v k) = true /\
              objects v' k = reset (objects v k))).
Proof.
  cbv zeta. unfold respawn_cue. cbv zeta.
  match goal with
  | |- context [end_turn ?x] => set (v5 := x)
  end.
  assert (Fb : ball_of v5 ball
               = set_in_pocket
                   (set_change_y
                      (set_change_x
                         (set_center_y (set_center_x (ball_of v ball) 300) 350)
                         0) 0) false).
  { unfold v5. change (ball_of (set_combo ?x 0) ball) with (ball_of x ball).
    rewrite !ball_of_set_ball, !Nat.eqb_refl. reflexivity. }
  assert (Fo : forall k, k <> ball -> objects v5 k = objects v k).
  { intros k Hk. unfold v5.
    change (objects (set_combo ?x 0) k) with (objects x k).
    rewrite !objects_set_ball_other by exact Hk. reflexivity. }
  assert (Fi : forall k, identity_of (objects v5 k) = identity_of (objects v k)).
  { intros k. destruct (Nat.eq_dec k ball) as [-> | Hk].
    - unfold v5. cbn. rewrite !store_set_same. reflexivity.
    - rewrite (Fo k Hk). reflexivity. }
  assert (Fs : score v5 = score v /\ high_score v5 = high_score v /\
               balls v5 = balls v /\ cue_ball v5 = cue_ball v /\
               game_state v5 = game_state v /\ game_mode v5 = game_mode v /\
               results_shown v5 = results_shown v /\
               time_remaining v5 = time_remaining v /\
               max_combo v5 = max_combo v /\ combo v5 = 0%Z)
    by (repeat split; reflexivity).
  destruct Fs as (S1 & S2 & S3 & S4 & S5 & S6 & S7 & S8 & S9 & S10).
  destruct (GameMode_eqb (game_mode v5) TURN_BASED).
  - destruct (end_turn_fields v5)
      as (E1 & E2 & E3 & E4 & E5 & E6 & E7 & E8 & E9 & E10 & _ & _ & Ei & Eo).
    cbv zeta in *.
    rewrite E1, E2, E3, E4, E5, E6, E7, E8, E9, E10.
    repeat (split; [first [assumption | reflexivity] |]).
    split; [intros k; rewrite Ei; apply Fi |].
    split.
    + unfold ball_of at 1.
      destruct (Eo ball) as [E | (_ & Hp & _)].
      * rewrite E. exact Fb.
      * rewrite Fb in Hp. discriminate Hp.
    + intros k Hk. destruct (Eo k) as [E | (_ & Hp & E)].
      * left. rewrite E. apply Fo, Hk.
      * right. unfold ball_of in Hp. rewrite (Fo k Hk) in Hp, E.
        split; assumption.
  - repeat (split; [first [assumption | reflexivity] |]).
    intros k Hk. left. apply Fo, Hk.
Qed.

Lemma score_ball_fields (v : GameView) (ball : nat) :
  let v' := score_ball v ball in
  let ends := BallType_eqb (ball_type (objects v ball)) EIGHT
              && GameMode_eqb (game_mode v) TURN_BASED in
  score v'
  = (score v + py_int (IZR (100 + bonus_of (objects v ball))
                       * (1 + IZR (combo v) * 0.2)))%Z /\
  combo v' = (combo v + 1)%Z /\
  max_combo v' = Z.max (max_combo v) (combo v + 1) /\
  consecutive_pots v' = (consecutive_pots v + 1)%Z /\
  balls_potted_this_turn v' = (balls_potted_this_turn v + 1)%Z /\
  balls v' = filter (fun i => negb (Nat.eqb i ball)) (balls v) /\
  objects v' = objects v /\ cue_ball v' = cue_ball v /\
  game_mode v' = game_mode v /\ time_remaining v' = time_remaining v /\
  (ends = true ->
   game_state v' = GAME_OVER /\
   high_score v' = Z.max (high_score v) (score v) /\
   results_shown v'
   = results_shown v ++
       [mkResultsView (score v) (Z.max (high_score v) (score v)) true
                      (game_mode v) (accuracy v) (max_combo v)]) /\
  (ends = false ->
   game_state v' = game_state v /\ high_score v' = high_score v /\
   results_shown v' = results_shown v).
Proof.
  cbv zeta. unfold score_ball, bonus_of. cbv zeta.
  destruct (BallType_eqb (ball_type (objects v ball)) EIGHT) eqn:H8.
  - destruct (GameMode_eqb (game_mode v) TURN_BASED) eqn:Hm.
    + destruct (game_over_fields v true)
        as (G1 & G2 & G3 & G4 & G5 & G6 & G7 & G8 & G9 & G10 & G12 & G13 & G11).
      cbv zeta in *.
      set (w := game_over v true) in *. clearbody w.
      destruct (Z.leb 3 (combo w + 1)) eqn:Hc;
        cbn; rewrite ?Hc; cbn; rewrite ?G1, ?G2, ?G3, ?G4, ?G5, ?G6, ?G7, ?G8,
          ?G9, ?G10, ?G11, ?G12, ?G13;
        repeat (split; [reflexivity |]);
        (split; [intros _; repeat split; reflexivity | intros H; discriminate H]).
    + destruct (Z.leb 3 (combo v + 1)) eqn:Hc;
        cbn; rewrite ?Hc; cbn;
        repeat (split; [reflexivity |]);
        (split; [intros H; discriminate H | intros _; repeat split; reflexivity]).
  - cbn [andb].
    destruct (BallType_eqb (ball_type (objects v ball)) SPECIAL);
      [| destruct (Z.eqb (number (objects v ball)) 7
                   || Z.eqb (number (objects v ball)) 15)];
      (destruct (Z.leb 3 (combo v + 1)) eqn:Hc;
       cbn; rewrite ?Hc; cbn;
       repeat (split; [reflexivity |]);
       (split; [intros H; discriminate H | intros _; repeat split; reflexivity])).
Qed.

Lemma mark_potted_type (v : GameView) (ball k : nat) (now : R) :
  ball_type (objects (mark_potted v ball now) k) = ball_type (objects v k) /\
  number (objects (mark_potted v ball now) k) = number (objects v k).
Proof.
  destruct (mark_potted_fields v ball now) as (_ & _ & _ & _ & Hi).
  specialize (Hi k). unfold identity_of in Hi. inversion Hi.
  split; reflexivity.
Qed.

Lemma on_ball_potted_cue_eq (v : GameView) (ball : nat) (px py now : R) :
  ball_type (objects v ball) = CUE ->
  on_ball_potted v ball px py now = respawn_cue (mark_potted v ball now) ball.
Proof.
  intros H. unfold on_ball_potted. cbv zeta.
  rewrite (proj1 (mark_potted_type v ball ball now)), H. reflexivity.
Qed.

Lemma BallType_eqb_neq (a b : BallType) : a <> b -> BallType_eqb a b = false.
Proof. intros H. destruct a, b; try reflexivity; contradiction. Qed.

Lemma on_ball_potted_object_eq (v : GameView) (ball : nat) (px py now : R) :
  ball_type (objects v ball) <> CUE ->
  on_ball_potted v ball px py now = score_ball (mark_potted v ball now) ball.
Proof.
  intros H. unfold on_ball_potted. cbv zeta.
  rewrite (proj1 (mark_potted_type v ball ball now)).
  rewrite (BallType_eqb_neq _ _ H). reflexivity.
Qed.

Lemma ledger_fields (v v' : GameView) :
  ledger v' = ledger v ->
  game_state v' = game_state v /\ game_mode v' = game_mode v /\
  balls v' = balls v /\ cue_ball v' = cue_ball v /\ score v' = score v /\
  high_score v' = high_score v /\ combo v' = combo v /\
  max_combo v' = max_combo v /\
  consecutive_pots v' = consecutive_pots v /\
  balls_potted_this_turn v' = balls_potted_this_turn v /\
  current_turn v' = current_turn v /\ shots_taken v' = shots_taken v /\
  results_shown v' = results_shown v.
Proof. unfold ledger. intros H. inversion H. repeat split; reflexivity. Qed.

(** X13: potting the cue ball costs no points.  [on_ball_potted] on a
    ball of type [CUE] puts it back at [(300, 350)] at rest and in play,
    with the spin it had; the ball stays in the sprite list, the score
    and the high score are unchanged, no result screen is shown, and the
    combo is reset to 0. *)
Theorem on_ball_potted_cue (v : GameView) (ball : nat) (px py now : R) :
  ball_type (objects v ball) = CUE ->
  let v' := on_ball_potted v ball px py now in
  center_x (ball_of v' ball) = 300 /\ center_y (ball_of v' ball) = 350 /\
  change_x (ball_of v' ball) = 0 /\ change_y (ball_of v' ball) = 0 /\
  in_pocket (ball_of v' ball) = false /\
  angular_velocity (ball_of v' ball) = angular_velocity (ball_of v ball) /\
  balls v' = balls v /\ score v' = score v /\
  high_score v' = high_score v /\ results_shown v' = results_shown v /\
  game_state v' = game_state v /\ combo v' = 0%Z.
Proof.
  intros Ht. cbv zeta. rewrite (on_ball_potted_cue_eq v ball px py now Ht).
  destruct (mark_potted_fields v ball now) as (L & _ & Mb & _ & _).
  destruct (ledger_fields _ _ L)
    as (L1 & L2 & L3 & L4 & L5 & L6 & L7 & L8 & _ & _ & _ & _ & L13).
  destruct (respawn_cue_fields (mark_potted v ball now) ball)
    as (R1 & R2 & R3 & R4 & R5 & R6 & R7 & _ & _ & R10 & _ & Rb & _).
  cbv zeta in *. rewrite Rb, Mb, R1, R2, R3, R5, R7, R10.
  cbn. repeat split; first [reflexivity | assumption].
Qed.

Lemma py_int_IZR_scaled (n c : Z) :
  (0 <= n)%Z -> (0 <= c)%Z ->
  (n <= py_int (IZR n * (1 + IZR c * 0.2)))%Z.
Proof.
  intros Hn Hc. apply IZR_le in Hn. apply IZR_le in Hc.
  apply py_int_lower; nra.
Qed.

Lemma py_int_IZR (n : Z) : (0 <= n)%Z -> py_int (IZR n * (1 + 0 * 0.2)) = n.
Proof.
  intros Hn. replace (IZR n * (1 + 0 * 0.2)) with (IZR n) by lra.
  unfold py_int. apply IZR_le in Hn.
  destruct (Rle_dec 0 (IZR n)) as [_ | N]; [| lra].
  symmetry. apply Int_part_spec. lra.
Qed.

Lemma bonus_of_range (o : BallObj) :
  (0 <= bonus_of o <= 500)%Z.
Proof.
  unfold bonus_of.
  destruct (BallType_eqb (ball_type o) EIGHT); [lia |].
  destruct (BallType_eqb (ball_type o) SPECIAL); [lia |].
  destruct (Z.eqb (number o) 7 || Z.eqb (number o) 15); lia.
Qed.

Lemma bonus_of_identity (o o' : BallObj) :
  identity_of o' = identity_of o -> bonus_of o' = bonus_of o.
Proof.
  unfold identity_of, bonus_of. intros H. inversion H as [[Ht Hn Hx Hy]].
  rewrite Ht, Hn. reflexivity.
Qed.

(** What [on_ball_potted] does with a ball that is not the cue ball. *)
Lemma on_ball_potted_object_facts (v : GameView) (ball : nat) (px py now : R) :
  ball_type (objects v ball) <> CUE ->
  (0 <= combo v)%Z ->
  let v' := on_ball_potted v ball px py now in
  (score v + 100 + bonus_of (objects v ball) <= score v')%Z /\
  (combo v = 0%Z ->
   score v' = (score v + 100 + bonus_of (objects v ball))%Z) /\
  combo v' = (combo v + 1)%Z /\
  (combo v' <= max_combo v')%Z /\ (max_combo v <= max_combo v')%Z /\
  in_pocket (ball_of v' ball) = true /\
  ~ In ball (balls v') /\
  (forall k, k <> ball -> (In k (balls v') <-> In k (balls v))) /\
  (forall k, k <> ball -> objects v' k = objects v k).
Proof.
  intros Ht Hc. cbv zeta.
  rewrite (on_ball_potted_object_eq v ball px py now Ht).
  destruct (mark_potted_fields v ball now) as (L & _ & Mb & Mo & Mi).
  destruct (ledger_fields _ _ L)
    as (L1 & L2 & L3 & L4 & L5 & L6 & L7 & L8 & _).
  destruct (score_ball_fields (mark_potted v ball now) ball)
    as (S1 & S2 & S3 & _ & _ & S6 & S7 & _).
  cbv zeta in *.
  set (v1 := mark_potted v ball now) in *.
  rewrite (bonus_of_identity _ _ (Mi ball)) in S1.
  rewrite L5, L7 in S1. rewrite L7 in S2. rewrite L7, L8 in S3.
  rewrite L3 in S6.
  pose proof (bonus_of_range (objects v ball)) as Hb.
  rewrite S1, S2, S3, S6.
  split.
  { pose proof (py_int_IZR_scaled (100 + bonus_of (objects v ball))
                  (combo v)) as H.
    lia. }
  split.
  { intros H0. rewrite H0. rewrite py_int_IZR by lia. lia. }
  split; [reflexivity |]. split; [lia |]. split; [lia |].
  split.
  { unfold ball_of. rewrite S7. fold (ball_of v1 ball). rewrite Mb.
    reflexivity. }
  split.
  { intros Hin. apply filter_In in Hin. destruct Hin as [_ Hf].
    rewrite Nat.eqb_refl in Hf. discriminate Hf. }
  split.
  { intros k Hk. rewrite filter_In. apply Nat.eqb_neq in Hk. rewrite Hk.
    cbn. tauto. }
  intros k Hk. rewrite S7. apply Mo, Hk.
Qed.

(** X14: potting any other ball always pays.  For a ball that is not of
    type [CUE], with a combo that is not negative, [on_ball_potted] adds
    at least [100] points plus the bonus of the ball (500 for the eight
    ball, 300 for a special ball, 150 for the numbers 7 and 15), exactly
    that when the combo is 0; the combo grows by one and never exceeds
    the best combo; the ball is flagged as potted and leaves the sprite
    list, and no other ball leaves it or changes. *)
Theorem on_ball_potted_object (v : GameView) (ball : nat) (px py now : R) :
  ball_type (objects v ball) <> CUE ->
  (0 <= combo v)%Z ->
  let v' := on_ball_potted v ball px py now in
  (score v + 100 + bonus_of (objects v ball) <= score v')%Z /\
  (combo v = 0%Z ->
   score v' = (score v + 100 + bonus_of (objects v ball))%Z) /\
  combo v' = (combo v + 1)%Z /\
  (combo v' <= max_combo v')%Z /\ (max_combo v <= max_combo v')%Z /\
  in_pocket (ball_of v' ball) = true /\
  ~ In ball (balls v') /\
  (forall k, k <> ball -> (In k (balls v') <-> In k (balls v))) /\
  (forall k, k <> ball -> objects v' k = objects v k).
Proof. exact (on_ball_potted_object_facts v ball px py now). Qed.

(** X15: in turn-based play the eight ball ends the game before it is
    counted.  [on_ball_potted] on a ball of type [EIGHT] in the mode
    [TURN_BASED] sets the state [GAME_OVER] and shows one more result
    screen, a victory, but this screen and the high score are built from
    the score as it was before the points of the eight ball are
    added. *)
Theorem on_ball_potted_eight (v : GameView) (ball : nat) (px py now : R) :
  ball_type (objects v ball) = EIGHT ->
  game_mode v = TURN_BASED ->
  (0 <= combo v)%Z ->
  let v' := on_ball_potted v ball px py now in
  game_state v' = GAME_OVER /\
  high_score v' = Z.max (high_score v) (score v) /\
  (score v + 600 <= score v')%Z /\
  exists shown,
    results_shown v' = results_shown v ++ [shown] /\
    rv_victory shown = true /\
    rv_score shown = score v /\
    rv_high_score shown = Z.max (high_score v) (score v).
Proof.
  intros Ht Hm Hc. cbv zeta.
  assert (Hne : ball_type (objects v ball) <> CUE)
    by (rewrite Ht; discriminate).
  rewrite (on_ball_potted_object_eq v ball px py now Hne).
  destruct (mark_potted_fields v ball now) as (L & _ & _ & _ & Mi).
  destruct (ledger_fields _ _ L)
    as (L1 & L2 & L3 & L4 & L5 & L6 & L7 & L8 & _ & _ & _ & _ & L13).
  destruct (score_ball_fields (mark_potted v ball now) ball)
    as (S1 & _ & _ & _ & _ & _ & _ & _ & _ & _ & Sends & _).
  cbv zeta in *.
  set (v1 := mark_potted v ball now) in *.
  assert (Ht1 : ball_type (objects v1 ball) = EIGHT).
  { pose proof (Mi ball) as H. unfold identity_of in H. inversion H.
    congruence. }
  assert (Hb : bonus_of (objects v1 ball) = 500%Z)
    by (unfold bonus_of; rewrite Ht1; reflexivity).
  rewrite Ht1, L2, Hm in Sends. specialize (Sends eq_refl).
  destruct Sends as (G1 & G2 & G3).
  rewrite L5, L6 in G2. rewrite L5, L6, L13 in G3.
  rewrite Hb, L5, L7 in S1.
  split; [exact G1 |]. split; [exact G2 |]. split.
  { rewrite S1. pose proof (py_int_IZR_scaled (100 + 500) (combo v)) as H.
    lia. }
  eexists. split; [exact G3 |]. cbn. repeat split; reflexivity.
Qed.

Lemma on_ball_potted_cue_witness :
  score (on_ball_potted small_table 0 60 60 0) = score small_table.
Proof.
  apply (on_ball_potted_cue small_table 0 60 60 0). reflexivity.
Defined.

Lemma on_ball_potted_object_witness :
  (score small_table + 100 + bonus_of (objects small_table 1)
   <= score (on_ball_potted small_table 1 60 60 0))%Z.
Proof.
  apply (on_ball_potted_object small_table 1 60 60 0).
  - cbn. discriminate.
  - cbn. lia.
Defined.

Lemma on_ball_potted_eight_witness :
  game_state (on_ball_potted eight_table 1 60 60 0) = GAME_OVER.
Proof.
  apply (on_ball_potted_eight eight_table 1 60 60 0).
  - reflexivity.
  - reflexivity.
  - cbn. lia.
Defined.

Lemma pot_keeps_refl (v : GameView) : pot_keeps v v.
Proof.
  unfold pot_keeps. split; [apply incl_refl |].
  split; [intros k Hk _; exact Hk |].
  split; [reflexivity |]. split; [reflexivity |]. lia.
Qed.

Lemma pot_keeps_trans (v1 v2 v3 : GameView) :
  pot_keeps v1 v2 -> pot_keeps v2 v3 -> pot_keeps v1 v3.
Proof.
  intros (I1 & C1 & D1 & Q1 & S1 & H1) (I2 & C2 & D2 & Q2 & S2 & H2).
  unfold pot_keeps.
  split; [intros k Hk; apply I1, I2, Hk |].
  split.
  { intros k Hk Ht. apply C2; [apply C1; assumption |].
    pose proof (D1 k) as E. unfold identity_of in E.
    inversion E as [[E1 E2 E3 E4]]. congruence. }
  split; [intros k; rewrite D2; apply D1 |].
  split; [congruence |]. lia.
Qed.

Lemma identity_type (o o' : BallObj) :
  identity_of o' = identity_of o -> ball_type o' = ball_type o.
Proof. unfold identity_of. intros H. inversion H. reflexivity. Qed.

Lemma BallType_dec (t : BallType) : t = CUE \/ t <> CUE.
Proof. destruct t; [left; reflexivity | right; discriminate ..]. Qed.

(** One call of [on_ball_potted], whatever the ball. *)
Lemma on_ball_potted_step (v : GameView) (ball : nat) (px py now : R) :
  (0 <= combo v)%Z ->
  let v' := on_ball_potted v ball px py now in
  pot_keeps v v' /\ (0 <= combo v')%Z /\
  (forall k, k <> ball -> in_pocket (ball_of v k) = false ->
             objects v' k = objects v k) /\
  (ball_type (objects v ball) = CUE -> in_pocket (ball_of v' ball) = false) /\
  (ball_type (objects v ball) <> CUE -> ~ In ball (balls v')).
Proof.
  intros Hc. cbv zeta.
  destruct (mark_potted_fields v ball now) as (L & _ & Mb & Mo & Mi).
  destruct (ledger_fields _ _ L)
    as (L1 & L2 & L3 & L4 & L5 & L6 & L7 & L8 & _).
  destruct (BallType_dec (ball_type (objects v ball))) as [Ht | Ht].
  - rewrite (on_ball_potted_cue_eq v ball px py now Ht).
    destruct (respawn_cue_fields (mark_potted v ball now) ball)
      as (R1 & R2 & R3 & R4 & _ & _ & _ & _ & _ & R10 & Ri & Rb & Ro).
    cbv zeta in *. set (v1 := mark_potted v ball now) in *.
    split.
    { unfold pot_keeps. rewrite R1, R2, R3, R4, L3, L4, L5, L6.
      split; [apply incl_refl |]. split; [intros k Hk _; exact Hk |].
      split; [intros k; rewrite Ri; apply Mi |].
      split; [reflexivity |]. lia. }
    split; [rewrite R10; lia |].
    split.
    { intros k Hk Hp. destruct (Ro k Hk) as [E | (Hp1 & _)].
      - rewrite E. apply Mo, Hk.
      - unfold ball_of in Hp1. rewrite (Mo k Hk) in Hp1.
        unfold ball_of in Hp. congruence. }
    split; [intros _; rewrite Rb; reflexivity | intros H; contradiction].
  - destruct (on_ball_potted_object_facts v ball px py now Ht Hc)
      as (Sc & _ & Cb & _ & _ & _ & Hnot & Hin & Hobj).
    cbv zeta in *.
    rewrite (on_ball_potted_object_eq v ball px py now Ht) in *.
    destruct (score_ball_fields (mark_potted v ball now) ball)
      as (_ & _ & _ & _ & _ & S6 & S7 & S8 & _ & _ & Se1 & Se2).
    cbv zeta in *. set (v1 := mark_potted v ball now) in *.
    pose proof (bonus_of_range (objects v ball)) as Hb.
    split.
    { unfold pot_keeps.
      split.
      { intros k Hk. rewrite S6, L3 in Hk. apply filter_In in Hk.
        apply Hk. }
      split.
      { intros k Hk Hkt. apply Hin; [| exact Hk]. intros ->. contradiction. }
      split; [intros k; rewrite S7; apply Mi |].
      split; [rewrite S8; exact L4 |].
      split; [lia |].
      destruct (BallType_eqb (ball_type (objects v1 ball)) EIGHT
                && GameMode_eqb (game_mode v1) TURN_BASED).
      - destruct (Se1 eq_refl) as (_ & E & _). rewrite E, L6. lia.
      - destruct (Se2 eq_refl) as (_ & E & _). rewrite E, L6. lia. }
    split; [rewrite Cb; lia |].
    split; [intros k Hk _; apply Hobj, Hk |].
    split; [intros H; contradiction | intros _; exact Hnot].
Qed.

Lemma table_in_play_step (v : GameView) (ball : nat) (px py now : R) :
  table_in_play v -> table_in_play (on_ball_potted v ball px py now).
Proof.
  intros [Hin Hc].
  destruct (on_ball_potted_step v ball px py now Hc)
    as ((I & _) & Hc' & Ho & Hcue & Hobj).
  cbv zeta in *. split; [| exact Hc'].
  intros k Hk. destruct (Nat.eq_dec k ball) as [-> | Hne].
  - destruct (BallType_dec (ball_type (objects v ball))) as [Ht | Ht].
    + apply Hcue, Ht.
    + exfalso. apply (Hobj Ht), Hk.
  - unfold ball_of. rewrite (Ho k Hne); apply Hin, I, Hk.
Qed.

Lemma pot_balls_keeps (clock : nat -> R) (snapshot : list nat) :
  forall v : GameView,
    table_in_play v ->
    table_in_play (pot_balls snapshot v clock) /\
    pot_keeps v (pot_balls snapshot v clock).
Proof.
  induction snapshot as [| b rest IH]; intros v Hv.
  - cbn. split; [exact Hv | apply pot_keeps_refl].
  - cbn [pot_balls].
    destruct (check_pocket (ball_of v b) pocket_locations) as [[px py] |].
    + pose proof (table_in_play_step v b px py (clock b) Hv) as Hv1.
      destruct (on_ball_potted_step v b px py (clock b) (proj2 Hv))
        as (K1 & _).
      cbv zeta in K1.
      destruct (IH _ Hv1) as (Hv2 & K2).
      split; [exact Hv2 | apply (pot_keeps_trans _ _ _ K1 K2)].
    + apply IH, Hv.
Qed.

Lemma pot_balls_frame (clock : nat -> R) (snapshot : list nat) :
  forall (v : GameView) (k : nat),
    table_in_play v -> ~ In k snapshot ->
    In k (balls (pot_balls snapshot v clock)) ->
    objects (pot_balls snapshot v clock) k = objects v k.
Proof.
  induction snapshot as [| b rest IH]; intros v k Hv Hk Hin.
  - reflexivity.
  - cbn [pot_balls] in *.
    assert (Hkb : k <> b) by (intros ->; apply Hk; left; reflexivity).
    assert (Hkr : ~ In k rest) by (intros H; apply Hk; right; exact H).
    destruct (check_pocket (ball_of v b) pocket_locations) as [[px py] |].
    + pose proof (table_in_play_step v b px py (clock b) Hv) as Hv1.
      destruct (on_ball_potted_step v b px py (clock b) (proj2 Hv))
        as ((I1 & _) & _ & Ho & _).
      cbv zeta in *.
      destruct (pot_balls_keeps clock rest _ Hv1) as (_ & (I2 & _)).
      rewrite (IH _ k Hv1 Hkr Hin).
      apply (Ho k Hkb). apply (proj1 Hv), I1, I2, Hin.
    + apply (IH v k Hv Hkr Hin).
Qed.

Lemma pot_balls_clears (clock : nat -> R) (snapshot : list nat) :
  forall (v : GameView) (k : nat),
    table_in_play v -> In k snapshot ->
    In k (balls (pot_balls snapshot v clock)) ->
    ball_type (objects v k) <> CUE ->
    first_pocket (ball_of (pot_balls snapshot v clock) k) pocket_locations
    = None.
Proof.
  induction snapshot as [| b rest IH]; intros v k Hv Hk Hin Ht.
  - destruct Hk.
  - cbn [pot_balls] in *.
    destruct (in_dec Nat.eq_dec k rest) as [Hr | Hr].
    + destruct (check_pocket (ball_of v b) pocket_locations) as [[px py] |].
      * pose proof (table_in_play_step v b px py (clock b) Hv) as Hv1.
        destruct (on_ball_potted_step v b px py (clock b) (proj2 Hv))
          as ((_ & _ & Hi & _) & _).
        cbv zeta in *.
        apply (IH _ k Hv1 Hr Hin).
        rewrite (identity_type _ _ (Hi k)). exact Ht.
      * apply (IH v k Hv Hr Hin Ht).
    + destruct Hk as [<- | Hk]; [| contradiction].
      destruct (check_pocket (ball_of v b) pocket_locations)
        as [[px py] |] eqn:Hcp.
      * exfalso.
        pose proof (table_in_play_step v b px py (clock b) Hv) as Hv1.
        destruct (on_ball_potted_step v b px py (clock b) (proj2 Hv))
          as (_ & _ & _ & _ & Hout).
        cbv zeta in *.
        destruct (pot_balls_keeps clock rest _ Hv1) as (_ & (I2 & _)).
        apply (Hout Ht), I2, Hin.
      * destruct (pot_balls_keeps clock rest v Hv) as (_ & (I2 & _)).
        unfold ball_of. rewrite (pot_balls_frame clock rest v b Hv Hr Hin).
        fold (ball_of v b).
        unfold check_pocket in Hcp.
        rewrite (proj1 Hv b (I2 b Hin)) in Hcp. exact Hcp.
Qed.

Lemma pot_balls_removes (clock : nat -> R) (snapshot : list nat) :
  forall (v : GameView) (k : nat),
    table_in_play v -> In k snapshot ->
    ball_type (objects v k) <> CUE ->
    first_pocket (ball_of v k) pocket_locations <> None ->
    ~ In k (balls (pot_balls snapshot v clock)).
Proof.
  induction snapshot as [| b rest IH]; intros v k Hv Hk Ht Hp Hin.
  - destruct Hk.
  - destruct (pot_balls_keeps clock (b :: rest) v Hv) as (_ & (I & _)).
    pose proof (proj1 Hv k (I k Hin)) as Hplay.
    cbn [pot_balls] in Hin.
    destruct (Nat.eq_dec k b) as [-> | Hne].
    + assert (Hcp : check_pocket (ball_of v b) pocket_locations
                    = first_pocket (ball_of v b) pocket_locations)
        by (unfold check_pocket; rewrite Hplay; reflexivity).
      rewrite Hcp in Hin.
      destruct (first_pocket (ball_of v b) pocket_locations)
        as [[px py] |]; [| contradiction].
      pose proof (table_in_play_step v b px py (clock b) Hv) as Hv1.
      destruct (on_ball_potted_step v b px py (clock b) (proj2 Hv))
        as (_ & _ & _ & _ & Hout).
      cbv zeta in Hout.
      destruct (pot_balls_keeps clock rest _ Hv1) as (_ & (I2 & _)).
      apply (Hout Ht), I2, Hin.
    + destruct Hk as [E | Hk]; [congruence |].
      destruct (check_pocket (ball_of v b) pocket_locations)
        as [[px py] |].
      * pose proof (table_in_play_step v b px py (clock b) Hv) as Hv1.
        destruct (on_ball_potted_step v b px py (clock b) (proj2 Hv))
          as (_ & _ & Ho & _).
        cbv zeta in Ho. specialize (Ho k Hne Hplay).
        apply (IH _ k Hv1 Hk); [rewrite Ho; exact Ht | | exact Hin].
        unfold ball_of. rewrite Ho. exact Hp.
      * apply (IH v k Hv Hk Ht Hp Hin).
Qed.

Lemma pot_balls_same (clock : nat -> R) (snapshot : list nat) :
  forall (v : GameView) (k : nat),
    table_in_play v ->
    ball_type (objects v k) <> CUE ->
    In k (balls (pot_balls snapshot v clock)) ->
    objects (pot_balls snapshot v clock) k = objects v k.
Proof.
  induction snapshot as [| b rest IH]; intros v k Hv Ht Hin.
  - reflexivity.
  - destruct (pot_balls_keeps clock (b :: rest) v Hv) as (_ & (I & _)).
    pose proof (proj1 Hv k (I k Hin)) as Hplay.
    cbn [pot_balls] in *.
    destruct (check_pocket (ball_of v b) pocket_locations) as [[px py] |].
    + pose proof (table_in_play_step v b px py (clock b) Hv) as Hv1.
      destruct (on_ball_potted_step v b px py (clock b) (proj2 Hv))
        as (_ & _ & Ho & _ & Hout).
      cbv zeta in Ho, Hout.
      destruct (pot_balls_keeps clock rest _ Hv1) as (_ & (I2 & _)).
      destruct (Nat.eq_dec k b) as [-> | Hne].
      * exfalso. apply (Hout Ht), I2, Hin.
      * specialize (Ho k Hne Hplay).
        rewrite (IH _ k Hv1); [exact Ho | rewrite Ho; exact Ht | exact Hin].
    + apply (IH v k Hv Ht Hin).
Qed.

(** X16: the pocket pass keeps the table consistent.  If no ball of the
    sprite list is flagged as potted and the combo is not negative, the
    same holds after [check_pocket_collisions]; the pass adds no ball to
    the list, never removes a ball of type [CUE], keeps the cue ball
    reference and the type and number of every ball, and neither the
    score nor the high score goes down. *)
Theorem pocket_pass_invariant (v : GameView) (clock : nat -> R) :
  table_in_play v ->
  table_in_play (view_check_pocket_collisions v clock) /\
  pot_keeps v (view_check_pocket_collisions v clock).
Proof. apply pot_balls_keeps. Qed.

Lemma small_table_in_play : table_in_play small_table.
Proof.
  split.
  - cbn. intros k [<- | [<- | []]]; reflexivity.
  - cbn. lia.
Qed.

Lemma no_pocket_near_striker (b : Ball) :
  in_pocket b = false ->
  100 <= center_x b <= 120 -> center_y b = 100 ->
  check_pocket b pocket_locations = None.
Proof.
  intros Hp Hx Hy. unfold check_pocket. rewrite Hp.
  apply first_pocket_none. intros p Hin.
  unfold pocket_distance, POCKET_RADIUS.
  apply sqrt_lower_bound; [lra |].
  unfold pocket_locations, SCREEN_WIDTH, SCREEN_HEIGHT in Hin.
  cbn [In] in Hin. rewrite Hy.
  repeat (destruct Hin as [<- | Hin]; [cbn; nra |]).
  contradiction.
Qed.

Lemma small_table_no_pocket (k : nat) :
  check_pocket (ball_of small_table k) pocket_locations = None.
Proof.
  destruct k as [| k]; apply no_pocket_near_striker; cbn;
    try reflexivity; lra.
Qed.

Lemma small_table_pass (clock : nat -> R) :
  view_check_pocket_collisions small_table clock = small_table.
Proof.
  unfold view_check_pocket_collisions.
  change (balls small_table) with [0%nat; 1%nat].
  cbn [pot_balls]. rewrite !small_table_no_pocket. reflexivity.
Qed.

Lemma pocket_table_in_play : table_in_play pocket_table.
Proof.
  split.
  - cbn. intros k [<- | [<- | [<- | []]]]; reflexivity.
  - cbn. lia.
Qed.

(** On [pocket_table] the pocket pass makes one call of
    [on_ball_potted]: for the ball 1, in the first pocket. *)
Lemma pocket_table_pass (clock : nat -> R) :
  view_check_pocket_collisions pocket_table clock
  = on_ball_potted pocket_table 1 60 60 (clock 1%nat).
Proof.
  unfold view_check_pocket_collisions.
  change (balls pocket_table) with [0%nat; 1%nat; 2%nat].
  cbn [pot_balls].
  assert (H0 : check_pocket (ball_of pocket_table 0) pocket_locations = None).
  { apply no_pocket_near_striker; cbn; try reflexivity; lra. }
  rewrite H0.
  change (ball_of pocket_table 1) with ball_on_pocket.
  rewrite ball_on_pocket_captured.
  assert (Ht : ball_type (objects pocket_table 1) <> CUE)
    by (cbn; discriminate).
  assert (Hc : (0 <= combo pocket_table)%Z) by (cbn; lia).
  destruct (on_ball_potted_object_facts pocket_table 1 60 60 (clock 1%nat)
              Ht Hc) as (_ & _ & _ & _ & _ & _ & _ & _ & Ho).
  cbv zeta in Ho.
  assert (H2 : check_pocket
                 (ball_of (on_ball_potted pocket_table 1 60 60 (clock 1%nat))
                          2) pocket_locations = None).
  { unfold ball_of. rewrite (Ho 2%nat) by discriminate.
    apply no_pocket_near_striker; cbn; try reflexivity; lra. }
  rewrite H2. reflexivity.
Qed.

(** The pocket pass on [pocket_table] pots the ball 1: it leaves the
    sprite list and its 100 points are scored, and the table is still
    consistent. *)
Lemma pocket_pass_invariant_witness :
  (table_in_play (view_check_pocket_collisions pocket_table (fun _ => 0)) /\
   pot_keeps pocket_table
             (view_check_pocket_collisions pocket_table (fun _ => 0))) /\
  ~ In 1%nat (balls (view_check_pocket_collisions pocket_table (fun _ => 0)))
  /\
  score (view_check_pocket_collisions pocket_table (fun _ => 0)) = 100%Z.
Proof.
  split.
  - apply (pocket_pass_invariant pocket_table (fun _ => 0)).
    apply pocket_table_in_play.
  - rewrite pocket_table_pass.
    assert (Ht : ball_type (objects pocket_table 1) <> CUE)
      by (cbn; discriminate).
    assert (Hc : (0 <= combo pocket_table)%Z) by (cbn; lia).
    destruct (on_ball_potted_object_facts pocket_table 1 60 60 0 Ht Hc)
      as (_ & Hs & _ & _ & _ & _ & Hout & _).
    cbv zeta in Hs, Hout. split; [exact Hout |].
    rewrite Hs by reflexivity. reflexivity.
Defined.

(** X17: after the pocket pass no ball that can score is left lying in a
    pocket.  On a consistent table, a ball of the sprite list that is
    not of type [CUE] and whose centre is less than [POCKET_RADIUS]
    away from a pocket centre is no longer in the sprite list once
    [check_pocket_collisions] has run; a ball that is still in the list
    has not been touched, and its centre is at least [POCKET_RADIUS]
    away from every pocket centre.  The distances are written on the
    coordinates. *)
Theorem pocket_pass_clears (v : GameView) (clock : nat -> R) (k : nat) :
  table_in_play v ->
  In k (balls v) ->
  ball_type (objects v k) <> CUE ->
  let v' := view_check_pocket_collisions v clock in
  ((exists px py,
       In (px, py) pocket_locations /\
       (center_x (ball_of v k) - px) ^ 2 + (center_y (ball_of v k) - py) ^ 2
       < POCKET_RADIUS ^ 2) ->
   ~ In k (balls v')) /\
  (In k (balls v') ->
   objects v' k = objects v k /\
   forall px py,
     In (px, py) pocket_locations ->
     POCKET_RADIUS ^ 2
     <= (center_x (ball_of v' k) - px) ^ 2
        + (center_y (ball_of v' k) - py) ^ 2).
Proof.
  intros Hv Hk Ht. cbv zeta. unfold view_check_pocket_collisions.
  split.
  - intros (px & py & Hin & Hd).
    apply (pot_balls_removes clock (balls v) v k Hv Hk Ht).
    intros Hnone.
    pose proof (proj1 (first_pocket_none_coordinates _ _) Hnone px py Hin).
    lra.
  - intros Hin.
    split; [apply (pot_balls_same clock (balls v) v k Hv Ht Hin) |].
    apply first_pocket_none_coordinates.
    apply (pot_balls_clears clock (balls v) v k Hv Hk Hin Ht).
Qed.

(** On [pocket_table] the pass removes the ball 1, which lies on the
    centre of the first pocket, and keeps the ball 2, which is further
    than [POCKET_RADIUS] from it. *)
Lemma pocket_pass_clears_witness :
  ~ In 1%nat (balls (view_check_pocket_collisions pocket_table (fun _ => 0)))
  /\
  POCKET_RADIUS ^ 2
  <= (center_x (ball_of (view_check_pocket_collisions pocket_table
                                                       (fun _ => 0)) 2)
      - 60) ^ 2
     + (center_y (ball_of (view_check_pocket_collisions pocket_table
                                                         (fun _ => 0)) 2)
        - 60) ^ 2.
Proof.
  split.
  - apply (pocket_pass_clears pocket_table (fun _ => 0) 1
             pocket_table_in_play).
    + cbn. right. left. reflexivity.
    + cbn. discriminate.
    + exists 60, 60. split; [left; reflexivity |].
      cbn. unfold POCKET_RADIUS. lra.
  - apply (pocket_pass_clears pocket_table (fun _ => 0) 2
             pocket_table_in_play).
    + cbn. right. right. left. reflexivity.
    + cbn. discriminate.
    + rewrite pocket_table_pass.
      assert (Ht : ball_type (objects pocket_table 1) <> CUE)
        by (cbn; discriminate).
      assert (Hc : (0 <= combo pocket_table)%Z) by (cbn; lia).
      destruct (on_ball_potted_object_facts pocket_table 1 60 60 0 Ht Hc)
        as (_ & _ & _ & _ & _ & _ & _ & Hin & _).
      cbv zeta in Hin. apply Hin; [discriminate |].
      cbn. right. right. left. reflexivity.
    + left. reflexivity.
Defined.

(** ** One frame of the game *)

Ltac break_ifs :=
  repeat match goal with
         | |- context [if ?c then _ else _] => destruct c
         end.

Lemma apply_spin_mass (b : Ball) (dt : R) : mass (apply_spin b dt) = mass b.
Proof.
  unfold apply_spin. cbv zeta.
  match goal with
  | |- context [if ?c then _ else _] => destruct c
  end; reflexivity.
Qed.

Lemma snap_velocity_mass (b : Ball) : mass (snap_velocity b) = mass b.
Proof.
  unfold snap_velocity. cbv zeta.
  destruct (Rltb (Rabs (change_x b)) 0.08);
    match goal with
    | |- context [if ?c then _ else _] => destruct c
    end; reflexivity.
Qed.

Lemma update_highlight_mass (b : Ball) (dt : R) :
  mass (update_highlight b dt) = mass b.
Proof.
  unfold update_highlight. cbv zeta.
  destruct (highlight b); [| reflexivity].
  match goal with
  | |- context [if ?c then _ else _] => destruct c
  end; reflexivity.
Qed.

Lemma update_trail_mass (b : Ball) (speed t : R) :
  mass (update_trail b speed t) = mass b.
Proof.
  unfold update_trail. cbv zeta. cbn [mass set_trail].
  destruct (Rgtb speed 2.0);
    match goal with
    | |- context [if ?c then _ else _] => destruct c
    end; reflexivity.
Qed.

Lemma update_mass (t : R) (b : Ball) (dt : R) :
  mass (update t b dt) = mass b.
Proof.
  unfold update. cbv zeta. cbn [mass set_last_update_time].
  rewrite update_highlight_mass, update_trail_mass, snap_velocity_mass.
  match goal with
  | |- context [if ?c then _ else _] => destruct c
  end; [rewrite apply_spin_mass |]; reflexivity.
Qed.

Lemma check_wall_collision_mass (b : Ball) :
  mass (fst (check_wall_collision b)) = mass b.
Proof. unfold check_wall_collision. break_ifs; reflexivity. Qed.

Lemma step_ball_mass (t : R) (b : Ball) (dt : R) :
  mass (fst (step_ball t b dt)) = mass b.
Proof.
  unfold step_ball. cbv zeta. cbn [fst].
  rewrite check_wall_collision_mass. apply update_mass.
Qed.

Lemma step_ball_flag (t : R) (b : Ball) (dt : R) :
  snd (step_ball t b dt) = false -> at_rest (fst (step_ball t b dt)).
Proof.
  unfold step_ball. cbv zeta. cbn [fst snd]. intros H.
  apply orb_false_elim in H. destruct H as [Hx Hy].
  apply negb_false_iff in Hx. apply negb_false_iff in Hy.
  apply Reqb_true in Hx. apply Reqb_true in Hy. split; assumption.
Qed.

Lemma update_balls_keeps (clock : nat -> R) (dt : R) (ids : list nat) :
  forall (v : GameView) (flag : bool),
    let r := update_balls ids v clock dt flag in
    balls (fst r) = balls v /\
    game_state (fst r) = game_state v /\
    (forall k, mass (ball_of (fst r) k) = mass (ball_of v k)) /\
    (forall k, ~ In k ids -> objects (fst r) k = objects v k) /\
    (snd r = false -> flag = false) /\
    (NoDup ids -> snd r = false ->
     forall k, In k ids -> at_rest (ball_of (fst r) k)).
Proof.
  induction ids as [| b rest IH]; intros v flag; cbv zeta.
  - cbn [update_balls fst snd].
    split; [reflexivity |]. split; [reflexivity |].
    split; [reflexivity |]. split; [reflexivity |].
    split; [intros H; exact H |]. intros _ _ k [].
  - cbn [update_balls].
    destruct (step_ball (clock b) (ball_of v b) dt) as [b' moving] eqn:Hs.
    destruct (IH (set_ball v b b') (flag || moving)) as (B & G & M & O & F & A).
    cbv zeta in *.
    set (r := update_balls rest (set_ball v b b') clock dt (flag || moving)) in *.
    split; [rewrite B; reflexivity |].
    split; [rewrite G; reflexivity |].
    split.
    { intros k. rewrite M, ball_of_set_ball.
      destruct (Nat.eqb k b) eqn:E; [| reflexivity].
      apply Nat.eqb_eq in E. subst k.
      pose proof (step_ball_mass (clock b) (ball_of v b) dt) as Hm.
      rewrite Hs in Hm. exact Hm. }
    split.
    { intros k Hk. rewrite O by (intros H; apply Hk; right; exact H).
      apply objects_set_ball_other. intros ->. apply Hk. left. reflexivity. }
    split.
    { intros H. apply F in H. apply orb_false_elim in H. apply H. }
    intros Hnd H k Hk. inversion Hnd as [| b0 rest0 Hb Hrest]; subst.
    destruct Hk as [<- | Hk].
    + unfold ball_of. rewrite (O b Hb). fold (ball_of (set_ball v b b') b).
      rewrite ball_of_set_ball, Nat.eqb_refl.
      pose proof (step_ball_flag (clock b) (ball_of v b) dt) as Hf.
      rewrite Hs in Hf. apply Hf. cbn.
      apply F in H. apply orb_false_elim in H. apply H.
    + apply (A Hrest H k Hk).
Qed.

Lemma reset_body (o : BallObj) :
  mass (body (reset o)) = mass (body o) /\ at_rest (body (reset o)) /\
  in_pocket (body (reset o)) = false.
Proof. unfold reset, at_rest. cbn. repeat split; reflexivity. Qed.

Lemma end_turn_balls (v : GameView) : balls (end_turn v) = balls v.
Proof. apply (end_turn_fields v). Qed.

Lemma end_turn_state (v : GameView) : game_state (end_turn v) = game_state v.
Proof. apply (end_turn_fields v). Qed.

Lemma end_turn_object (v : GameView) (k : nat) :
  objects (end_turn v) k = objects v k \/
  objects (end_turn v) k = reset (objects v k).
Proof.
  destruct (end_turn_fields v) as (_ & _ & _ & _ & _ & _ & _ & _ & _ & _ & _
                                   & _ & _ & H).
  destruct (H k) as [E | (_ & _ & E)]; [left | right]; exact E.
Qed.

Lemma end_turn_mass (v : GameView) (k : nat) :
  mass (ball_of (end_turn v) k) = mass (ball_of v k).
Proof.
  unfold ball_of. destruct (end_turn_object v k) as [E | E]; rewrite E.
  - reflexivity.
  - apply reset_body.
Qed.

Lemma game_over_balls (v : GameView) (w : bool) :
  balls (game_over v w) = balls v.
Proof. apply (game_over_fields v w). Qed.

Lemma game_over_objects (v : GameView) (w : bool) :
  objects (game_over v w) = objects v.
Proof. apply (game_over_fields v w). Qed.

Lemma game_over_state (v : GameView) (w : bool) :
  game_state (game_over v w) = GAME_OVER.
Proof. apply (game_over_fields v w). Qed.

Lemma game_over_ball (v : GameView) (w : bool) (k : nat) :
  ball_of (game_over v w) k = ball_of v k.
Proof. unfold ball_of. rewrite game_over_objects. reflexivity. Qed.

Lemma run_timers_keeps (v : GameView) (dt : R) :
  balls (fst (run_timers v dt)) = balls v /\
  (forall k, mass (ball_of (fst (run_timers v dt)) k) = mass (ball_of v k)).
Proof.
  unfold run_timers. cbv zeta.
  set (v1 := if GameMode_eqb (game_mode v) TIMED
                && negb (GameState_eqb (game_state v) PAUSED)
             then _ else v).
  assert (H1 : balls v1 = balls v /\ forall k, ball_of v1 k = ball_of v k).
  { unfold v1. break_ifs;
      rewrite ?game_over_balls; split; try reflexivity;
      intros k; rewrite ?game_over_ball; reflexivity. }
  clearbody v1. destruct H1 as [B1 O1].
  set (p := if slow_motion v1 then _ else (v1, dt)).
  assert (H2 : balls (fst p) = balls v /\
               forall k, ball_of (fst p) k = ball_of v k).
  { unfold p. break_ifs; cbn [fst]; split; try exact B1; exact O1. }
  clearbody p. destruct p as [v2 dt2]. cbn [fst] in H2.
  destruct H2 as [B2 O2].
  break_ifs; cbn [fst]; rewrite ?end_turn_balls;
    (split; [exact B2 |]); intros k; rewrite ?end_turn_mass;
    first [rewrite <- O2; reflexivity | idtac].
Qed.

Lemma kinetic_energy_nonneg (b : Ball) : 0 <= mass b -> 0 <= kinetic_energy b.
Proof.
  intros H. unfold kinetic_energy.
  apply Rmult_le_pos; [lra |]. nra.
Qed.

Lemma zero_energy_rest (b : Ball) :
  0 < mass b -> kinetic_energy b = 0 -> at_rest b.
Proof.
  unfold kinetic_energy, at_rest. intros Hm H.
  assert (Hs : change_x b ^ 2 + change_y b ^ 2 = 0).
  { destruct (Rmult_integral _ _ H) as [H1 | H1]; [lra | exact H1]. }
  split; nra.
Qed.

Lemma rest_zero_energy (b : Ball) : at_rest b -> kinetic_energy b = 0.
Proof. unfold kinetic_energy, at_rest. intros [-> ->]. lra. Qed.

Lemma sum_nonneg_zero (g : nat -> R) (ids : list nat) :
  (forall k, In k ids -> 0 <= g k) -> sum_list g ids <= 0 ->
  forall k, In k ids -> g k = 0.
Proof.
  induction ids as [| a l IH]; intros Hpos Hsum k Hk; [destruct Hk |].
  rewrite sum_list_cons in Hsum.
  assert (Hl : 0 <= sum_list g l).
  { clear -Hpos. induction l as [| x l IHl]; [unfold sum_list; cbn; lra |].
    rewrite sum_list_cons.
    assert (0 <= g x) by (apply Hpos; right; left; reflexivity).
    assert (0 <= sum_list g l).
    { apply IHl. intros k [<- | Hk]; apply Hpos;
        [left; reflexivity | right; right; exact Hk]. }
    lra. }
  pose proof (Hpos a (or_introl eq_refl)) as Ha.
  destruct Hk as [<- | Hk]; [lra |].
  apply IH; [| lra | exact Hk].
  intros j Hj. apply Hpos. right. exact Hj.
Qed.

(** Balls at rest stay at rest through a pass over the pairs. *)
Lemma pass_keeps_rest (ids : list nat) (v v' : GameView) :
  pass_keeps ids v v' ->
  (forall k, In k ids -> 0 < mass (ball_of v k)) ->
  (forall k, In k ids -> at_rest (ball_of v k)) ->
  forall k, In k ids -> at_rest (ball_of v' k).
Proof.
  intros (_ & M & _ & _ & _ & _ & _ & K) Hm Hr k Hk.
  apply zero_energy_rest; [rewrite M; apply Hm, Hk |].
  assert (H0 : sum_over kinetic_energy v ids = 0).
  { unfold sum_over. fold (sum_list (fun i => kinetic_energy (ball_of v i)) ids).
    apply sum_list_zero. intros j Hj. apply rest_zero_energy, Hr, Hj. }
  rewrite H0 in K.
  apply (sum_nonneg_zero (fun i => kinetic_energy (ball_of v' i)) ids);
    [| exact K | exact Hk].
  intros j Hj. apply kinetic_energy_nonneg. rewrite M.
  pose proof (Hm j Hj). lra.
Qed.

Lemma decay_screen_shake_keeps (v : GameView) :
  balls (decay_screen_shake v) = balls v /\
  objects (decay_screen_shake v) = objects v /\
  game_state (decay_screen_shake v) = game_state v /\
  combo (decay_screen_shake v) = combo v.
Proof.
  unfold decay_screen_shake. cbv zeta. break_ifs; repeat split; reflexivity.
Qed.

Lemma on_balls_stopped_keeps (v : GameView) :
  balls (on_balls_stopped v) = balls v /\
  objects (on_balls_stopped v) = objects v.
Proof.
  unfold on_balls_stopped. cbv zeta. break_ifs; split; reflexivity.
Qed.

Lemma settle_state_keeps (v : GameView) (moving : bool) :
  balls (settle_state v moving) = balls v /\
  objects (settle_state v moving) = objects v /\
  game_state (settle_state v moving)
  = (if moving then BALLS_MOVING else AIMING).
Proof.
  unfold settle_state. cbv zeta. destruct moving.
  - repeat split; reflexivity.
  - destruct (on_balls_stopped_keeps v) as [B O].
    destruct (GameState_eqb (game_state v) BALLS_MOVING);
      cbn [balls objects game_state set_game_state];
      rewrite ?B, ?O; repeat split; reflexivity.
Qed.

Lemma check_win_conditions_keeps (v : GameView) :
  balls (check_win_conditions v) = balls v /\
  objects (check_win_conditions v) = objects v /\
  (game_state (check_win_conditions v) = game_state v \/
   game_state (check_win_conditions v) = GAME_OVER).
Proof.
  unfold check_win_conditions. cbv zeta.
  set (v1 := if GameMode_eqb (game_mode v) TIMED && _ then _ else v).
  assert (H1 : balls v1 = balls v /\ objects v1 = objects v /\
               (game_state v1 = game_state v \/ game_state v1 = GAME_OVER)).
  { unfold v1. break_ifs;
      rewrite ?game_over_balls, ?game_over_objects, ?game_over_state;
      repeat split; auto. }
  clearbody v1. destruct H1 as (B1 & O1 & S1).
  set (v2 := if Nat.eqb (balls_remaining v1) 0 then _ else v1).
  assert (H2 : balls v2 = balls v /\ objects v2 = objects v /\
               (game_state v2 = game_state v \/ game_state v2 = GAME_OVER)).
  { unfold v2. break_ifs;
      rewrite ?game_over_balls, ?game_over_objects, ?game_over_state;
      repeat split; auto. }
  clearbody v2. destruct H2 as (B2 & O2 & S2).
  break_ifs;
    rewrite ?game_over_balls, ?game_over_objects, ?game_over_state;
    repeat split; auto.
Qed.

Lemma on_ball_potted_rest (v : GameView) (ball k : nat) (px py now : R) :
  at_rest (ball_of v k) ->
  at_rest (ball_of (on_ball_potted v ball px py now) k).
Proof.
  intros Hr.
  destruct (mark_potted_fields v ball now) as (_ & _ & Mb & Mo & _).
  cbv zeta in *.
  assert (H1 : at_rest (ball_of (mark_potted v ball now) k)).
  { destruct (Nat.eq_dec k ball) as [-> | Hk].
    - rewrite Mb. exact Hr.
    - unfold ball_of. rewrite (Mo k Hk). exact Hr. }
  unfold on_ball_potted. cbv zeta.
  set (v1 := mark_potted v ball now) in *. clearbody v1.
  destruct (BallType_eqb (ball_type (objects v1 ball)) CUE).
  - destruct (respawn_cue_fields v1 ball)
      as (_ & _ & _ & _ & _ & _ & _ & _ & _ & _ & _ & Rb & Ro).
    cbv zeta in *.
    destruct (Nat.eq_dec k ball) as [-> | Hk].
    + rewrite Rb. split; reflexivity.
    + unfold ball_of. destruct (Ro k Hk) as [E | (_ & E)]; rewrite E.
      * exact H1.
      * apply reset_body.
  - destruct (score_ball_fields v1 ball)
      as (_ & _ & _ & _ & _ & _ & S7 & _).
    cbv zeta in S7. unfold ball_of. rewrite S7. exact H1.
Qed.

Lemma pot_balls_rest (clock : nat -> R) (snapshot : list nat) :
  forall (v : GameView) (k : nat),
    at_rest (ball_of v k) ->
    at_rest (ball_of (pot_balls snapshot v clock) k).
Proof.
  induction snapshot as [| b rest IH]; intros v k Hr; [exact Hr |].
  cbn [pot_balls].
  destruct (check_pocket (ball_of v b) pocket_locations) as [[px py] |].
  - apply IH, on_ball_potted_rest, Hr.
  - apply IH, Hr.
Qed.

Lemma pot_balls_incl (clock : nat -> R) (snapshot : list nat) :
  forall v : GameView, incl (balls (pot_balls snapshot v clock)) (balls v).
Proof.
  induction snapshot as [| b rest IH]; intros v; [apply incl_refl |].
  cbn [pot_balls].
  destruct (check_pocket (ball_of v b) pocket_locations) as [[px py] |].
  - intros k Hk. apply IH in Hk.
    unfold on_ball_potted in Hk. cbv zeta in Hk.
    destruct (mark_potted_fields v b (clock b)) as (L & _).
    cbv zeta in L. destruct (ledger_fields _ _ L) as (_ & _ & L3 & _).
    set (v1 := mark_potted v b (clock b)) in *. clearbody v1.
    destruct (BallType_eqb (ball_type (objects v1 b)) CUE).
    + destruct (respawn_cue_fields v1 b) as (_ & _ & R3 & _).
      cbv zeta in R3. rewrite R3, L3 in Hk. exact Hk.
    + destruct (score_ball_fields v1 b) as (_ & _ & _ & _ & _ & S6 & _).
      cbv zeta in S6. rewrite S6, L3 in Hk. apply filter_In in Hk. apply Hk.
  - apply IH.
Qed.

Lemma GameState_eqb_eq (a b : GameState) :
  GameState_eqb a b = true <-> a = b.
Proof. destruct a, b; cbn; split; intros H; try reflexivity; discriminate. Qed.

Lemma GameState_eqb_neq (a b : GameState) :
  a <> b -> GameState_eqb a b = false.
Proof. intros H. destruct a, b; try reflexivity; contradiction. Qed.

(** X18: rest detection.  A paused game is not touched by [on_update].
    Otherwise, for a sprite list without repetition whose balls have
    positive mass, the frame is computed without exception, no ball
    joins the sprite list, the game ends the frame in one of the states
    [AIMING], [BALLS_MOVING], [GAME_OVER], and whenever it ends it in
    [AIMING] every ball of the sprite list has zero velocity. *)
Theorem on_update_settles (v : GameView) (dt : R)
    (clock pot_clock : nat -> R) :
  (game_state v = PAUSED -> on_update v dt clock pot_clock = Some v) /\
  (game_state v <> PAUSED ->
   NoDup (balls v) ->
   (forall k, In k (balls v) -> 0 < mass (ball_of v k)) ->
   exists v',
     on_update v dt clock pot_clock = Some v' /\
     incl (balls v') (balls v) /\
     (game_state v' = AIMING \/ game_state v' = BALLS_MOVING \/
      game_state v' = GAME_OVER) /\
     (game_state v' = AIMING ->
      forall k, In k (balls v') -> at_rest (ball_of v' k))).
Proof.
  split.
  - intros Hp. unfold on_update. rewrite Hp. reflexivity.
  - intros Hp Hnd Hm. unfold on_update.
    rewrite (GameState_eqb_neq _ _ Hp).
    destruct (run_timers_keeps v dt) as [B1 M1].
    destruct (run_timers v dt) as [v1 dt1]. cbn [fst] in B1, M1.
    destruct (update_balls_keeps clock dt1 (balls v1) v1 false)
      as (B2 & _ & M2 & _ & _ & A2).
    cbv zeta in *.
    destruct (update_balls (balls v1) v1 clock dt1 false) as [v2 moving].
    cbn [fst snd] in *.
    assert (Hnd2 : NoDup (balls v2)) by (rewrite B2, B1; exact Hnd).
    assert (Hm2 : forall k, In k (balls v2) -> 0 < mass (ball_of v2 k)).
    { intros k Hk. rewrite M2, M1. apply Hm. rewrite <- B1, <- B2. exact Hk. }
    destruct (collide_all_keeps (balls v2) (balls v2) v2 Hnd2 Hnd2
                (incl_refl _) Hm2) as (v3 & E3 & K3).
    rewrite E3.
    destruct (decay_screen_shake_keeps v3) as (B4 & O4 & _).
    set (v4 := decay_screen_shake v3) in *.
    set (v5 := view_check_pocket_collisions v4 pot_clock).
    destruct (settle_state_keeps v5 moving) as (B6 & O6 & S6).
    set (v6 := settle_state v5 moving) in *.
    destruct (check_win_conditions_keeps v6) as (B7 & O7 & S7).
    exists (check_win_conditions v6).
    split; [reflexivity |].
    assert (Hincl : incl (balls v5) (balls v2)).
    { unfold v5, view_check_pocket_collisions.
      intros k Hk. apply pot_balls_incl in Hk.
      rewrite B4 in Hk. destruct K3 as (B3 & _). rewrite B3 in Hk. exact Hk. }
    split.
    { rewrite B7, B6. intros k Hk. apply Hincl in Hk.
      rewrite B2, B1 in Hk. exact Hk. }
    split.
    { destruct S7 as [S7 | S7]; rewrite S7; [| right; right; reflexivity].
      rewrite S6. destruct moving; [right; left | left]; reflexivity. }
    intros Haim k Hk.
    assert (Hmov : moving = false).
    { destruct S7 as [S7 | S7]; rewrite S7 in Haim; [| discriminate Haim].
      rewrite S6 in Haim. destruct moving; [discriminate Haim | reflexivity]. }
    rewrite B7, B6 in Hk.
    unfold ball_of. rewrite O7, O6. fold (ball_of v5 k).
    unfold v5, view_check_pocket_collisions. apply pot_balls_rest.
    unfold ball_of. rewrite O4. fold (ball_of v3 k).
    apply (pass_keeps_rest (balls v2) v2 v3 K3 Hm2).
    + intros j Hj. rewrite B2 in Hnd2.
      apply (A2 Hnd2 Hmov j). rewrite <- B2. exact Hj.
    + apply Hincl, Hk.
Qed.

Lemma on_update_settles_witness :
  exists v',
    on_update small_table (1 / 60) (fun _ => 0) (fun _ => 0) = Some v' /\
    incl (balls v') (balls small_table) /\
    (game_state v' = AIMING \/ game_state v' = BALLS_MOVING \/
     game_state v' = GAME_OVER) /\
    (game_state v' = AIMING ->
     forall k, In k (balls v') -> at_rest (ball_of v' k)).
Proof.
  apply (proj2 (on_update_settles small_table (1 / 60)
                  (fun _ => 0) (fun _ => 0))).
  - cbn. discriminate.
  - apply small_table_ok.
  - apply small_table_ok.
Defined.

(** X19: the power of a shot set with the right mouse button.  After
    [adjust_power] at a point [d] away from the cue ball the aiming
    power is [min(d, 300) / 300], between 0 and 1, and a shot taken
    before the next frame is drawn launches the cue ball at speed
    [max(min(d, 300) / 12, MIN_POWER)]: the minimum power up to
    [d = 36], the maximum power from [d = 300] on.  The setting does not
    last: the next frame drawn in the state [AIMING] calls
    [draw_aiming_interface], which replaces the aiming power by
    [min(max(m, 1) / 100, 1)], [m] the distance of the mouse to the cue
    ball, as if [adjust_power] had not been called, and a shot taken
    then has the speed [max(min(max(m, 1) / 4, MAX_POWER), MIN_POWER)].
    In another state [on_draw] leaves the power alone. *)
Theorem adjust_power_shot (v : GameView) (x y mouse_x mouse_y tx ty now u : R)
    (c : nat) :
  cue_ball v = Some c ->
  in_pocket (ball_of v c) = false ->
  tx <> center_x (ball_of v c) \/ ty <> center_y (ball_of v c) ->
  -1 <= u <= 1 ->
  let d := sqrt ((x - center_x (ball_of v c)) ^ 2
                 + (y - center_y (ball_of v c)) ^ 2) in
  let m := sqrt ((mouse_x - center_x (ball_of v c))
                 * (mouse_x - center_x (ball_of v c))
                 + (mouse_y - center_y (ball_of v c))
                   * (mouse_y - center_y (ball_of v c))) in
  let v1 := adjust_power v x y in
  let speed := speed_of (ball_of (take_shot v1 tx ty now u) c) in
  let v2 := on_draw v1 mouse_x mouse_y in
  aiming_power v1 = Rmin d 300 / 300 /\
  0 <= aiming_power v1 <= 1 /\
  speed = Rmax (Rmin d 300 / 12) MIN_POWER /\
  (d <= 36 -> speed = MIN_POWER) /\
  (300 <= d -> speed = MAX_POWER) /\
  (game_state v = AIMING ->
   v2 = on_draw v mouse_x mouse_y /\
   aiming_power v2 = Rmin (Rmax m 1 / 100) 1 /\
   speed_of (ball_of (take_shot v2 tx ty now u) c)
   = Rmax (Rmin (Rmax m 1 / 4) MAX_POWER) MIN_POWER) /\
  (game_state v <> AIMING -> v2 = v1).
Proof.
  intros Hc Hp Hxy Hu. cbv zeta.
  set (d := sqrt ((x - center_x (ball_of v c)) ^ 2
                  + (y - center_y (ball_of v c)) ^ 2)).
  set (m := sqrt ((mouse_x - center_x (ball_of v c))
                  * (mouse_x - center_x (ball_of v c))
                  + (mouse_y - center_y (ball_of v c))
                    * (mouse_y - center_y (ball_of v c)))).
  assert (Hd : 0 <= d) by apply sqrt_pos.
  assert (Hv1 : adjust_power v x y = set_aiming_power v (Rmin d 300 / 300)).
  { unfold adjust_power. rewrite Hc. reflexivity. }
  rewrite Hv1.
  assert (Hmin : 0 <= Rmin d 300 <= 300).
  { split; [apply Rmin_glb; lra | apply Rmin_r]. }
  split; [reflexivity |].
  split; [cbn; lra |].
  set (v1 := set_aiming_power v (Rmin d 300 / 300)).
  assert (Hc1 : cue_ball v1 = Some c) by exact Hc.
  assert (Hp1 : in_pocket (ball_of v1 c) = false) by exact Hp.
  assert (Hxy1 : tx <> center_x (ball_of v1 c) \/ ty <> center_y (ball_of v1 c))
    by exact Hxy.
  destruct (take_shot_facts v1 tx ty now u c Hc1 Hp1 Hxy1 Hu)
    as (_ & _ & _ & Hs & _).
  cbv zeta in Hs. rewrite Hs.
  change (aiming_power v1) with (Rmin d 300 / 300).
  assert (Hpow : Rmin (Rmin d 300 / 300 * MAX_POWER) MAX_POWER
                 = Rmin d 300 / 12).
  { unfold MAX_POWER. rewrite Rmin_left; lra. }
  rewrite Hpow. split; [reflexivity |]. split.
  { intros H36. rewrite (Rmin_left d 300) by lra.
    unfold MIN_POWER. rewrite Rmax_right; lra. }
  split.
  { intros H300. rewrite (Rmin_right d 300) by lra.
    unfold MIN_POWER, MAX_POWER. rewrite Rmax_left; lra. }
  assert (Hcap : (if Rgtb (Rmax m 1) 200 then 200 else Rmax m 1) / 100
                 = Rmin (Rmax m 1) 200 / 100).
  { destruct (Rgtb (Rmax m 1) 200) eqn:E.
    - apply Rgtb_true in E. rewrite Rmin_right; lra.
    - apply Rgtb_false in E. rewrite Rmin_left; lra. }
  assert (Hone : 1 <= Rmax m 1) by apply Rmax_r.
  assert (Hap : Rmin (Rmin (Rmax m 1) 200 / 100) 1.0
                = Rmin (Rmax m 1 / 100) 1).
  { unfold Rmin.
    destruct (Rle_dec (Rmax m 1) 200);
      destruct (Rle_dec (Rmax m 1 / 100) 1);
      destruct (Rle_dec (200 / 100) 1.0);
      destruct (Rle_dec (Rmax m 1 / 100) 1.0); lra. }
  split.
  - intros Hst.
    assert (Hv2 : on_draw v1 mouse_x mouse_y
                  = set_aiming_power v (Rmin (Rmax m 1 / 100) 1)).
    { unfold on_draw, draw_aiming_interface.
      change (game_state v1) with (game_state v).
      change (cue_ball v1) with (cue_ball v).
      rewrite Hst, Hc. cbv zeta.
      change (ball_of v1 c) with (ball_of v c). fold m.
      rewrite Hcap, Hap. reflexivity. }
    assert (Hv0 : on_draw v mouse_x mouse_y
                  = set_aiming_power v (Rmin (Rmax m 1 / 100) 1)).
    { unfold on_draw, draw_aiming_interface.
      rewrite Hst, Hc. cbv zeta. fold m.
      rewrite Hcap, Hap. reflexivity. }
    rewrite Hv2, Hv0.
    split; [reflexivity |]. split; [reflexivity |].
    set (v2 := set_aiming_power v (Rmin (Rmax m 1 / 100) 1)).
    assert (Hc2 : cue_ball v2 = Some c) by exact Hc.
    assert (Hp2 : in_pocket (ball_of v2 c) = false) by exact Hp.
    assert (Hxy2 : tx <> center_x (ball_of v2 c)
                   \/ ty <> center_y (ball_of v2 c)) by exact Hxy.
    destruct (take_shot_facts v2 tx ty now u c Hc2 Hp2 Hxy2 Hu)
      as (_ & _ & _ & Hs2 & _).
    cbv zeta in Hs2. rewrite Hs2.
    change (aiming_power v2) with (Rmin (Rmax m 1 / 100) 1).
    f_equal. unfold MAX_POWER, Rmin.
    destruct (Rle_dec (Rmax m 1 / 100) 1);
      destruct (Rle_dec (Rmax m 1 / 4) 25);
      try (destruct (Rle_dec (Rmax m 1 / 100 * 25) 25));
      try (destruct (Rle_dec (1 * 25) 25)); lra.
  - intros Hst. unfold on_draw.
    change (game_state v1) with (game_state v).
    rewrite (GameState_eqb_neq _ _ Hst). reflexivity.
Qed.

(** On the small table: the power set 300 away from the cue ball gives
    a shot at [MAX_POWER]; after a frame drawn with the mouse 50 away
    the aiming power is [0.5] instead. *)
Lemma adjust_power_shot_witness :
  speed_of (ball_of (take_shot (adjust_power small_table 400 100)
                               400 100 0 0.5) 0) = MAX_POWER /\
  aiming_power (on_draw (adjust_power small_table 400 100) 150 100)
  = Rmin (Rmax (sqrt ((150 - 100) * (150 - 100) + (100 - 100) * (100 - 100)))
               1 / 100) 1.
Proof.
  assert (Hxy : 400 <> center_x (ball_of small_table 0)
                \/ 100 <> center_y (ball_of small_table 0))
    by (left; cbn; lra).
  assert (Hu : -1 <= 0.5 <= 1) by lra.
  destruct (adjust_power_shot small_table 400 100 150 100 400 100 0 0.5 0
              (proj1 small_table_cue) (proj2 small_table_cue) Hxy Hu)
    as (_ & _ & _ & _ & Hmax & Hdraw & _).
  split.
  - apply Hmax. cbn.
    apply sqrt_lower_bound; lra.
  - apply (Hdraw eq_refl).
Defined.

Lemma game_over_remaining (v : GameView) (w : bool) :
  balls_remaining (game_over v w) = balls_remaining v.
Proof.
  unfold balls_remaining. rewrite game_over_balls.
  f_equal. apply filter_ext. intros k.
  rewrite game_over_ball, game_over_objects. reflexivity.
Qed.

Lemma game_over_twice (v : GameView) (w1 w2 : bool) :
  high_score (game_over (game_over v w1) w2) = Z.max (high_score v) (score v)
  /\ score (game_over (game_over v w1) w2) = score v.
Proof.
  destruct (game_over_fields v w1) as (_ & H1 & S1 & _).
  destruct (game_over_fields (game_over v w1) w2) as (_ & H2 & S2 & _).
  cbv zeta in *. rewrite H2, S2, H1, S1. split; lia.
Qed.

(** X20: the end of the game.  [check_win_conditions] changes nothing
    unless the timed game has run out of time, no ball other than the
    cue ball is left in play, or the score has reached
    [MAX_SCORE * 1000]; in each of these cases the state becomes
    [GAME_OVER], the score is kept and the high score becomes the larger
    of the high score and the score, and in the last two cases the result
    screen shown last is a victory. *)
Theorem check_win_conditions_cases (v : GameView) :
  let v' := check_win_conditions v in
  let timed_out := GameMode_eqb (game_mode v) TIMED
                   && negb (Rltb 0 (time_remaining v)) in
  let cleared := Nat.eqb (balls_remaining v) 0 in
  let top := Z.leb (MAX_SCORE * 1000) (score v) in
  (timed_out || cleared || top = false -> v' = v) /\
  (timed_out || cleared || top = true ->
   game_state v' = GAME_OVER /\ score v' = score v /\
   high_score v' = Z.max (high_score v) (score v)) /\
  (cleared || top = true ->
   exists earlier shown,
     results_shown v' = earlier ++ [shown] /\ rv_victory shown = true).
Proof.
  cbv zeta. unfold check_win_conditions. cbv zeta.
  destruct (GameMode_eqb (game_mode v) TIMED
            && negb (Rltb 0 (time_remaining v))) eqn:Ht.
  - rewrite game_over_remaining.
    destruct (game_over_fields v false) as (G1 & G2 & G3 & _).
    cbv zeta in *.
    destruct (Nat.eqb (balls_remaining v) 0) eqn:Hr.
    + destruct (game_over_twice v false true) as [T1 T2].
      destruct (game_over_fields (game_over v false) true)
        as (F1 & F2 & F3 & _ & _ & _ & _ & _ & _ & _ & _ & _ & F11).
      cbv zeta in *. rewrite F3, G3.
      destruct (Z.leb (MAX_SCORE * 1000) (score v)) eqn:Hs.
      * destruct (game_over_fields (game_over (game_over v false) true) true)
          as (E1 & E2 & E3 & _ & _ & _ & _ & _ & _ & _ & _ & _ & E11).
        cbv zeta in *.
        split; [intros H; discriminate H |]. split.
        { intros _. rewrite E1, E2, E3, T1, T2. repeat split; lia. }
        intros _. eexists. eexists. split; [exact E11 | reflexivity].
      * split; [intros H; discriminate H |]. split.
        { intros _. rewrite F1, T1, T2. repeat split; reflexivity. }
        intros _. eexists. eexists. split; [exact F11 | reflexivity].
    + rewrite G3.
      destruct (Z.leb (MAX_SCORE * 1000) (score v)) eqn:Hs.
      * destruct (game_over_twice v false true) as [T1 T2].
        destruct (game_over_fields (game_over v false) true)
          as (F1 & _ & _ & _ & _ & _ & _ & _ & _ & _ & _ & _ & F11).
        cbv zeta in *.
        split; [intros H; discriminate H |]. split.
        { intros _. rewrite F1, T1, T2. repeat split; reflexivity. }
        intros _. eexists. eexists. split; [exact F11 | reflexivity].
      * split; [intros H; discriminate H |]. split.
        { intros _. rewrite G1, G2, G3. repeat split; reflexivity. }
        intros H. discriminate H.
  - destruct (Nat.eqb (balls_remaining v) 0) eqn:Hr.
    + destruct (game_over_fields v true)
        as (G1 & G2 & G3 & _ & _ & _ & _ & _ & _ & _ & _ & _ & G11).
      cbv zeta in *. rewrite G3.
      destruct (Z.leb (MAX_SCORE * 1000) (score v)) eqn:Hs.
      * destruct (game_over_twice v true true) as [T1 T2].
        destruct (game_over_fields (game_over v true) true)
          as (F1 & _ & _ & _ & _ & _ & _ & _ & _ & _ & _ & _ & F11).
        cbv zeta in *.
        split; [intros H; discriminate H |]. split.
        { intros _. rewrite F1, T1, T2. repeat split; reflexivity. }
        intros _. eexists. eexists. split; [exact F11 | reflexivity].
      * split; [intros H; discriminate H |]. split.
        { intros _. rewrite G1, G2, G3. repeat split; reflexivity. }
        intros _. eexists. eexists. split; [exact G11 | reflexivity].
    + destruct (Z.leb (MAX_SCORE * 1000) (score v)) eqn:Hs.
      * destruct (game_over_fields v true)
          as (G1 & G2 & G3 & _ & _ & _ & _ & _ & _ & _ & _ & _ & G11).
        cbv zeta in *.
        split; [intros H; discriminate H |]. split.
        { intros _. rewrite G1, G2, G3. repeat split; reflexivity. }
        intros _. eexists. eexists. split; [exact G11 | reflexivity].
      * split; [intros _; reflexivity |].
        split; intros H; discriminate H.
Qed.

Lemma check_win_conditions_cases_witness :
  check_win_conditions small_table = small_table.
Proof.
  apply (proj1 (check_win_conditions_cases small_table)). reflexivity.
Defined.

Lemma GameMode_eqb_eq (a b : GameMode) : GameMode_eqb a b = true <-> a = b.
Proof. destruct a, b; cbn; split; intros H; try reflexivity; discriminate. Qed.

(** X21: the clock of the timed mode.  In the mode [TIMED], when the
    game is not paused, the first part of [on_update] leaves
    [time_remaining] at [max(time_remaining - delta_time, 0)], never
    negative and counted in full frame time even during slow motion;
    when the clock reaches 0 the state becomes [GAME_OVER] and a result
    screen without victory is shown.  The rest of the frame runs on
    [0.3 * delta_time] during slow motion and on [delta_time]
    otherwise. *)
Theorem run_timers_clock (v : GameView) (dt : R) :
  game_mode v = TIMED ->
  game_state v <> PAUSED ->
  let v' := fst (run_timers v dt) in
  time_remaining v' = Rmax (time_remaining v - dt) 0 /\
  0 <= time_remaining v' /\
  (time_remaining v - dt <= 0 ->
   game_state v' = GAME_OVER /\
   exists shown,
     results_shown v' = results_shown v ++ [shown] /\
     rv_victory shown = false) /\
  (0 < time_remaining v - dt ->
   game_state v' = game_state v /\ results_shown v' = results_shown v) /\
  snd (run_timers v dt) = (if slow_motion v then dt * 0.3 else dt).
Proof.
  intros Hm Hp. cbv zeta. unfold run_timers. cbv zeta.
  rewrite Hm, (GameState_eqb_neq _ _ Hp).
  cbn [GameMode_eqb GameMode_value Z.eqb Pos.eqb negb andb
       time_remaining set_time_remaining].
  set (v1 := if negb (Rltb 0 (time_remaining v - dt))
             then game_over (set_time_remaining
                               (set_time_remaining v (time_remaining v - dt))
                               0) false
             else set_time_remaining v (time_remaining v - dt)).
  assert (H1 : game_mode v1 = TIMED /\ slow_motion v1 = slow_motion v /\
               time_remaining v1 = Rmax (time_remaining v - dt) 0 /\
               (time_remaining v - dt <= 0 ->
                game_state v1 = GAME_OVER /\
                exists shown,
                  results_shown v1 = results_shown v ++ [shown] /\
                  rv_victory shown = false) /\
               (0 < time_remaining v - dt ->
                game_state v1 = game_state v /\
                results_shown v1 = results_shown v)).
  { unfold v1. destruct (Rltb 0 (time_remaining v - dt)) eqn:Ht; cbn [negb].
    - apply Rltb_true in Ht. cbn.
      split; [exact Hm |]. split; [reflexivity |].
      split; [rewrite Rmax_left; lra |].
      split; [intros; lra | intros _; split; reflexivity].
    - apply Rltb_false in Ht.
      match goal with
      | |- context [game_over ?x false] =>
          destruct (game_over_fields x false)
            as (G1 & _ & _ & _ & _ & _ & G7 & _ & _ & G10 & _ & _ & G11);
          cbv zeta in G1, G7, G10, G11
      end.
      split; [rewrite G7; exact Hm |].
      split; [unfold game_over; cbv zeta; break_ifs; reflexivity |].
      split; [rewrite G10, Rmax_right by lra; reflexivity |].
      split; [| intros; lra].
      intros _. split; [exact G1 |].
      eexists. split; [exact G11 | reflexivity]. }
  clearbody v1. destruct H1 as (M1 & SM1 & T1 & Hover & Hrun).
  rewrite SM1.
  assert (Hgoal : forall (w : GameView) (d : R),
             game_mode w = TIMED -> time_remaining w = time_remaining v1 ->
             game_state w = game_state v1 ->
             results_shown w = results_shown v1 ->
             let r := (if GameMode_eqb (game_mode w) TURN_BASED
                          && GameState_eqb (game_state w) AIMING
                       then
                         if negb (Rltb 0 (turn_time
                                            (set_turn_time w (turn_time w - d))))
                         then end_turn (set_turn_time w (turn_time w - d))
                         else set_turn_time w (turn_time w - d)
                       else w, d) in
             time_remaining (fst r) = Rmax (time_remaining v - dt) 0 /\
             0 <= time_remaining (fst r) /\
             (time_remaining v - dt <= 0 ->
              game_state (fst r) = GAME_OVER /\
              exists shown,
                results_shown (fst r) = results_shown v ++ [shown] /\
                rv_victory shown = false) /\
             (0 < time_remaining v - dt ->
              game_state (fst r) = game_state v /\
              results_shown (fst r) = results_shown v) /\
             snd r = d).
  { intros w d Mw Tw Sw Rw. cbv zeta. rewrite Mw. cbn [GameMode_eqb
      GameMode_value Z.eqb Pos.eqb andb fst snd].
    rewrite Tw, Sw, Rw, T1.
    split; [reflexivity |]. split; [apply Rmax_r |].
    split; [exact Hover |]. split; [exact Hrun | reflexivity]. }
  destruct (slow_motion v).
  - match goal with
    | |- context [if negb (Rltb 0 (slow_motion_time ?x)) then _ else _] =>
        destruct (negb (Rltb 0 (slow_motion_time x)))
    end; apply Hgoal; first [exact M1 | reflexivity].
  - apply Hgoal; first [exact M1 | reflexivity].
Qed.

Lemma run_timers_clock_witness :
  0 <= time_remaining
         (fst (run_timers (set_game_mode small_table TIMED) (1 / 60))).
Proof.
  apply (run_timers_clock (set_game_mode small_table TIMED) (1 / 60)).
  - reflexivity.
  - cbn. discriminate.
Defined.

Lemma step_ball_rest (t : R) (b : Ball) (dt : R) :
  at_rest b ->
  at_rest (fst (step_ball t b dt)) /\ snd (step_ball t b dt) = false.
Proof.
  intros [Hx Hy].
  destruct (update_at_rest t b dt Hx Hy) as [Hm _].
  unfold same_motion in Hm.
  destruct Hm as (_ & _ & Vx & Vy & _).
  destruct (check_wall_collision_shrinks (update t b dt)) as (Sx & Sy & _).
  cbv zeta in Sx, Sy.
  assert (R0 : at_rest (fst (step_ball t b dt))).
  { unfold step_ball. cbv zeta. cbn [fst].
    rewrite Vx, Hx, Rabs_R0 in Sx. rewrite Vy, Hy, Rabs_R0 in Sy.
    split.
    - pose proof (Rabs_pos (change_x (fst (check_wall_collision
                                             (update t b dt))))) as P.
      destruct (Req_dec (change_x (fst (check_wall_collision
                                          (update t b dt)))) 0) as [E | N];
        [exact E |]. apply Rabs_pos_lt in N. lra.
    - pose proof (Rabs_pos (change_y (fst (check_wall_collision
                                             (update t b dt))))) as P.
      destruct (Req_dec (change_y (fst (check_wall_collision
                                          (update t b dt)))) 0) as [E | N];
        [exact E |]. apply Rabs_pos_lt in N. lra. }
  split; [exact R0 |].
  destruct R0 as [Rx Ry].
  unfold step_ball in *. cbv zeta in *. cbn [fst snd] in *.
  rewrite Rx, Ry.
  rewrite (proj2 (Reqb_true 0 0) eq_refl). reflexivity.
Qed.

Lemma update_balls_rest (clock : nat -> R) (dt : R) (ids : list nat) :
  forall (v : GameView) (flag : bool),
    (forall k, In k ids -> at_rest (ball_of v k)) ->
    let r := update_balls ids v clock dt flag in
    snd r = flag /\
    (forall k, at_rest (ball_of v k) -> at_rest (ball_of (fst r) k)).
Proof.
  induction ids as [| b rest IH]; intros v flag Hr; cbv zeta.
  - cbn [update_balls fst snd]. split; [reflexivity | intros k H; exact H].
  - cbn [update_balls].
    destruct (step_ball_rest (clock b) (ball_of v b) dt
                (Hr b (or_introl eq_refl))) as [Rb Fb].
    destruct (step_ball (clock b) (ball_of v b) dt) as [b' moving].
    cbn [fst snd] in Rb, Fb. subst moving.
    assert (Hstep : forall k, at_rest (ball_of v k) ->
                              at_rest (ball_of (set_ball v b b') k)).
    { intros k Hk. rewrite ball_of_set_ball.
      destruct (Nat.eqb k b); [exact Rb | exact Hk]. }
    destruct (IH (set_ball v b b') (flag || false)%bool) as [F A].
    { intros k Hk. apply Hstep, Hr. right. exact Hk. }
    cbv zeta in F, A. split.
    + rewrite F. apply orb_false_r.
    + intros k Hk. apply A, Hstep, Hk.
Qed.

Lemma run_timers_rest (v : GameView) (dt : R) (k : nat) :
  at_rest (ball_of v k) -> at_rest (ball_of (fst (run_timers v dt)) k).
Proof.
  intros Hr. unfold run_timers. cbv zeta.
  set (v1 := if GameMode_eqb (game_mode v) TIMED
                && negb (GameState_eqb (game_state v) PAUSED)
             then _ else v).
  assert (H1 : ball_of v1 k = ball_of v k).
  { unfold v1. break_ifs; rewrite ?game_over_ball; reflexivity. }
  clearbody v1.
  set (p := if slow_motion v1 then _ else (v1, dt)).
  assert (H2 : ball_of (fst p) k = ball_of v k).
  { unfold p. break_ifs; cbn [fst]; exact H1. }
  clearbody p. destruct p as [v2 dt2]. cbn [fst] in H2.
  assert (Hend : at_rest
                   (ball_of (end_turn (set_turn_time v2 (turn_time v2 - dt2)))
                            k)).
  { unfold ball_of.
    destruct (end_turn_object (set_turn_time v2 (turn_time v2 - dt2)) k)
      as [E | E]; rewrite E.
    - change (at_rest (ball_of v2 k)). rewrite H2. exact Hr.
    - apply reset_body. }
  break_ifs; cbn [fst];
    first [exact Hend
          | change (at_rest (ball_of v2 k)); rewrite H2; exact Hr].
Qed.

(** X22: a table at rest stays at rest.  When the game is not paused,
    the sprite list has no repetition, the balls have positive mass and
    none of them moves, [on_update] computes the frame without
    exception, leaves every ball of the sprite list without velocity,
    and ends the frame in the state [AIMING] or [GAME_OVER], never in
    [BALLS_MOVING]. *)
Theorem on_update_rest (v : GameView) (dt : R)
    (clock pot_clock : nat -> R) :
  game_state v <> PAUSED ->
  NoDup (balls v) ->
  (forall k, In k (balls v) -> 0 < mass (ball_of v k)) ->
  (forall k, In k (balls v) -> at_rest (ball_of v k)) ->
  exists v',
    on_update v dt clock pot_clock = Some v' /\
    (game_state v' = AIMING \/ game_state v' = GAME_OVER) /\
    (forall k, In k (balls v') -> at_rest (ball_of v' k)).
Proof.
  intros Hp Hnd Hm Hrest. unfold on_update.
  rewrite (GameState_eqb_neq _ _ Hp).
  destruct (run_timers_keeps v dt) as [B1 M1].
  pose proof (run_timers_rest v dt) as R1.
  destruct (run_timers v dt) as [v1 dt1]. cbn [fst] in B1, M1, R1.
  assert (Hr1 : forall k, In k (balls v1) -> at_rest (ball_of v1 k)).
  { intros k Hk. apply R1, Hrest. rewrite <- B1. exact Hk. }
  destruct (update_balls_keeps clock dt1 (balls v1) v1 false)
    as (B2 & _ & M2 & _ & _ & _).
  destruct (update_balls_rest clock dt1 (balls v1) v1 false Hr1) as [F2 A2].
  cbv zeta in *.
  destruct (update_balls (balls v1) v1 clock dt1 false) as [v2 moving].
  cbn [fst snd] in *. subst moving.
  assert (Hnd2 : NoDup (balls v2)) by (rewrite B2, B1; exact Hnd).
  assert (Hm2 : forall k, In k (balls v2) -> 0 < mass (ball_of v2 k)).
  { intros k Hk. rewrite M2, M1. apply Hm. rewrite <- B1, <- B2. exact Hk. }
  destruct (collide_all_keeps (balls v2) (balls v2) v2 Hnd2 Hnd2
              (incl_refl _) Hm2) as (v3 & E3 & K3).
  rewrite E3.
  destruct (decay_screen_shake_keeps v3) as (B4 & O4 & _).
  set (v4 := decay_screen_shake v3) in *.
  set (v5 := view_check_pocket_collisions v4 pot_clock).
  destruct (settle_state_keeps v5 false) as (B6 & O6 & S6).
  set (v6 := settle_state v5 false) in *.
  destruct (check_win_conditions_keeps v6) as (B7 & O7 & S7).
  exists (check_win_conditions v6).
  split; [reflexivity |].
  split.
  { destruct S7 as [S7 | S7]; rewrite S7; [left; exact S6 | right; reflexivity]. }
  intros k Hk. rewrite B7, B6 in Hk.
  assert (Hincl : incl (balls v5) (balls v2)).
  { unfold v5, view_check_pocket_collisions.
    intros j Hj. apply pot_balls_incl in Hj.
    rewrite B4 in Hj. destruct K3 as (B3 & _). rewrite B3 in Hj. exact Hj. }
  unfold ball_of. rewrite O7, O6. fold (ball_of v5 k).
  unfold v5, view_check_pocket_collisions. apply pot_balls_rest.
  unfold ball_of. rewrite O4. fold (ball_of v3 k).
  apply (pass_keeps_rest (balls v2) v2 v3 K3 Hm2).
  - intros j Hj. apply A2, Hr1. rewrite <- B2. exact Hj.
  - apply Hincl, Hk.
Qed.

Lemma on_update_rest_witness :
  exists v',
    on_update (set_ball small_table 0 (ball_at 100 100 0 0 0)) (1 / 60)
              (fun _ => 0) (fun _ => 0) = Some v' /\
    (game_state v' = AIMING \/ game_state v' = GAME_OVER) /\
    (forall k, In k (balls v') -> at_rest (ball_of v' k)).
Proof.
  apply (on_update_rest (set_ball small_table 0 (ball_at 100 100 0 0 0))).
  - cbn. discriminate.
  - apply small_table_ok.
  - intros k Hk. destruct Hk as [<- | [<- | []]]; cbn; lra.
  - intros k Hk. destruct Hk as [<- | [<- | []]]; split; reflexivity.
Defined.

Ltac eval_setup :=
  cbv -[Rplus Rmult Rminus Rdiv IZR INR Rinv Ropp Rle Rlt Rge Rgt sqrt].

Lemma setup_scalars (v : GameView) (clock : nat -> R) :
  let v' := setup v clock in
  balls v' = seq 0 16 /\ cue_ball v' = Some 0%nat /\
  score v' = 0%Z /\ game_state v' = AIMING /\
  time_remaining v' = TIME_LIMIT /\ turn_time v' = TURN_TIME_LIMIT /\
  combo v' = 0%Z /\ shots_taken v' = 0%Z /\ current_turn v' = 1%Z /\
  balls_potted_this_turn v' = 0%Z /\
  game_mode v' = game_mode v /\ high_score v' = high_score v /\
  max_combo v' = max_combo v /\
  consecutive_pots v' = consecutive_pots v /\
  results_shown v' = results_shown v.
Proof. eval_setup. repeat split; reflexivity. Qed.

Lemma setup_remaining (v : GameView) (clock : nat -> R) :
  balls_remaining (setup v clock) = 15%nat.
Proof. eval_setup. reflexivity. Qed.

Lemma setup_ball (v : GameView) (clock : nat -> R) (k : nat) :
  In k (balls (setup v clock)) ->
  let b := ball_of (setup v clock) k in
  at_rest b /\ mass b = 1 /\ in_pocket b = false /\ inside_table b /\
  angular_velocity b = 0.
Proof.
  intros Hk. rewrite (proj1 (setup_scalars v clock)) in Hk.
  cbv zeta.
  repeat (destruct Hk as [<- | Hk];
          [eval_setup; cbn [INR]; repeat split; lra |]).
  destruct Hk.
Qed.

(** X23: a new game.  Whatever the game was before, [setup] leaves 16
    balls on the table: the cue ball first, then the eight ball, the
    solid balls 1 to 7 and the striped balls 9 to 15, every one at rest,
    of mass 1, not potted and inside the cushions.  The score, the combo
    and the clocks are reset, the game mode and the high score are
    kept, and the game is not over: [check_win_conditions] changes
    nothing.  The eight ball is put inside the rack: its centre is 12
    away from the centre of the striped ball 14, less than the diameter
    of a ball. *)
Theorem setup_rack (v : GameView) (clock : nat -> R) :
  let v' := setup v clock in
  balls v' = seq 0 16 /\ cue_ball v' = Some 0%nat /\
  map (fun k => (ball_type (objects v' k), number (objects v' k))) (balls v')
  = [(CUE, 0); (EIGHT, 8);
     (SOLID, 1); (SOLID, 2); (SOLID, 3); (SOLID, 4); (SOLID, 5);
     (SOLID, 6); (SOLID, 7);
     (STRIPE, 9); (STRIPE, 10); (STRIPE, 11); (STRIPE, 12); (STRIPE, 13);
     (STRIPE, 14); (STRIPE, 15)]%Z /\
  (forall k, In k (balls v') ->
             at_rest (ball_of v' k) /\ mass (ball_of v' k) = 1 /\
             in_pocket (ball_of v' k) = false /\
             inside_table (ball_of v' k)) /\
  score v' = 0%Z /\ combo v' = 0%Z /\ game_state v' = AIMING /\
  time_remaining v' = TIME_LIMIT /\ turn_time v' = TURN_TIME_LIMIT /\
  game_mode v' = game_mode v /\ high_score v' = high_score v /\
  balls_remaining v' = 15%nat /\
  check_win_conditions v' = v' /\
  number (objects v' 14) = 14%Z /\
  centre_distance (ball_of v' 1) (ball_of v' 14) = 12.
Proof.
  cbv zeta.
  destruct (setup_scalars v clock)
    as (B & C & S & G & T & TT & Co & _ & _ & _ & M & H & _).
  cbv zeta in *.
  split; [exact B |]. split; [exact C |].
  split; [eval_setup; reflexivity |].
  split.
  { intros k Hk. destruct (setup_ball v clock k Hk) as (A1 & A2 & A3 & A4 & _).
    split; [exact A1 |]. split; [exact A2 |]. split; [exact A3 | exact A4]. }
  split; [exact S |]. split; [exact Co |]. split; [exact G |].
  split; [exact T |]. split; [exact TT |]. split; [exact M |].
  split; [exact H |]. split; [apply setup_remaining |].
  split.
  { pose proof (setup_remaining v clock) as Hrem.
    set (v' := setup v clock) in *. clearbody v'.
    unfold check_win_conditions. cbv zeta.
    assert (Hclock : Rltb 0 (time_remaining v') = true).
    { apply Rltb_true. rewrite T. unfold TIME_LIMIT. lra. }
    rewrite Hclock. cbn [negb]. rewrite andb_false_r.
    rewrite Hrem. cbn [Nat.eqb]. rewrite S. reflexivity. }
  split; [eval_setup; reflexivity |].
  eval_setup. cbn [INR].
  match goal with
  | |- sqrt ?e = _ => replace e with (12 * 12) by lra
  end.
  apply sqrt_square. lra.
Qed.

(** X24: one click, one shot.  [on_mouse_press] changes nothing unless
    the game is in the state [AIMING] with the volume indicator hidden.
    A left click then launches the cue ball, when it is on the table and
    the click is not at its centre, and puts the game in the state
    [BALLS_MOVING], where every further mouse press is ignored. *)
Theorem on_mouse_press_one_shot (v : GameView) (x y now u : R)
    (button : MouseButton) :
  (game_state v <> AIMING \/ show_volume_indicator v = true ->
   on_mouse_press v x y button now u = v) /\
  (game_state v = AIMING -> show_volume_indicator v = false ->
   forall c,
     cue_ball v = Some c -> in_pocket (ball_of v c) = false ->
     x <> center_x (ball_of v c) \/ y <> center_y (ball_of v c) ->
     let v' := on_mouse_press v x y MOUSE_BUTTON_LEFT now u in
     v' = take_shot v x y now u /\
     game_state v' = BALLS_MOVING /\
     forall x' y' now' u' button',
       on_mouse_press v' x' y' button' now' u' = v').
Proof.
  split.
  - intros [Hs | Hi]; unfold on_mouse_press.
    + rewrite (GameState_eqb_neq _ _ Hs). reflexivity.
    + rewrite Hi. rewrite orb_true_r. reflexivity.
  - intros Hs Hi c Hc Hp Hxy. cbv zeta.
    assert (E : on_mouse_press v x y MOUSE_BUTTON_LEFT now u
                = take_shot v x y now u).
    { unfold on_mouse_press. rewrite Hs, Hi. reflexivity. }
    rewrite E.
    assert (G : game_state (take_shot v x y now u) = BALLS_MOVING).
    { rewrite (take_shot_taken v x y now u c Hc Hp Hxy). reflexivity. }
    split; [reflexivity |]. split; [exact G |].
    intros x' y' now' u' button'.
    unfold on_mouse_press at 1. rewrite G. reflexivity.
Qed.

Lemma on_mouse_press_one_shot_witness :
  game_state (on_mouse_press small_table 500 100 MOUSE_BUTTON_LEFT 0 0)
  = BALLS_MOVING.
Proof.
  apply (proj2 (on_mouse_press_one_shot small_table 500 100 0 0
                  MOUSE_BUTTON_LEFT) eq_refl eq_refl 0%nat eq_refl eq_refl).
  left. cbn. lra.
Defined.

Lemma Rmax_volume (x : R) : 0 <= x <= 1 -> 0 <= Rmax 0 (x - 0.05) <= 1.
Proof.
  intros H. unfold Rmax. destruct (Rle_dec 0 (x - 0.05)); lra.
Qed.

Lemma Rmin_volume (x : R) : 0 <= x <= 1 -> 0 <= Rmin 1 (x + 0.05) <= 1.
Proof.
  intros H. unfold Rmin. destruct (Rle_dec 1 (x + 0.05)); lra.
Qed.

Lemma SettingsMenu_on_key_press_ok (s : SettingsMenu) (key : Key) :
  settings_ok s -> settings_ok (SettingsMenu_on_key_press s key).
Proof.
  unfold settings_ok, volumes_ok.
  intros ((Hm & Hs) & (Hmm & Hms) & Hsel & Hagree).
  unfold SettingsMenu_on_key_press.
  destruct (adjusting s) eqn:Ha.
  - destruct key; cbv zeta;
      try (destruct (Z.eqb (current_adjust s) 0));
      try (destruct (mm_music_player (main_menu (store_volumes s))));
      cbn;
      pose proof (Rmax_volume _ Hm); pose proof (Rmax_volume _ Hs);
      pose proof (Rmin_volume _ Hm); pose proof (Rmin_volume _ Hs);
      rewrite ?Ha;
      repeat split; try tauto; try lra; try lia; try discriminate.
  - destruct (Hagree eq_refl) as [Em Es].
    destruct key; cbv zeta;
      try (destruct (Z.eqb (selected_option s) 2));
      cbn; rewrite ?Ha;
      repeat split; try tauto; try lra; try lia; try discriminate;
      try (apply Z.mod_pos_bound; lia).
Qed.

Lemma SettingsMenu_on_key_press_menu (s : SettingsMenu) (key : Key) :
  let s' := SettingsMenu_on_key_press s key in
  selected_mode (main_menu s') = selected_mode (main_menu s) /\
  (mm_music_player (main_menu s') = None <->
   mm_music_player (main_menu s) = None) /\
  (adjusting s = false -> music_volume s = mm_music_volume (main_menu s) ->
   mm_music_player (main_menu s) = Some (mm_music_volume (main_menu s)) ->
   mm_music_player (main_menu s') = Some (mm_music_volume (main_menu s'))) /\
  (adjusting s = true ->
   mm_music_player (main_menu s) = Some (mm_music_volume (main_menu s)) ->
   mm_music_player (main_menu s') = Some (mm_music_volume (main_menu s'))).
Proof.
  cbv zeta. unfold SettingsMenu_on_key_press.
  destruct (adjusting s) eqn:Ha.
  - destruct key; cbv zeta;
      try (destruct (Z.eqb (current_adjust s) 0));
      cbn;
      try (destruct (mm_music_player (main_menu s)) eqn:Hp; cbn);
      repeat split; try tauto; try discriminate; try congruence.
  - destruct key; cbv zeta;
      try (destruct (Z.eqb (selected_option s) 2));
      cbn; repeat split; try tauto; try discriminate; try congruence.
Qed.

Lemma press_keys_ok (keys : list Key) :
  forall s : SettingsMenu,
    settings_ok s ->
    let s' := press_keys s keys in
    settings_ok s' /\
    selected_mode (main_menu s') = selected_mode (main_menu s) /\
    (mm_music_player (main_menu s') = None <->
     mm_music_player (main_menu s) = None) /\
    (mm_music_player (main_menu s) = Some (mm_music_volume (main_menu s)) ->
     mm_music_player (main_menu s') = Some (mm_music_volume (main_menu s'))).
Proof.
  induction keys as [| key rest IH]; intros s Hok; cbv zeta.
  - cbn. split; [exact Hok |]. split; [reflexivity |].
    split; [tauto | intros H; exact H].
  - unfold press_keys. cbn [fold_left].
    fold (press_keys (SettingsMenu_on_key_press s key) rest).
    pose proof (SettingsMenu_on_key_press_ok s key Hok) as Hok1.
    destruct (SettingsMenu_on_key_press_menu s key) as (M1 & N1 & S1 & A1).
    cbv zeta in M1, N1, S1, A1.
    destruct (IH _ Hok1) as (Hok' & M' & N' & S').
    cbv zeta in M', N', S'.
    split; [exact Hok' |]. split; [rewrite M'; exact M1 |].
    split; [rewrite N'; exact N1 |].
    intros Hsync. apply S'.
    destruct (adjusting s) eqn:Ha.
    + apply A1; [reflexivity | exact Hsync].
    + destruct Hok as (_ & _ & _ & Hagree).
      apply S1; [reflexivity | apply (Hagree Ha) | exact Hsync].
Qed.

(** X25: the volumes stay between 0 and 1.  When the settings menu is
    opened from a main menu whose volumes are between 0 and 1, then
    after any keys pressed in it the volumes of both menus are between
    0 and 1, the selection is one of the three options, the two menus
    agree on the volumes outside the adjusting mode, the mode selected
    in the main menu is untouched, and a music player that played at
    the music volume of the main menu still does. *)
Theorem SettingsMenu_volumes (m : MainMenu) (keys : list Key) :
  volumes_ok (mm_music_volume m) (mm_sound_volume m) ->
  let s := press_keys (SettingsMenu_init m) keys in
  settings_ok s /\
  selected_mode (main_menu s) = selected_mode m /\
  (mm_music_player m = Some (mm_music_volume m) ->
   mm_music_player (main_menu s) = Some (mm_music_volume (main_menu s))) /\
  (mm_music_player m = None -> mm_music_player (main_menu s) = None).
Proof.
  intros Hv. cbv zeta.
  assert (Hok : settings_ok (SettingsMenu_init m)).
  { unfold settings_ok, SettingsMenu_init. cbn.
    split; [exact Hv |]. split; [exact Hv |]. split; [lia |].
    intros _. split; reflexivity. }
  destruct (press_keys_ok keys _ Hok) as (Hok' & M' & N' & S').
  cbv zeta in M', N', S'. cbn in M', N', S'.
  split; [exact Hok' |]. split; [exact M' |].
  split; [exact S' |]. intros Hn. apply N'. exact Hn.
Qed.

Lemma SettingsMenu_volumes_witness :
  settings_ok
    (press_keys (SettingsMenu_init (mkMainMenu 4 0.15 0.7 None))
                [ENTER; LEFT; LEFT; LEFT; LEFT; ENTER; DOWN; ESCAPE]).
Proof.
  apply (SettingsMenu_volumes (mkMainMenu 4 0.15 0.7 None)
           [ENTER; LEFT; LEFT; LEFT; LEFT; ENTER; DOWN; ESCAPE]).
  unfold volumes_ok. cbn. lra.
Defined.

Lemma press_keys_app (s : SettingsMenu) (keys1 keys2 : list Key) :
  press_keys s (keys1 ++ keys2) = press_keys (press_keys s keys1) keys2.
Proof. unfold press_keys. apply fold_left_app. Qed.

Lemma press_keys_adjusting (keys : list Key) :
  forall s : SettingsMenu,
    adjusting s = true ->
    Forall (fun k => k <> ENTER /\ k <> ESCAPE) keys ->
    let s' := press_keys s keys in
    adjusting s' = true /\ main_menu s' = main_menu s /\
    selected_option s' = selected_option s /\
    current_adjust s' = current_adjust s /\ returned s' = returned s /\
    (current_adjust s = 0%Z -> sound_volume s' = sound_volume s) /\
    (current_adjust s <> 0%Z -> music_volume s' = music_volume s).
Proof.
  induction keys as [| key rest IH]; intros s Ha Hk; cbv zeta.
  - cbn. split; [exact Ha |]. repeat split; reflexivity.
  - unfold press_keys. cbn [fold_left].
    fold (press_keys (SettingsMenu_on_key_press s key) rest).
    inversion Hk as [| k l [Hne Hnx] Hrest]; subst.
    assert (Hstep : let s1 := SettingsMenu_on_key_press s key in
                    adjusting s1 = true /\ main_menu s1 = main_menu s /\
                    selected_option s1 = selected_option s /\
                    current_adjust s1 = current_adjust s /\
                    returned s1 = returned s /\
                    (current_adjust s = 0%Z ->
                     sound_volume s1 = sound_volume s) /\
                    (current_adjust s <> 0%Z ->
                     music_volume s1 = music_volume s)).
    { cbv zeta. unfold SettingsMenu_on_key_press. rewrite Ha.
      destruct key; try contradiction;
        try (destruct (Z.eqb (current_adjust s) 0) eqn:Hz);
        cbn; rewrite ?Ha; repeat split; try reflexivity;
        try (intros H0; rewrite H0 in Hz; discriminate Hz);
        try (intros H0; apply Z.eqb_eq in Hz; contradiction). }
    cbv zeta in Hstep. destruct Hstep as (A1 & M1 & S1 & C1 & R1 & V1 & W1).
    destruct (IH _ A1 Hrest) as (A' & M' & S' & C' & R' & V' & W').
    cbv zeta in *.
    split; [exact A' |]. split; [rewrite M'; exact M1 |].
    split; [rewrite S'; exact S1 |]. split; [rewrite C'; exact C1 |].
    split; [rewrite R'; exact R1 |].
    split.
    + intros H0. rewrite V' by (rewrite C1; exact H0). apply V1, H0.
    + intros H0. rewrite W' by (rewrite C1; exact H0). apply W1, H0.
Qed.

(** X26: leaving the adjusting mode.  From the adjusting mode of the
    settings menu, after any keys other than ENTER and ESCAPE, ESCAPE
    takes the volumes of the main menu back and leaves the main menu as
    it was, while ENTER gives the main menu, and its music player if
    there is one, the volumes as adjusted.  In both cases the adjusting
    mode is left and the volume that was not being adjusted is the one
    before. *)
Theorem SettingsMenu_leave_adjusting (s : SettingsMenu) (keys : list Key) :
  adjusting s = true ->
  Forall (fun k => k <> ENTER /\ k <> ESCAPE) keys ->
  let adjusted := press_keys s keys in
  let cancelled := press_keys s (keys ++ [ESCAPE]) in
  let applied := press_keys s (keys ++ [ENTER]) in
  (current_adjust s = 0%Z -> sound_volume adjusted = sound_volume s) /\
  (current_adjust s <> 0%Z -> music_volume adjusted = music_volume s) /\
  main_menu cancelled = main_menu s /\
  music_volume cancelled = mm_music_volume (main_menu s) /\
  sound_volume cancelled = mm_sound_volume (main_menu s) /\
  adjusting cancelled = false /\
  mm_music_volume (main_menu applied) = music_volume adjusted /\
  mm_sound_volume (main_menu applied) = sound_volume adjusted /\
  music_volume applied = music_volume adjusted /\
  sound_volume applied = sound_volume adjusted /\
  (mm_music_player (main_menu s) <> None ->
   mm_music_player (main_menu applied) = Some (music_volume adjusted)) /\
  adjusting applied = false.
Proof.
  intros Ha Hk. cbv zeta.
  destruct (press_keys_adjusting keys s Ha Hk) as (A & M & _ & _ & _ & V & W).
  cbv zeta in *.
  rewrite !press_keys_app.
  set (s1 := press_keys s keys) in *. clearbody s1.
  unfold press_keys. cbn [fold_left].
  unfold SettingsMenu_on_key_press. rewrite A. cbv zeta.
  split; [exact V |]. split; [exact W |].
  cbn. rewrite M.
  split; [reflexivity |]. split; [reflexivity |]. split; [reflexivity |].
  split; [reflexivity |].
  destruct (mm_music_player (main_menu s)) eqn:Hp; cbn;
    repeat split; try reflexivity; intros H; contradiction.
Qed.

Lemma SettingsMenu_leave_adjusting_witness :
  music_volume
    (press_keys (mkSettingsMenu (mkMainMenu 4 0.15 0.7 None) 0 0.15 0.7
                                true 0 false)
                ([RIGHT; RIGHT; UP] ++ [ESCAPE]))
  = 0.15.
Proof.
  apply (SettingsMenu_leave_adjusting
           (mkSettingsMenu (mkMainMenu 4 0.15 0.7 None) 0 0.15 0.7
                           true 0 false)
           [RIGHT; RIGHT; UP]).
  - reflexivity.
  - repeat constructor; discriminate.
Defined.

Lemma count_key_cons (k key : Key) (keys : list Key) :
  count_key k (key :: keys)
  = ((if Key_eqb k key then 1 else 0) + count_key k keys)%Z.
Proof.
  unfold count_key. cbn [filter].
  destruct (Key_eqb k key); cbn [length]; lia.
Qed.

(** X27: browsing the main menu.  Whatever keys are pressed, the
    selection of the main menu, one of its six options, moves by one per
    DOWN or UP and wraps around: it ends [count DOWN - count UP]
    further, modulo 6.  No other key moves it, and no key touches the
    volumes or the music player. *)
Theorem MainMenu_browse (m : MainMenu) (keys : list Key) (sounds : bool)
    (clock : nat -> R) :
  (0 <= selected_mode m < 6)%Z ->
  let m' := browse m keys sounds clock in
  selected_mode m'
  = ((selected_mode m + count_key DOWN keys - count_key UP keys) mod 6)%Z /\
  (0 <= selected_mode m' < 6)%Z /\
  mm_music_volume m' = mm_music_volume m /\
  mm_sound_volume m' = mm_sound_volume m /\
  mm_music_player m' = mm_music_player m.
Proof.
  revert m. induction keys as [| key rest IH]; intros m Hr; cbv zeta.
  - cbn [browse fold_left]. unfold count_key. cbn.
    rewrite Z.sub_0_r, Z.add_0_r, Z.mod_small by lia.
    repeat split; try reflexivity; lia.
  - unfold browse. cbn [fold_left].
    fold (browse (fst (MainMenu_on_key_press m key sounds clock)) rest
                 sounds clock).
    rewrite !count_key_cons.
    set (m1 := fst (MainMenu_on_key_press m key sounds clock)).
    assert (H1 : selected_mode m1
                 = ((selected_mode m + (if Key_eqb DOWN key then 1 else 0)
                     - (if Key_eqb UP key then 1 else 0)) mod 6)%Z /\
                 mm_music_volume m1 = mm_music_volume m /\
                 mm_sound_volume m1 = mm_sound_volume m /\
                 mm_music_player m1 = mm_music_player m).
    { unfold m1. destruct key; cbn;
        rewrite ?Z.add_0_r, ?Z.sub_0_r;
        try (rewrite (Z.mod_small (selected_mode m)) by lia);
        repeat split; reflexivity. }
    destruct H1 as (S1 & V1 & W1 & P1).
    assert (Hr1 : (0 <= selected_mode m1 < 6)%Z).
    { rewrite S1. apply Z.mod_pos_bound. lia. }
    destruct (IH m1 Hr1) as (S' & R' & V' & W' & P'). cbv zeta in *.
    split.
    { rewrite S', S1.
      rewrite <- Z.add_sub_assoc, Z.add_mod_idemp_l by lia.
      f_equal. lia. }
    split; [exact R' |].
    split; [rewrite V'; exact V1 |].
    split; [rewrite W'; exact W1 | rewrite P'; exact P1].
Qed.

Lemma MainMenu_browse_witness :
  selected_mode (browse (mkMainMenu 0 0.15 0.7 None) [UP; UP; DOWN] true
                        (fun _ => 0))
  = ((0 + count_key DOWN [UP; UP; DOWN] - count_key UP [UP; UP; DOWN])
       mod 6)%Z.
Proof.
  apply (MainMenu_browse (mkMainMenu 0 0.15 0.7 None) [UP; UP; DOWN] true
           (fun _ => 0)).
  cbn. lia.
Defined.

(** X28: starting from the menu.  For a selection among the six
    options, [start_game] leaves the program on the last one, opens the
    settings with the volumes of the main menu on the fifth, and
    otherwise shows a new game in the mode whose number is one more than
    the selection: 16 balls, no score, the full time on the clock, in
    the state [AIMING] and not over. *)
Theorem start_game_mode (m : MainMenu) (sounds : bool) (clock : nat -> R) :
  (0 <= selected_mode m < 6)%Z ->
  match start_game m sounds clock with
  | ShowGame g =>
      (selected_mode m < 4)%Z /\
      GameMode_value (game_mode g) = (selected_mode m + 1)%Z /\
      balls g = seq 0 16 /\ cue_ball g = Some 0%nat /\
      score g = 0%Z /\ high_score g = 0%Z /\
      time_remaining g = TIME_LIMIT /\ game_state g = AIMING /\
      results_shown g = [] /\ hit_sound g = sounds /\
      check_win_conditions g = g
  | ShowSettings s =>
      selected_mode m = 4%Z /\ main_menu s = m /\
      music_volume s = mm_music_volume m /\
      sound_volume s = mm_sound_volume m /\
      adjusting s = false /\ selected_option s = 0%Z
  | Exit => selected_mode m = 5%Z
  | Stay => False
  end.
Proof.
  intros Hr.
  assert (Hgame : forall md : GameMode,
             let g := setup (set_game_mode (GameView_init sounds) md) clock in
             game_mode g = md /\
             balls g = seq 0 16 /\ cue_ball g = Some 0%nat /\
             score g = 0%Z /\ high_score g = 0%Z /\
             time_remaining g = TIME_LIMIT /\ game_state g = AIMING /\
             results_shown g = [] /\ hit_sound g = sounds /\
             check_win_conditions g = g).
  { intros md. cbv zeta.
    destruct (setup_scalars (set_game_mode (GameView_init sounds) md) clock)
      as (B & C & S & G & T & _ & _ & _ & _ & _ & M & H & _ & _ & Rs).
    destruct (setup_rack (set_game_mode (GameView_init sounds) md) clock)
      as (_ & _ & _ & _ & _ & _ & _ & _ & _ & _ & _ & _ & W & _).
    cbv zeta in *.
    split; [rewrite M; reflexivity |]. split; [exact B |].
    split; [exact C |]. split; [exact S |].
    split; [rewrite H; reflexivity |]. split; [exact T |].
    split; [exact G |]. split; [rewrite Rs; reflexivity |].
    split; [eval_setup; reflexivity | exact W]. }
  assert (Hc : (selected_mode m = 0 \/ selected_mode m = 1 \/
                selected_mode m = 2 \/ selected_mode m = 3 \/
                selected_mode m = 4 \/ selected_mode m = 5)%Z) by lia.
  unfold start_game.
  destruct Hc as [E | [E | [E | [E | [E | E]]]]]; rewrite E;
    cbn [Z.eqb Pos.eqb]; cbv zeta.
  - destruct (Hgame PRACTICE) as (M & Rest). cbv zeta in M, Rest.
    split; [lia |]. split; [rewrite M; reflexivity | exact Rest].
  - assert (Et : setup (set_time_remaining
                          (set_game_mode (GameView_init sounds) TIMED)
                          TIME_LIMIT) clock
                 = setup (set_game_mode (GameView_init sounds) TIMED) clock)
      by reflexivity.
    rewrite Et.
    destruct (Hgame TIMED) as (M & Rest). cbv zeta in M, Rest.
    split; [lia |]. split; [rewrite M; reflexivity | exact Rest].
  - destruct (Hgame TURN_BASED) as (M & Rest). cbv zeta in M, Rest.
    split; [lia |]. split; [rewrite M; reflexivity | exact Rest].
  - destruct (Hgame CHALLENGE) as (M & Rest). cbv zeta in M, Rest.
    split; [lia |]. split; [rewrite M; reflexivity | exact Rest].
  - cbn. repeat split; reflexivity.
  - reflexivity.
Qed.

Lemma start_game_mode_witness :
  match start_game (mkMainMenu 1 0.15 0.7 None) true (fun _ => 0) with
  | ShowGame g => GameMode_value (game_mode g) = 2%Z
  | _ => False
  end.
Proof.
  generalize (start_game_mode (mkMainMenu 1 0.15 0.7 None) true
                (fun _ => 0)).
  cbn [selected_mode].
  destruct (start_game (mkMainMenu 1 0.15 0.7 None) true (fun _ => 0));
    intros H.
  - apply H. lia.
  - assert (E : 1%Z = 5%Z) by (apply H; lia). discriminate E.
  - destruct H as [E _]; [lia | discriminate E].
  - destruct H as (_ & E & _); [lia | exact E].
Defined.

Lemma menu_click_cons (i : Z) (rest : list Z) (m : MainMenu) (x y : R)
    (sounds : bool) (clock : nat -> R) :
  menu_click (i :: rest) m x y sounds clock
  = if Rltb (Rabs (x - 600)) 200
       && Rltb (Rabs (y - (350 + 50 - IZR i * 50))) 20
    then (set_selected_mode m i,
          start_game (set_selected_mode m i) sounds clock)
    else menu_click rest m x y sounds clock.
Proof. reflexivity. Qed.

Lemma menu_click_miss (options : list Z) (m : MainMenu) (x y : R)
    (sounds : bool) (clock : nat -> R) :
  (200 <= Rabs (x - 600) \/
   forall i, In i options -> 20 <= Rabs (y - (400 - IZR i * 50))) ->
  menu_click options m x y sounds clock = (m, Stay).
Proof.
  intros H. induction options as [| i rest IH]; [reflexivity |].
  rewrite menu_click_cons.
  assert (E : Rltb (Rabs (x - 600)) 200
              && Rltb (Rabs (y - (350 + 50 - IZR i * 50))) 20 = false).
  { destruct H as [Hx | Hy].
    - apply (proj2 (Rltb_false _ _)) in Hx. rewrite Hx. reflexivity.
    - specialize (Hy i (or_introl eq_refl)).
      replace (350 + 50 - IZR i * 50) with (400 - IZR i * 50) by lra.
      apply (proj2 (Rltb_false _ _)) in Hy. rewrite Hy.
      apply andb_false_r. }
  rewrite E. apply IH.
  destruct H as [Hx | Hy]; [left; exact Hx | right].
  intros j Hj. apply Hy. right. exact Hj.
Qed.

Lemma menu_click_hit (options : list Z) (i : Z) :
  forall (m : MainMenu) (x y : R) (sounds : bool) (clock : nat -> R),
    In i options ->
    Rabs (x - 600) < 200 ->
    Rabs (y - (400 - IZR i * 50)) < 20 ->
    menu_click options m x y sounds clock
    = (set_selected_mode m i, start_game (set_selected_mode m i) sounds clock).
Proof.
  intros m x y sounds clock Hin Hx Hy.
  induction options as [| j rest IH]; [destruct Hin |].
  rewrite menu_click_cons.
  destruct (Z.eq_dec j i) as [-> | Hne].
  - replace (350 + 50 - IZR i * 50) with (400 - IZR i * 50) by lra.
    rewrite (proj2 (Rltb_true _ _) Hx), (proj2 (Rltb_true _ _) Hy).
    reflexivity.
  - assert (E : Rltb (Rabs (y - (350 + 50 - IZR j * 50))) 20 = false).
    { apply Rltb_false.
      assert (Hd : IZR j - IZR i <= -1 \/ 1 <= IZR j - IZR i).
      { destruct (Z_lt_le_dec j i) as [Hlt | Hge].
        - left. rewrite <- minus_IZR. apply IZR_le. lia.
        - right. rewrite <- minus_IZR. apply IZR_le. lia. }
      apply Rabs_def2 in Hy.
      unfold Rabs. destruct (Rcase_abs (y - (350 + 50 - IZR j * 50)));
        destruct Hd; lra. }
    rewrite E, andb_false_r. apply IH.
    destruct Hin as [Hj | Hin]; [contradiction | exact Hin].
Qed.

(** X29: clicking in the main menu.  A click less than 200 beside the
    middle of the screen and less than 20 above or below the line of
    the option [i], at height [400 - 50 * i], selects that option and
    starts it; the six boxes do not overlap, so the option is the only
    one hit.  A click outside all six boxes does nothing. *)
Theorem MainMenu_click (m : MainMenu) (x y : R) (sounds : bool)
    (clock : nat -> R) :
  (forall i : Z,
     (0 <= i < 6)%Z ->
     Rabs (x - 600) < 200 -> Rabs (y - (400 - IZR i * 50)) < 20 ->
     MainMenu_on_mouse_press m x y sounds clock
     = (set_selected_mode m i,
        start_game (set_selected_mode m i) sounds clock)) /\
  (200 <= Rabs (x - 600) \/
   (forall i : Z, (0 <= i < 6)%Z -> 20 <= Rabs (y - (400 - IZR i * 50))) ->
   MainMenu_on_mouse_press m x y sounds clock = (m, Stay)).
Proof.
  unfold MainMenu_on_mouse_press. split.
  - intros i Hi Hx Hy. apply menu_click_hit; [| exact Hx | exact Hy].
    cbn. lia.
  - intros H. apply menu_click_miss.
    destruct H as [Hx | Hy]; [left; exact Hx | right].
    intros i Hi. apply Hy. cbn in Hi. lia.
Qed.

Lemma MainMenu_click_witness :
  MainMenu_on_mouse_press (mkMainMenu 0 0.15 0.7 None) 650 310 true
                          (fun _ => 0)
  = (set_selected_mode (mkMainMenu 0 0.15 0.7 None) 2,
     start_game (set_selected_mode (mkMainMenu 0 0.15 0.7 None) 2) true
                (fun _ => 0)).
Proof.
  apply (proj1 (MainMenu_click (mkMainMenu 0 0.15 0.7 None) 650 310 true
                  (fun _ => 0)) 2%Z).
  - lia.
  - replace (650 - 600) with 50 by lra. rewrite Rabs_right; lra.
  - replace (310 - (400 - 2 * 50)) with 10 by lra. rewrite Rabs_right; lra.
Defined.

Lemma py_int_upper (x : R) (n : Z) :
  0 <= x -> x <= IZR n -> (py_int x <= n)%Z.
Proof.
  intros H0 Hn. unfold py_int. destruct (Rle_dec 0 x) as [_ | N]; [| lra].
  unfold Int_part. destruct (archimed x) as [_ Hup].
  assert (H : IZR (up x) <= IZR (n + 1)).
  { rewrite plus_IZR. lra. }
  apply le_IZR in H. lia.
Qed.

Lemma update_particle_some (p p' : Particle) (dt : R) :
  update_particle p dt = Some p' ->
  life p' = life p - dt /\ 0 < life p' /\ max_life p' = max_life p /\
  p_size p' = p_size p * 0.97 /\
  p_x p' = p_x p + p_dx p /\ p_y p' = p_y p + p_dy p /\
  particle_type p' = particle_type p.
Proof.
  unfold update_particle. cbv zeta.
  destruct (Rltb 0 (life p - dt)) eqn:Hl; cbn [negb]; [| discriminate].
  apply Rltb_true in Hl.
  destruct (String.eqb (particle_type p) ParticleKind.SPARK);
    intros H; inversion H; subst; cbn; repeat split; try reflexivity; lra.
Qed.

Lemma update_particle_none (p : Particle) (dt : R) :
  update_particle p dt = None <-> life p - dt <= 0.
Proof.
  unfold update_particle. cbv zeta.
  destruct (Rltb 0 (life p - dt)) eqn:Hl; cbn [negb].
  - apply Rltb_true in Hl.
    destruct (String.eqb (particle_type p) ParticleKind.SPARK);
      split; intros H; try discriminate H; lra.
  - apply Rltb_false in Hl. split; [intros _; exact Hl | reflexivity].
Qed.

Lemma ParticleSystem_update_In (particles : list Particle) (dt : R)
    (p' : Particle) :
  In p' (ParticleSystem_update particles dt) ->
  exists p, In p particles /\ update_particle p dt = Some p'.
Proof.
  induction particles as [| q rest IH]; cbn [ParticleSystem_update];
    [intros [] |].
  destruct (update_particle q dt) as [q' |] eqn:Hq.
  - intros [<- | Hin].
    + exists q. split; [left; reflexivity | exact Hq].
    + destruct (IH Hin) as (p & Hp & E). exists p.
      split; [right; exact Hp | exact E].
  - intros Hin. destruct (IH Hin) as (p & Hp & E). exists p.
    split; [right; exact Hp | exact E].
Qed.

Lemma ParticleSystem_update_length (particles : list Particle) (dt : R) :
  (length (ParticleSystem_update particles dt) <= length particles)%nat.
Proof.
  induction particles as [| q rest IH]; cbn [ParticleSystem_update];
    [apply Nat.le_refl |].
  destruct (update_particle q dt); cbn [length]; lia.
Qed.

Lemma ParticleSystem_update_expired (particles : list Particle) (dt : R) :
  (forall p, In p particles -> life p <= dt) ->
  ParticleSystem_update particles dt = [].
Proof.
  induction particles as [| q rest IH]; intros H; [reflexivity |].
  cbn [ParticleSystem_update].
  assert (Hq : update_particle q dt = None).
  { apply update_particle_none.
    pose proof (H q (or_introl eq_refl)). lra. }
  rewrite Hq. apply IH. intros p Hp. apply H. right. exact Hp.
Qed.

Lemma run_particles_expire (d : R) (frames : list R) :
  forall particles : list Particle,
    frames <> [] ->
    (forall dt, In dt frames -> d <= dt) ->
    (forall p, In p particles -> life p <= INR (length frames) * d) ->
    run_particles frames particles = [].
Proof.
  induction frames as [| dt rest IH]; intros particles Hne Hd Hl;
    [contradiction |].
  cbn [run_particles].
  pose proof (Hd dt (or_introl eq_refl)) as Hdt.
  destruct rest as [| dt2 rest].
  - cbn [run_particles]. apply ParticleSystem_update_expired.
    intros p Hp. specialize (Hl p Hp). cbn in Hl. lra.
  - apply IH.
    + discriminate.
    + intros t Ht. apply Hd. right. exact Ht.
    + intros p' Hp'.
      destruct (ParticleSystem_update_In _ _ _ Hp') as (p & Hp & E).
      destruct (update_particle_some _ _ _ E) as (L & _).
      specialize (Hl p Hp).
      change (length (dt :: dt2 :: rest)) with (S (length (dt2 :: rest)))
        in Hl.
      rewrite S_INR in Hl. rewrite L. lra.
Qed.

(** X30: the life of the particles.  With a frame time that is not
    negative, [ParticleSystem.update] never adds a particle, and every
    particle it keeps has lost [delta_time] of life, is still alive and
    has shrunk to 0.97 of its size; if no particle was older than its
    full life, the alpha channel [draw] computes for each one kept is
    between 0 and 255.  Over one or more frames of at least [d] each,
    particles whose life is at most the number of frames times [d] are
    all gone. *)
Theorem ParticleSystem_update_life (particles : list Particle)
    (delta_time : R) :
  0 <= delta_time ->
  let kept := ParticleSystem_update particles delta_time in
  (length kept <= length particles)%nat /\
  (forall p', In p' kept ->
     exists p, In p particles /\
               life p' = life p - delta_time /\ 0 < life p' /\
               max_life p' = max_life p /\
               p_size p' = p_size p * 0.97) /\
  ((forall p, In p particles -> life p <= max_life p) ->
   forall p', In p' kept ->
     particle_ok p' /\
     exists a, particle_alpha p' = Some a /\ (0 <= a <= 255)%Z) /\
  (forall (d : R) (frames : list R),
     frames <> [] ->
     (forall dt, In dt frames -> d <= dt) ->
     (forall p, In p particles -> life p <= INR (length frames) * d) ->
     run_particles frames particles = []).
Proof.
  intros Hdt. cbv zeta.
  split; [apply ParticleSystem_update_length |].
  split.
  { intros p' Hp'.
    destruct (ParticleSystem_update_In _ _ _ Hp') as (p & Hp & E).
    destruct (update_particle_some _ _ _ E) as (L & Hpos & M & S & _).
    exists p. repeat split; assumption. }
  split.
  { intros Hold p' Hp'.
    destruct (ParticleSystem_update_In _ _ _ Hp') as (p & Hp & E).
    destruct (update_particle_some _ _ _ E) as (L & Hpos & M & _).
    specialize (Hold p Hp).
    assert (Hok : particle_ok p').
    { unfold particle_ok. rewrite M. lra. }
    split; [exact Hok |].
    unfold particle_ok in Hok. unfold particle_alpha.
    assert (Hm : 0 < max_life p') by lra.
    destruct (Reqb (max_life p') 0) eqn:Hz.
    { apply Reqb_true in Hz. lra. }
    eexists. split; [reflexivity |].
    assert (Hratio : 0 <= life p' / max_life p' <= 1).
    { split.
      - apply Rmult_le_pos; [lra |].
        apply Rlt_le, Rinv_0_lt_compat, Hm.
      - apply (Rmult_le_reg_r (max_life p')); [exact Hm |].
        unfold Rdiv. rewrite Rmult_assoc, Rinv_l by lra. lra. }
    split.
    - apply py_int_lower; lra.
    - apply py_int_upper; lra. }
  intros d frames Hne Hd Hl.
  apply (run_particles_expire d); assumption.
Qed.

Lemma ParticleSystem_update_life_witness :
  (length (ParticleSystem_update
             [mkParticle 10 10 1 1 4 0.3 0.3 ParticleKind.SPARK] (1 / 60))
   <= 1)%nat.
Proof.
  apply (ParticleSystem_update_life
           [mkParticle 10 10 1 1 4 0.3 0.3 ParticleKind.SPARK] (1 / 60)).
  lra.
Defined.
